(** * neurons.form: HTML form rendering over a typed object model

    A shallow embedding of [neurons/form/form.py].  The module renders a
    form by walking a class description.  It is written for Python 2 and
    for Python 3 alike (the file imports [print_function] from
    [__future__] and goes through [six]); where the two differ in
    something the module does, the functions below take the interpreter
    as an argument. *)

From Stdlib Require Import List String Ascii ZArith Lia Bool Arith.
From Stdlib Require Import DecimalString DecimalN.
Import ListNotations.
Open Scope string_scope.
Set Warnings "-register-all".

(** ** The interpreter

    Two things differ between the interpreters that the module leans
    on.  Python 2 orders [None] before every other value, while on
    Python 3 ordering [None] against anything raises [TypeError].  And
    which characters past ASCII [str.isupper] takes for upper case, and
    what [str.lower] makes of them, depends on the interpreter and on
    the kind of string: byte strings know ASCII only, text strings
    follow Unicode, where the lower case of a letter may be the letter
    itself or more than one character. *)

Record interpreter := {
  none_first : bool;                      (* Python 2 ordering *)
  isupper_past_ascii : ascii -> bool;
  lower_past_ascii : ascii -> string
}.

(** ** Python strings *)

Module Py.

(** [s.startswith(p)] *)
Fixpoint startswith (p s : string) : bool :=
  match p, s with
  | EmptyString, _ => true
  | String a p', String b s' => Ascii.eqb a b && startswith p' s'
  | String _ _, EmptyString => false
  end.

(** The scan of [str.replace] for a non-empty pattern: left to right,
    matches do not overlap; [skip] counts the characters of the current
    match still to drop. *)
Fixpoint replace_scan (skip : nat) (old new s : string) : string :=
  match s with
  | EmptyString => EmptyString
  | String c s' =>
      match skip with
      | S k => replace_scan k old new s'
      | O =>
          if startswith old s
          then new ++ replace_scan (String.length old - 1) old new s'
          else String c (replace_scan 0 old new s')
      end
  end.

(** With an empty pattern Python inserts [new] around every character. *)
Fixpoint intersperse (new s : string) : string :=
  match s with
  | EmptyString => new
  | String c s' => new ++ String c (intersperse new s')
  end.

(** [s.replace(old, new)] *)
Definition replace (old new s : string) : string :=
  match old with
  | EmptyString => intersperse new s
  | String _ _ => replace_scan 0 old new s
  end.

(** [sep.join(parts)] *)
Fixpoint join (sep : string) (parts : list string) : string :=
  match parts with
  | [] => ""
  | [x] => x
  | x :: rest => x ++ sep ++ join sep rest
  end.

(** [str(n)] for a non-negative integer *)
Definition str_N (n : N) : string :=
  NilZero.string_of_uint (N.to_uint n).

Definition str_nat (n : nat) : string := str_N (N.of_nat n).

(** [str(z)] for an integer *)
Definition str_int (z : Z) : string :=
  match z with
  | Zneg p => "-" ++ str_N (Npos p)
  | _ => str_N (Z.to_N z)
  end.

Fixpoint zeros (n : nat) : string :=
  match n with
  | O => ""
  | S k => String "0" (zeros k)
  end.

(** Zero fill on the left up to [width] characters; longer texts are
    kept whole. *)
Definition zfill (width : nat) (s : string) : string :=
  zeros (width - String.length s) ++ s.

(** ['%09d' % i]: the sign counts in the width and precedes the zeros. *)
Definition fmt_09d (i : Z) : string :=
  match i with
  | Zneg p => "-" ++ zfill 8 (str_N (Npos p))
  | _ => zfill 9 (str_N (Z.to_N i))
  end.

(** [c.isupper()] and [c.lower()] for one character: the letters of
    ASCII are the same everywhere, past ASCII the interpreter decides. *)
Definition isupper (py : interpreter) (c : ascii) : bool :=
  let n := nat_of_ascii c in
  if Nat.ltb n 128 then Nat.leb 65 n && Nat.leb n 90
  else isupper_past_ascii py c.

Definition lower (py : interpreter) (c : ascii) : string :=
  let n := nat_of_ascii c in
  if Nat.ltb n 128
  then String (if Nat.leb 65 n && Nat.leb n 90 then ascii_of_nat (n + 32) else c) ""
  else lower_past_ascii py c.

(** Does the character [c] occur in [s]? *)
Fixpoint mem (c : ascii) (s : string) : bool :=
  match s with
  | EmptyString => false
  | String d s' => Ascii.eqb c d || mem c s'
  end.

End Py.

(** ** HtmlWidget.selsafe *)

(** [s.replace('[', '').replace(']', '').replace('.', '__')] *)
Definition selsafe (s : string) : string :=
  Py.replace "." "__" (Py.replace "]" "" (Py.replace "[" "" s)).

(** The character-wise reading of [selsafe]. *)
Definition selsafe_char (c : ascii) : string :=
  if Ascii.eqb c "["%char then ""
  else if Ascii.eqb c "]"%char then ""
  else if Ascii.eqb c "."%char then "__"
  else String c "".

Fixpoint flat_map_chars (f : ascii -> string) (s : string) : string :=
  match s with
  | EmptyString => EmptyString
  | String c s' => f c ++ flat_map_chars f s'
  end.

(** ** Exceptions and results *)

Inductive exn :=
| TypeError | AttributeError | KeyError | ValueError | RuntimeError
| StopIteration | Break.

(** A call returns, raises, or has not come back within the recursion
    budget given to it. *)
Inductive res (A : Type) :=
| Ok (a : A)
| Raise (e : exn)
| OutOfFuel.
Arguments Ok {A} a.
Arguments Raise {A} e.
Arguments OutOfFuel {A}.

Definition res_map {A B} (f : A -> B) (r : res A) : res B :=
  match r with
  | Ok a => Ok (f a)
  | Raise e => Raise e
  | OutOfFuel => OutOfFuel
  end.

Definition res_bind {A B} (r : res A) (f : A -> res B) : res B :=
  match r with
  | Ok a => f a
  | Raise e => Raise e
  | OutOfFuel => OutOfFuel
  end.

(** ** Dictionaries with string keys, in insertion order *)

Module Dict.

Definition t := list (string * string).

Fixpoint get (k : string) (d : t) : option string :=
  match d with
  | [] => None
  | (k', v) :: d' => if String.eqb k k' then Some v else get k d'
  end.

(** [d[k] = v]: an existing key keeps its place. *)
Fixpoint set (k v : string) (d : t) : t :=
  match d with
  | [] => [(k, v)]
  | (k', v') :: d' =>
      if String.eqb k k' then (k, v) :: d' else (k', v') :: set k v d'
  end.

(** [del d[k]]; the callers only delete keys that are present. *)
Fixpoint del (k : string) (d : t) : t :=
  match d with
  | [] => []
  | (k', v') :: d' => if String.eqb k k' then d' else (k', v') :: del k d'
  end.

(** [d.update(other)] *)
Definition update (d other : t) : t :=
  fold_left (fun acc kv => set (fst kv) (snd kv) acc) other d.

End Dict.

(** ** The [%] operator with a mapping on the right

    Only [%(key)s] and [%%] occur in the templates of this module; any
    other directive is reported as [ValueError]. *)

Inductive fmt_state :=
| FLit
| FPct
| FKey (k : string)
| FConv (k : string).

Fixpoint format_scan (st : fmt_state) (kw : Dict.t) (s : string) : res string :=
  match s with
  | EmptyString =>
      match st with
      | FLit => Ok ""
      | _ => Raise ValueError
      end
  | String c s' =>
      match st with
      | FLit =>
          if Ascii.eqb c "%"%char then format_scan FPct kw s'
          else res_map (String c) (format_scan FLit kw s')
      | FPct =>
          if Ascii.eqb c "("%char then format_scan (FKey "") kw s'
          else if Ascii.eqb c "%"%char
               then res_map (String "%"%char) (format_scan FLit kw s')
               else Raise ValueError
      | FKey k =>
          if Ascii.eqb c ")"%char then format_scan (FConv k) kw s'
          else format_scan (FKey (k ++ String c "")) kw s'
      | FConv k =>
          if Ascii.eqb c "s"%char then
            match Dict.get k kw with
            | Some v => res_map (append v) (format_scan FLit kw s')
            | None => Raise KeyError
            end
          else Raise ValueError
      end
  end.

Definition format_map (template : string) (kw : Dict.t) : res string :=
  format_scan FLit kw template.

(** ** lxml elements *)

Inductive node :=
| Txt (s : string)
| Elt (tag : string) (attrib : Dict.t) (children : list node).

Definition node_tag (n : node) : option string :=
  match n with
  | Txt _ => None
  | Elt t _ _ => Some t
  end.

Definition node_attrib (n : node) : Dict.t :=
  match n with
  | Txt _ => []
  | Elt _ a _ => a
  end.

Definition node_children (n : node) : list node :=
  match n with
  | Txt _ => []
  | Elt _ _ c => c
  end.

Definition set_attrib (k v : string) (n : node) : node :=
  match n with
  | Txt s => Txt s
  | Elt t a c => Elt t (Dict.set k v a) c
  end.

Definition update_attrib (other : Dict.t) (n : node) : node :=
  match n with
  | Txt s => Txt s
  | Elt t a c => Elt t (Dict.update a other) c
  end.

Definition nl : string := String (ascii_of_nat 10) "".
Definition tab_char : string := String (ascii_of_nat 9) "".
Definition dq : string := String (ascii_of_nat 34) "".

(** ** The object model handed over by the type-reflection layer *)

Module Fieldset.
Record t := mk {
  legend : option string;
  tag : string;
  attrib : Dict.t;
  index : option Z;
  htmlid : string;
  oid : nat   (* the object's identity, what [is] and [id()] see *)
}.
End Fieldset.

Module Tab.
Record t := mk {
  legend : option string;
  attrib : Dict.t;
  index : option Z;
  htmlid : string;
  oid : nat
}.
End Tab.

(** The classes the serializer table distinguishes; [Other] is a class
    with no entry in the table. *)
Inductive kind :=
| Unicode | Decimal | Integer | Boolean | Date | Time | DateTime | Duration
| Array | ComplexModelBase | Other.

(** What [get_cls_attrs] returns.  Attributes whose default is an
    infinity are options, with [None] for the default. *)
Module Attributes.
Record t := {
  tab : option Tab.t;
  fieldset : option Fieldset.t;
  order : option Z;
  exc : bool;
  min_occurs : Z;
  max_occurs : option Z;       (* [None]: unbounded *)
  nullable : bool;
  pattern : option string;
  format : option string;
  no_write : bool;
  max_len : option Z;          (* [None]: Unicode.Attributes.max_len *)
  min_len : Z;
  max_str_len : Z;
  ge : option Z;               (* [None]: Decimal.Attributes.ge, and so on *)
  gt : option Z;
  le : option Z;
  lt : option Z;
  fraction_digits : option Z   (* [None]: infinite *)
}.
End Attributes.

Record cls := {
  cls_kind : kind;
  get_type_name : string;
  get_cls_attrs : Attributes.t
}.

(** Defaults of the reflection layer that the widgets compare against. *)
Definition Unicode_min_len : Z := 0.
Definition Decimal_max_str_len : Z := 1024.

(** Instances. [VPush] is a [PushBase]: its elements arrive later,
    through [send]. *)
Inductive value :=
| VNone
| VBool (b : bool)
| VInt (z : Z)
| VStr (s : string)
| VOther (repr : string)
| VList (items : list value)
| VObj (members : list (string * value))
| VPush.

Definition is_none (v : value) : bool :=
  match v with VNone => true | _ => false end.

(** [bool(inst)] *)
Definition truthy (v : value) : bool :=
  match v with
  | VNone => false
  | VBool b => b
  | VInt z => negb (Z.eqb z 0)
  | VStr s => negb (String.eqb s "")
  | VList l => match l with [] => false | _ => true end
  | _ => true
  end.

Fixpoint assoc {A} (k : string) (l : list (string * A)) : option A :=
  match l with
  | [] => None
  | (k', v) :: l' => if String.eqb k k' then Some v else assoc k l'
  end.

(** [getattr(inst, k, None)] *)
Definition getattr (inst : value) (k : string) : value :=
  match inst with
  | VObj members => match assoc k members with Some v => v | None => VNone end
  | _ => VNone
  end.

(** What a [for] loop sees of [inst]. *)
Definition iterate (inst : value) : res (list value) :=
  match inst with
  | VList l => Ok l
  | VStr s => Ok (map (fun c => VStr (String c "")) (list_ascii_of_string s))
  | _ => Raise TypeError
  end.

(** The protocol object: the conversions, translations and settings the
    renderer reads from [self]. *)
Record HtmlForm := {
  hier_delim : string;
  ignore_uncap : bool;
  to_unicode : cls -> value -> option string;
  to_string : cls -> value -> string;
  trc : cls -> string -> string;           (* translated class label *)
  str_pow10_neg : Z -> string              (* [str(10**(-n))] for n > 0 *)
}.

(** [self.trd(trdict, locale, default)] with a plain legend *)
Definition trd (legend : option string) (default : string) : string :=
  match legend with
  | Some s => s
  | None => default
  end.

(** ** The parent writer and the module state

    What reaches the parent is recorded in order.  A context manager made
    by [parent.element(...)] is named by its creation rank inside the
    call that made it; the output of a nested renderer call, and of later
    resumptions of the generator it returned, is kept as one entry so
    that a call's own writes can be told from its children's. *)

Inductive event :=
| Enter (c : nat) (tag : string) (attrib : Dict.t)   (* [ctx.__enter__()] *)
| Exit (c : nat)                                     (* [ctx.__exit__(...)] *)
| Write (n : node)                                   (* [parent.write(n)] *)
| Call (name : string) (evs : list event)
| Resume (evs : list event).

Record state := {
  SOME_COUNTER : nat;
  assets : list (list string)     (* [ctx.protocol.assets] *)
}.

Definition M (A : Type) : Type := state -> list event * state * res A.

Definition ret {A} (a : A) : M A := fun s => ([], s, Ok a).

Definition bind {A B} (m : M A) (f : A -> M B) : M B :=
  fun s =>
    match m s with
    | (t1, s1, Ok a) =>
        match f a s1 with
        | (t2, s2, r) => ((t1 ++ t2)%list, s2, r)
        end
    | (t1, s1, Raise e) => (t1, s1, Raise e)
    | (t1, s1, OutOfFuel) => (t1, s1, OutOfFuel)
    end.

Notation "x <- m ;; k" := (bind m (fun x => k))
  (at level 61, m at next level, right associativity).
Notation "m ;;; k" := (bind m (fun _ => k))
  (at level 61, right associativity).

Definition raise {A} (e : exn) : M A := fun s => ([], s, Raise e).
Definition out_of_fuel {A} : M A := fun s => ([], s, OutOfFuel).
Definition emit (e : event) : M unit := fun s => ([e], s, Ok tt).
Definition lift {A} (r : res A) : M A := fun s => ([], s, r).

Definition write (n : node) : M unit := emit (Write n).

(** A statement that runs whether or not [m] raised, as the exit of a
    [with] block does; the outcome of [m] is kept. *)
Definition finally {A} (m : M A) (cleanup : event) : M A :=
  fun s =>
    match m s with
    | (t, s', OutOfFuel) => (t, s', OutOfFuel)
    | (t, s', r) => ((t ++ [cleanup])%list, s', r)
    end.

(** [with parent.element(tag, attrib): body], for a body that does not
    suspend. *)
Definition with_element {A} (c : nat) (tag : string) (attrib : Dict.t)
    (body : M A) : M A :=
  emit (Enter c tag attrib) ;;; finally body (Exit c).

(** Output of a nested call, kept together. *)
Definition nested {A} (wrap : list event -> event) (m : M A) : M A :=
  fun s =>
    match m s with
    | (t, s', r) => ([wrap t], s', r)
    end.

Definition extend_assets (l : list (list string)) : M unit :=
  fun s => ([], {| SOME_COUNTER := SOME_COUNTER s; assets := (assets s ++ l)%list |}, Ok tt).

(** [n = SOME_COUNTER; SOME_COUNTER += 1] *)
Definition next_counter : M nat :=
  fun s => ([], {| SOME_COUNTER := S (SOME_COUNTER s); assets := assets s |},
            Ok (SOME_COUNTER s)).

(** ** Module-level helpers *)

Fixpoint camel_case_to_uscore_gen (py : interpreter) (i : nat) (s : string)
    : string :=
  match s with
  | EmptyString => EmptyString
  | String c s' =>
      (if Py.isupper py c
       then (match i with O => "" | S _ => "_" end) ++ Py.lower py c
       else String c "")
      ++ camel_case_to_uscore_gen py (S i) s'
  end.

Definition camel_case_to_uscore (py : interpreter) (s : string) : string :=
  camel_case_to_uscore_gen py 0 s.

Definition E_script (text : string) : node :=
  Elt "script" [("type", "text/javascript")] [Txt text].

Definition array_js_template : string :=
  nl ++ "$(function() {" ++ nl ++
  "    var field_name = " ++ dq ++ "." ++ dq ++ " + " ++ dq ++ "%(field_name)s" ++ dq ++ ";" ++ nl ++
  nl ++
  "    var add = function() {" ++ nl ++
  "        var f = $($(field_name)[0]).clone();" ++ nl ++
  "        f.appendTo($(field_name).parent());" ++ nl ++
  "        f.find(" ++ dq ++ ".%(field_name)s_btn_add" ++ dq ++ ").click(add);" ++ nl ++
  "        f.find(" ++ dq ++ ".%(field_name)s_btn_del" ++ dq ++ ").click(del);" ++ nl ++
  "        return false;" ++ nl ++
  "    };" ++ nl ++
  nl ++
  "    var del = function(event) {" ++ nl ++
  "        if($('#%(field_name)s_container').find('.%(field_name)s').length > 1){" ++ nl ++
  "            $(this).parent().remove();" ++ nl ++
  "        }" ++ nl ++
  "        else{" ++ nl ++
  "            $(this).parent().children().val(" ++ dq ++ dq ++ ")" ++ nl ++
  "        }" ++ nl ++
  "       event.preventDefault();" ++ nl ++
  "    };" ++ nl ++
  nl ++
  "    $(" ++ dq ++ ".%(field_name)s_btn_add" ++ dq ++ ").click(add);" ++ nl ++
  "    $(" ++ dq ++ ".%(field_name)s_btn_del" ++ dq ++ ").click(del);" ++ nl ++
  "});".

Definition _gen_array_js (key : string) : M unit :=
  text <- lift (format_map array_js_template [("field_name", key)]) ;;
  write (E_script text).

Fixpoint format_lines (lines : list string) (kw : Dict.t) : res (list string) :=
  match lines with
  | [] => Ok []
  | l :: rest =>
      res_bind (format_map l kw) (fun l' =>
      res_map (cons l') (format_lines rest kw))
  end.

Definition _format_js (lines : list string) (kw : Dict.t) : res node :=
  res_map
    (fun ls => E_script (nl ++ "$(function(){" ++ nl ++ tab_char
                           ++ Py.join (nl ++ tab_char) ls ++ nl ++ "});"))
    (format_lines lines kw).

Definition _idiv (children : list node) : node :=
  Elt "div" [("class", "label-input-wrapper")] children.

(** ** HtmlWidget *)

Section Widget.

Variable py : interpreter.
Variable self : HtmlForm.

Definition _gen_label (c : cls) (name : string) (input : node) : res node :=
  match Dict.get "id" (node_attrib input) with
  | Some i => Ok (Elt "label" [("for", i)] [Txt (trc self c name)])
  | None => Raise KeyError
  end.

Definition _gen_input_elt_id (name : string) (array_index : option Z) : string :=
  match array_index with
  | None => selsafe name ++ "_input"
  | Some i => selsafe name ++ "_" ++ Py.str_int i ++ "_input"
  end.

Definition _gen_input_name (name : string) (array_index : option Z) : string :=
  match array_index with
  | None => name
  | Some i => name ++ "[" ++ Py.str_int i ++ "]"
  end.

Definition is_required (a : Attributes.t) : bool :=
  Z.eqb (Attributes.min_occurs a) 1 && negb (Attributes.nullable a).

Definition _gen_input_attrs_novalue (c : cls) (name : string)
    (cls_attrs : Attributes.t) : Dict.t :=
  let elt_attrs :=
    [ ("id", _gen_input_elt_id name None);
      ("name", _gen_input_name name None);
      ("class", camel_case_to_uscore py (get_type_name c));
      ("type", "text") ] in
  let elt_attrs :=
    match Attributes.pattern cls_attrs with
    | Some p => Dict.set "pattern" p elt_attrs
    | None => elt_attrs
    end in
  (* FIXME in the source: min_occurs > 1 is not handled *)
  if is_required cls_attrs then Dict.set "required" "" elt_attrs else elt_attrs.

(** The guard of the source, [not (inst is None and isinstance(inst, type))],
    holds for every instance. *)
Definition _gen_input_attrs (c : cls) (inst : value) (name : string)
    (cls_attrs : Attributes.t) : Dict.t :=
  let elt_attrs := _gen_input_attrs_novalue c name cls_attrs in
  match to_unicode self c inst with
  | Some val => Dict.set "value" val elt_attrs
  | None => elt_attrs
  end.

Definition _gen_input (c : cls) (inst : value) (name : string)
    (cls_attrs : Attributes.t) : node :=
  let elt_attrs := _gen_input_attrs c inst name cls_attrs in
  if is_required cls_attrs
  then update_attrib (Dict.del "required" elt_attrs) (Elt "input" [("required", "")] [])
  else Elt "input" elt_attrs [].

Definition _gen_input_unicode (c : cls) (inst : value) (name : string)
    : Attributes.t * node :=
  let cls_attrs := get_cls_attrs c in
  let elt := _gen_input c inst name cls_attrs in
  let elt := set_attrib "type" "text" elt in
  let elt :=
    match Attributes.max_len cls_attrs with
    | Some n => set_attrib "maxlength" (Py.str_int n) elt
    | None => elt
    end in
  let elt :=
    if Z.ltb Unicode_min_len (Attributes.min_len cls_attrs)
    then set_attrib "minlength" (Py.str_int (Attributes.min_len cls_attrs)) elt
    else elt in
  (cls_attrs, elt).

Definition set_opt (k : string) (v : option Z) (elt : node) : node :=
  match v with
  | Some z => set_attrib k (Py.str_int z) elt
  | None => elt
  end.

Definition _apply_number_constraints (cls_attrs : Attributes.t) (elt : node)
    : res node :=
  let elt :=
    if Z.eqb (Attributes.max_str_len cls_attrs) Decimal_max_str_len then elt
    else set_attrib "maxlength" (Py.str_int (Attributes.max_str_len cls_attrs)) elt in
  match Dict.get "type" (node_attrib elt) with
  | None => Raise KeyError
  | Some ty =>
      if String.eqb ty "range" then
        Ok (set_opt "max" (Attributes.lt cls_attrs)
           (set_opt "max" (Attributes.le cls_attrs)
           (set_opt "min" (Attributes.gt cls_attrs)
           (set_opt "min" (Attributes.ge cls_attrs) elt))))
      else Ok elt
  end.

(** ** HtmlForm: the serializers of the primitive classes *)

Definition unicode_to_parent (c : cls) (inst : value) (name : string) : M unit :=
  let '(cls_attrs, elt) := _gen_input_unicode c inst name in
  label <- lift (_gen_label c name elt) ;;
  write (_idiv [label; elt]).

Definition decimal_to_parent (c : cls) (inst : value) (name : string) : M unit :=
  let cls_attrs := get_cls_attrs c in
  let elt := _gen_input c inst name cls_attrs in
  let elt := set_attrib "type" "number" elt in
  let elt :=
    match Attributes.fraction_digits cls_attrs with
    | None => set_attrib "step" "any" elt
    | Some d =>
        set_attrib "step"
          (if Z.ltb 0 d then str_pow10_neg self d else Py.str_int (10 ^ (- d))) elt
    end in
  elt <- lift (_apply_number_constraints cls_attrs elt) ;;
  label <- lift (_gen_label c name elt) ;;
  write (_idiv [label; elt]).

Definition boolean_to_parent (c : cls) (inst : value) (name : string) : M unit :=
  let cls_attrs := get_cls_attrs c in
  let elt := _gen_input c inst name cls_attrs in
  let elt := update_attrib [("type", "checkbox"); ("value", "true")] elt in
  let elt := if truthy inst then set_attrib "checked" "" elt else elt in
  label <- lift (_gen_label c name elt) ;;
  write (_idiv [elt; label]).

Definition strftime_date (fmt : string) : string :=
  Py.replace "%d" "dd" (Py.replace "%m" "mm" (Py.replace "%Y" "yy" fmt)).

Definition strftime_time (fmt : string) : string :=
  Py.replace "%S" "SS" (Py.replace "%M" "MM" (Py.replace "%H" "HH" fmt)).

(** The three picker serializers share their tail: the two or three
    statements are filled in and written next to the label and input. *)
Definition picker_script (c : cls) (inst : value) (elt : node)
    (data_format : string) (code : list string) (set_date : string) : res node :=
  match Dict.get "id" (node_attrib elt) with
  | None => Raise KeyError
  | Some field_name =>
      if is_none inst then
        _format_js code [("field_name", field_name); ("format", data_format)]
      else
        let value := to_string self c inst in
        _format_js (code ++ [set_date])
          [("field_name", field_name); ("value", value); ("format", data_format)]
  end.

Definition date_to_parent (c : cls) (inst : value) (name : string) : M unit :=
  extend_assets [["jquery"]; ["jquery-ui"; "datepicker"]] ;;;
  let cls_attrs := get_cls_attrs c in
  let elt := _gen_input c inst name cls_attrs in
  let elt := set_attrib "type" "text" elt in
  let data_format :=
    match Attributes.format cls_attrs with
    | None => "yy-mm-dd"
    | Some f => strftime_date f
    end in
  let code :=
    [ "$('#%(field_name)s').datepicker();";
      "$('#%(field_name)s').datepicker('option', 'dateFormat', '%(format)s');" ] in
  script <- lift (picker_script c inst elt data_format code
              "$('#%(field_name)s').datepicker('setDate', '%(value)s');") ;;
  label <- lift (_gen_label c name elt) ;;
  write (_idiv [label; elt; script]).

Definition time_to_parent (c : cls) (inst : value) (name : string) : M unit :=
  extend_assets [["jquery"]; ["jquery-ui"; "datepicker"]; ["jquery-timepicker"]] ;;;
  let cls_attrs := get_cls_attrs c in
  let elt := _gen_input c inst name cls_attrs in
  let elt := set_attrib "type" "text" elt in
  let data_format :=
    match Attributes.format cls_attrs with
    | None => "HH:MM:SS"
    | Some f => strftime_time f
    end in
  let code :=
    [ "$('#%(field_name)s').timepicker();";
      "$('#%(field_name)s').timepicker('option', 'timeFormat', '%(format)s');" ] in
  script <- lift (picker_script c inst elt data_format code
              "$('#%(field_name)s').timepicker('setDate', '%(value)s');") ;;
  label <- lift (_gen_label c name elt) ;;
  write (_idiv [label; elt; script]).

(** The input of a DateTime is built from [None], not from the instance. *)
Definition datetime_to_parent (c : cls) (inst : value) (name : string) : M unit :=
  extend_assets [["jquery"]; ["jquery-ui"; "datepicker"]; ["jquery-timepicker"]] ;;;
  let cls_attrs := get_cls_attrs c in
  let elt := _gen_input c VNone name cls_attrs in
  let elt := set_attrib "type" "text" elt in
  let data_format :=
    match Attributes.format cls_attrs with
    | None => "yy-mm-dd HH:MM:SS"
    | Some f => strftime_time (strftime_date f)
    end in
  let code :=
    [ "$('#%(field_name)s').datetimepicker();";
      "$('#%(field_name)s').datetimepicker('option', 'DateTimeFormat', '%(format)s');" ] in
  script <- lift (picker_script c inst elt data_format code
              "$('#%(field_name)s').datetimepicker('setDate', '%(value)s');") ;;
  label <- lift (_gen_label c name elt) ;;
  write (_idiv [label; elt; script]).

Definition integer_to_parent (c : cls) (inst : value) (name : string) : M unit :=
  let cls_attrs := get_cls_attrs c in
  let elt := _gen_input c inst name cls_attrs in
  let elt := set_attrib "type" "number" elt in
  elt <- lift (_apply_number_constraints cls_attrs elt) ;;
  label <- lift (_gen_label c name elt) ;;
  write (_idiv [label; elt]).

(* TODO in the source: finish this *)
Definition duration_to_parent (c : cls) (inst : value) (name : string) : M unit :=
  let cls_attrs := get_cls_attrs c in
  let elt := _gen_input c inst name cls_attrs in
  label <- lift (_gen_label c name elt) ;;
  write (_idiv [label; elt]).

End Widget.

(** ** Ordering of sort keys

    A tuple comparison skips the leading components that are equal and
    orders by the first pair that differs.  When one of the pair is
    [None], Python 2 puts it first and Python 3 raises [TypeError]. *)

Definition lt_None (py : interpreter) (first : bool) : res bool :=
  if none_first py then Ok first else Raise TypeError.

Definition eq_optZ (a b : option Z) : bool :=
  match a, b with
  | None, None => true
  | Some x, Some y => Z.eqb x y
  | _, _ => false
  end.

Definition lt_optZ (py : interpreter) (a b : option Z) : res bool :=
  match a, b with
  | Some x, Some y => Ok (Z.ltb x y)
  | None, Some _ => lt_None py true
  | _, None => lt_None py false
  end.

Definition lt_str (a b : string) : res bool := Ok (String.ltb a b).

(** One component of a tuple comparison, [rest] comparing what follows. *)
Definition tuple_step {A} (eqb : A -> A -> bool) (lt : A -> A -> res bool)
    (a b : A) (rest : res bool) : res bool :=
  if eqb a b then rest else lt a b.

(** [(index, htmlid)] *)
Definition idx_key : Type := option Z * string.

Definition eq_idx (a b : idx_key) : bool :=
  eq_optZ (fst a) (fst b) && String.eqb (snd a) (snd b).

Definition lt_idx (py : interpreter) (a b : idx_key) : res bool :=
  tuple_step eq_optZ (lt_optZ py) (fst a) (fst b)
    (tuple_step String.eqb lt_str (snd a) (snd b) (Ok false)).

Definition eq_opt_idx (a b : option idx_key) : bool :=
  match a, b with
  | None, None => true
  | Some x, Some y => eq_idx x y
  | _, _ => false
  end.

Definition lt_opt_idx (py : interpreter) (a b : option idx_key) : res bool :=
  match a, b with
  | Some x, Some y => lt_idx py x y
  | None, Some _ => lt_None py true
  | _, None => lt_None py false
  end.

(** The key built by [_Tform_key]: tab, fieldset, order, field name. *)
Definition form_key : Type := option idx_key * option idx_key * option Z * string.

Definition _form_key (sort_key : string * cls) : form_key :=
  let '(k, v) := sort_key in
  let attrs := get_cls_attrs v in
  (match Attributes.tab attrs with
   | None => None
   | Some t => Some (Tab.index t, Tab.htmlid t)
   end,
   match Attributes.fieldset attrs with
   | None => None
   | Some f => Some (Fieldset.index f, Fieldset.htmlid f)
   end,
   Attributes.order attrs, k).

Definition lt_form_key (py : interpreter) (a b : form_key) : res bool :=
  let '(t1, f1, o1, k1) := a in
  let '(t2, f2, o2, k2) := b in
  tuple_step eq_opt_idx (lt_opt_idx py) t1 t2
    (tuple_step eq_opt_idx (lt_opt_idx py) f1 f2
       (tuple_step eq_optZ (lt_optZ py) o1 o2
          (tuple_step String.eqb lt_str k1 k2 (Ok false)))).

(** [sorted(l, key=key)]: a stable insertion sort that stops at the first
    comparison that raises.  The interpreter's merge sort asks other
    questions of the same order: both give the one stable result when
    every pair is comparable, and no sort can finish on items of which
    some cannot be compared with the others. *)
Section Sorted.
Context {A K : Type}.
Variable lt : K -> K -> res bool.
Variable key : A -> K.

Fixpoint insert_sorted (x : A) (l : list A) : res (list A) :=
  match l with
  | [] => Ok [x]
  | y :: l' =>
      res_bind (lt (key y) (key x)) (fun b =>
        if b then res_map (cons y) (insert_sorted x l') else Ok (x :: l))
  end.

Fixpoint sorted (l : list A) : res (list A) :=
  match l with
  | [] => Ok []
  | x :: l' => res_bind (sorted l') (insert_sorted x)
  end.
End Sorted.

(** ** Generators

    A generator of this module is suspended at one of four [yield]
    expressions; its frame holds the locals that the rest of the body
    reads. *)

Inductive msg :=
| Send (v : value)     (* [gen.send(v)] *)
| ThrowBreak.          (* [gen.throw(Break())] *)

(** The keyword arguments that are read somewhere: [from_arr], absent or
    given.  [parent_inst], [no_label] and the like are passed along and
    never read. *)
Definition kwargs : Type := option bool.

Definition kw_from_arr (kw : kwargs) : bool :=
  match kw with
  | Some b => b
  | None => false
  end.

Module CM.
(** Locals of [complex_model_to_parent]; [n_ctx] counts the context
    managers made so far. *)
Record locals := mk {
  prev_fset : option Fieldset.t;
  fset_ctx : option nat;
  fset : option Fieldset.t;
  prev_tab : option Tab.t;
  tab_ctx : option nat;
  tab : option Tab.t;
  tabview_ctx : option nat;
  tabview_id : option string;
  n_ctx : nat
}.

Record frame := mk_frame {
  inst : value;
  name : string;
  kw : kwargs;
  fti : list (string * cls);
  loc : locals;
  rest : list (string * cls)      (* fields still to render *)
}.
End CM.

Module Pull.
Record frame := mk {
  c : cls;
  key : string;
  attr : Attributes.t;
  kw : kwargs;
  i : nat;                        (* index of the item being rendered *)
  rest : list value               (* items after it *)
}.
End Pull.

Module Push.
Record frame := mk {
  c : cls;
  key : string;
  attr : Attributes.t;
  kw : kwargs;
  i : Z;
  n : nat                         (* rank of the item div that is open *)
}.
End Push.

Inductive gen :=
| GComplex (ret : gen) (fr : CM.frame)      (* at [y = (yield)] *)
| GPull (ret : gen) (fr : Pull.frame)       (* at [sv2 = (yield)] of the pull loop *)
| GPushWait (fr : Push.frame)               (* at [sv = (yield)] *)
| GPushFwd (ret : gen) (fr : Push.frame).   (* at [sv2 = (yield)] of the push loop *)

(** The exit of a [with] block whose body may suspend: it runs when the
    body is left, by falling through or by an exception, and not while
    the generator is suspended inside it. *)
Definition with_suspendable (c : nat) (body : M (option gen)) : M (option gen) :=
  fun s =>
    match body s with
    | (t, s', Ok (Some g)) => (t, s', Ok (Some g))
    | (t, s', OutOfFuel) => (t, s', OutOfFuel)
    | (t, s', r) => ((t ++ [Exit c])%list, s', r)
    end.

(** The forwarding loop shared by the three coroutines:
[[
    try:
        while True:
            y = (yield)
            ret.send(y)
    except Break as b:
        try:
            ret.throw(b)
        except StopIteration:
            pass
]]
    [None] means the loop is over.  A child that ended on [send] would
    let [StopIteration] escape the body, which a current interpreter
    turns into [RuntimeError]; no generator of this module ends on
    [send], so the case does not arise.  A child that yields again on
    [throw] is left where it is; whatever else a child raises goes on
    up. *)
Definition forward (resume_ret : msg -> M (option gen)) (m : msg) : M (option gen) :=
  match m with
  | Send y =>
      r <- nested Resume (resume_ret (Send y)) ;;
      match r with
      | Some g' => ret (Some g')
      | None => raise RuntimeError
      end
  | ThrowBreak =>
      nested Resume (resume_ret ThrowBreak) ;;; ret None
  end.

Definition when (b : bool) (m : M unit) : M unit := if b then m else ret tt.

Definition exit_if_open (ctx : option nat) : M unit :=
  match ctx with
  | Some c => emit (Exit c)
  | None => ret tt
  end.

Definition E_button (text cls_ : string) : node :=
  Elt "button" [("class", cls_); ("type", "button")] [Txt text].

Definition write_buttons (key : string) : M unit :=
  write (E_button "+" (key ++ "_btn_add")) ;;;
  write (E_button "-" (key ++ "_btn_del")).

(** ** HtmlForm: tabs, fieldsets, arrays *)

Definition is_tab (a b : option Tab.t) : bool :=
  match a, b with
  | None, None => true
  | Some x, Some y => Nat.eqb (Tab.oid x) (Tab.oid y)
  | _, _ => false
  end.

Definition is_fset (a b : option Fieldset.t) : bool :=
  match a, b with
  | None, None => true
  | Some x, Some y => Nat.eqb (Fieldset.oid x) (Fieldset.oid y)
  | _, _ => false
  end.

(** [tabs[id(tab)] = tab] on an insertion-ordered dictionary *)
Fixpoint set_tab (t : Tab.t) (tabs : list Tab.t) : list Tab.t :=
  match tabs with
  | [] => [t]
  | u :: tabs' =>
      if Nat.eqb (Tab.oid t) (Tab.oid u) then t :: tabs' else u :: set_tab t tabs'
  end.

Fixpoint collect_tabs (fti : list (string * cls)) (tabs : list Tab.t) : list Tab.t :=
  match fti with
  | [] => tabs
  | (k, v) :: fti' =>
      let subattr := get_cls_attrs v in
      match Attributes.tab subattr with
      | Some t =>
          if Attributes.exc subattr then collect_tabs fti' tabs
          else collect_tabs fti' (set_tab t tabs)
      | None => collect_tabs fti' tabs
      end
  end.

Fixpoint tab_items (i : nat) (tabs : list Tab.t) : list node :=
  match tabs with
  | [] => []
  | t :: tabs' =>
      Elt "li" []
        [Elt "a" [("href", "#" ++ Tab.htmlid t)]
           [Txt (trd (Tab.legend t) ("Tab " ++ Py.str_nat i))]]
      :: tab_items (S i) tabs'
  end.

Definition _gen_tab_headers (py : interpreter) (fti : list (string * cls))
    : res node :=
  let tabs := collect_tabs fti [] in
  res_map (fun ts => Elt "ul" [] (tab_items 0 ts))
    (sorted (lt_idx py) (fun t => (Tab.index t, Tab.htmlid t)) tabs).

Section Form.

Variable py : interpreter.
Variable self : HtmlForm.

(** [cls.get_flat_type_info(cls)], and [cls._type_info] for an array
    class: the members of a class, in declaration order. *)
Variable get_flat_type_info : cls -> list (string * cls).

(** The renderer the dispatcher hands back for a member. *)
Variable to_parent : cls -> value -> string -> kwargs -> M (option gen).

(** Lines 505 to 535: the tab of the field differs from the previous one. *)
Definition tab_transition (fti : list (string * cls)) (subattr : Attributes.t)
    (l : CM.locals) : M CM.locals :=
  let tab := Attributes.tab subattr in
  if is_tab tab (CM.prev_tab l) then
    ret (CM.mk (CM.prev_fset l) (CM.fset_ctx l) (CM.fset l) (CM.prev_tab l)
               (CM.tab_ctx l) tab (CM.tabview_ctx l) (CM.tabview_id l) (CM.n_ctx l))
  else
    exit_if_open (CM.fset_ctx l) ;;;
    (* fset_ctx = prev_fset = None *)
    exit_if_open (CM.tab_ctx l) ;;;
    tv <- match CM.prev_tab l with
          | None =>
              n <- next_counter ;;
              let tabview_id := "tabview" ++ Py.str_nat n in
              emit (Enter (CM.n_ctx l) "div" [("id", tabview_id)]) ;;;
              hdr <- lift (_gen_tab_headers py fti) ;;
              write hdr ;;;
              ret (Some (CM.n_ctx l), Some tabview_id, S (CM.n_ctx l))
          | Some _ => ret (CM.tabview_ctx l, CM.tabview_id l, CM.n_ctx l)
          end ;;
    let '(tabview_ctx, tabview_id, n_ctx) := tv in
    match tab with
    | None => raise AttributeError          (* [tab.htmlid] *)
    | Some t =>
        let attrib := Dict.update [("id", Tab.htmlid t)] (Tab.attrib t) in
        emit (Enter n_ctx "div" attrib) ;;;
        ret (CM.mk None None (CM.fset l) tab (Some n_ctx) tab
                   tabview_ctx tabview_id (S n_ctx))
    end.

(** Lines 537 to 548: the fieldset of the field differs from the previous
    one. *)
Definition fset_transition (k : string) (subattr : Attributes.t)
    (l : CM.locals) : M CM.locals :=
  let fset := Attributes.fieldset subattr in
  if is_fset fset (CM.prev_fset l) then
    ret (CM.mk (CM.prev_fset l) (CM.fset_ctx l) fset (CM.prev_tab l)
               (CM.tab_ctx l) (CM.tab l) (CM.tabview_ctx l) (CM.tabview_id l)
               (CM.n_ctx l))
  else
    exit_if_open (CM.fset_ctx l) ;;;
    match fset with
    | None => raise AttributeError          (* [fset.tag] *)
    | Some f =>
        emit (Enter (CM.n_ctx l) (Fieldset.tag f) (Fieldset.attrib f)) ;;;
        write (Elt "legend" [] [Txt (trd (Fieldset.legend f) k)]) ;;;
        ret (CM.mk fset (Some (CM.n_ctx l)) fset (CM.prev_tab l)
                   (CM.tab_ctx l) (CM.tab l) (CM.tabview_ctx l) (CM.tabview_id l)
                   (S (CM.n_ctx l)))
    end.

(** Lines 568 to 582, after the loop. *)
Definition cm_finish (l : CM.locals) : M unit :=
  exit_if_open (CM.fset_ctx l) ;;;
  exit_if_open (CM.tab_ctx l) ;;;
  match CM.tabview_ctx l with
  | Some c =>
      emit (Exit c) ;;;
      write (E_script ("$(function(){ $( " ++ dq ++ "#"
                         ++ match CM.tabview_id l with Some i => i | None => "None" end
                         ++ dq ++ " ).tabs(); });"))
  | None => ret tt
  end.

Definition child_key (name k : string) : string :=
  if Nat.ltb 0 (String.length name)
  then name ++ hier_delim self ++ k     (* [hier_delim.join((name, k))] *)
  else k.

(** The [for] loop over the sorted fields and what follows it.  The
    result is the suspended generator, or [None] once the body is done. *)
Fixpoint cm_loop (inst : value) (name : string) (kw : kwargs)
    (fti : list (string * cls)) (l : CM.locals) (fields : list (string * cls))
    : M (option gen) :=
  match fields with
  | [] => cm_finish l ;;; ret None
  | (k, v) :: rest =>
      let subattr := get_cls_attrs v in
      if Attributes.exc subattr then cm_loop inst name kw fti l rest
      else
        let subinst := getattr inst k in
        l <- tab_transition fti subattr l ;;
        l <- fset_transition k subattr l ;;
        r <- nested (Call (child_key name k))
               (to_parent v subinst (child_key name k) kw) ;;
        match r with
        | Some g => ret (Some (GComplex g (CM.mk_frame inst name kw fti l rest)))
        | None => cm_loop inst name kw fti l rest
        end
  end.

Definition cm_locals0 : CM.locals :=
  CM.mk None None None None None None None None 1.

Definition complex_model_to_parent (c : cls) (inst : value) (name : string)
    (kw : kwargs) : M (option gen) :=
  let fti := get_flat_type_info c in
  (* FIXME in the source: the top-level object receives its own name *)
  let name := if String.eqb name (get_type_name c) then "" else name in
  emit (Enter 0 "fieldset" []) ;;;
  with_suspendable 0
    (write (Elt "legend" [] [Txt (get_type_name c)]) ;;;
     fields <- lift (sorted (lt_form_key py) _form_key fti) ;;
     cm_loop inst name kw fti cm_locals0 fields).

Definition item_key (key : string) (i : Z) : string :=
  key ++ "[" ++ Py.fmt_09d i ++ "]".

(** The next turn of [while True]: a new item div is opened and the
    generator waits for the element. *)
Definition push_next (fr : Push.frame) : M (option gen) :=
  emit (Enter (S (Push.n fr)) "div" [("class", Push.key fr)]) ;;;
  ret (Some (GPushWait (Push.mk (Push.c fr) (Push.key fr) (Push.attr fr)
                                (Push.kw fr) (Push.i fr) (S (Push.n fr))))).

Definition _push_to_parent (c : cls) (inst : value) (name : string)
    (kw : kwargs) : M (option gen) :=
  let i := (-1)%Z in
  let key := selsafe name in
  let attr := get_cls_attrs c in
  emit (Enter 0 "div" [("class", key)]) ;;;
  ret (Some (GPushWait (Push.mk c key attr kw i 0))).

Fixpoint pull_loop (c : cls) (key : string) (attr : Attributes.t) (kw : kwargs)
    (i : nat) (items : list value) : M (option gen) :=
  match items with
  | [] =>
      when (negb (Attributes.no_write attr)) (_gen_array_js key) ;;;
      ret None
  | subval :: rest =>
      let new_key := item_key key (Z.of_nat i) in
      emit (Enter i "div" [("class", key)]) ;;;
      r <- with_suspendable i
             (r <- nested (Call new_key) (to_parent c subval new_key (Some true)) ;;
              when (negb (Attributes.no_write attr)) (write_buttons key) ;;;
              ret r) ;;
      match r with
      | Some g => ret (Some (GPull g (Pull.mk c key attr (Some true) i rest)))
      | None => pull_loop c key attr (Some true) (S i) rest
      end
  end.

Definition _pull_to_parent (c : cls) (inst : value) (name : string)
    (kw : kwargs) : M (option gen) :=
  let key := selsafe name in
  let attr := get_cls_attrs c in
  let inst := if is_none inst then VList [] else inst in
  items <- lift (iterate inst) ;;
  pull_loop c key attr kw 0 items.

Definition is_PushBase (inst : value) : bool :=
  match inst with VPush => true | _ => false end.

Definition array_to_parent (c : cls) (inst : value) (name : string)
    (kw : kwargs) : M (option gen) :=
  let key := selsafe name in
  with_element 0 "div" [("id", key ++ "_container"); ("class", "array")]
    (if is_PushBase inst
     then nested (Call name) (_push_to_parent c inst name kw)
     else nested (Call name) (_pull_to_parent c inst name kw)).

(** An array class has one member, the class of its items. *)
Definition array_type_to_parent (c : cls) (inst : value) (name : string)
    (kw : kwargs) : M (option gen) :=
  match get_flat_type_info c with
  | (_, v) :: _ => to_parent v inst name kw
  | [] => raise StopIteration               (* [next(iter(()))] *)
  end.

(** Resuming a suspended generator with [send] or [throw]. *)
Fixpoint resume (g : gen) (m : msg) {struct g} : M (option gen) :=
  match g with
  | GComplex child fr =>
      with_suspendable 0
        (r <- forward (resume child) m ;;
         match r with
         | Some child' => ret (Some (GComplex child' fr))
         | None =>
             cm_loop (CM.inst fr) (CM.name fr) (CM.kw fr) (CM.fti fr)
                     (CM.loc fr) (CM.rest fr)
         end)
  | GPull child fr =>
      r <- with_suspendable (Pull.i fr) (forward (resume child) m) ;;
      match r with
      | Some child' => ret (Some (GPull child' fr))
      | None =>
          pull_loop (Pull.c fr) (Pull.key fr) (Pull.attr fr) (Pull.kw fr)
                    (S (Pull.i fr)) (Pull.rest fr)
      end
  | GPushWait fr =>
      match m with
      | Send sv =>
          let i := (Push.i fr + 0)%Z in                     (* [i += 0] *)
          let fr := Push.mk (Push.c fr) (Push.key fr) (Push.attr fr)
                            (Push.kw fr) i (Push.n fr) in
          let new_key := item_key (Push.key fr) i in
          r <- with_suspendable (Push.n fr)
                 (match Push.kw fr with
                  | Some _ => raise TypeError     (* [from_arr] given twice *)
                  | None =>
                      nested (Call new_key)
                        (to_parent (Push.c fr) sv new_key (Some true))
                  end) ;;
          match r with
          | Some child => ret (Some (GPushFwd child fr))
          | None => push_next fr
          end
      | ThrowBreak =>
          emit (Exit (Push.n fr)) ;;; raise Break
      end
  | GPushFwd child fr =>
      r <- with_suspendable (Push.n fr)
             (r <- forward (resume child) m ;;
              match r with
              | Some child' => ret (Some child')
              | None =>
                  when (negb (Attributes.no_write (Push.attr fr)))
                       (write_buttons (Push.key fr)) ;;;
                  ret None
              end) ;;
      match r with
      | Some child' => ret (Some (GPushFwd child' fr))
      | None => push_next fr
      end
  end.

End Form.

(** ** The dispatcher

    [to_parent] belongs to the protocol base class of the framework.  Of
    it the form relies on three things, which is what is modelled here:
    a class whose [max_occurs] exceeds one goes to [array_to_parent]
    unless [from_arr] is set; any other class goes to the handler
    registered for it in [serialization_handlers]; an instance that is
    [None] is still handed to the handler, as [use_global_null_handler]
    is switched off.  [fuel] bounds the depth of nested calls. *)

Definition exceeds_one (m : option Z) : bool :=
  match m with
  | None => true
  | Some z => Z.ltb 1 z
  end.

Definition done (m : M unit) : M (option gen) := m ;;; ret None.

Fixpoint to_parent (py : interpreter) (self : HtmlForm)
    (get_flat_type_info : cls -> list (string * cls))
    (fuel : nat) (c : cls) (inst : value) (name : string) (kw : kwargs)
    : M (option gen) :=
  match fuel with
  | O => out_of_fuel
  | S n =>
      let sub := to_parent py self get_flat_type_info n in
      if negb (kw_from_arr kw)
         && exceeds_one (Attributes.max_occurs (get_cls_attrs c))
      then array_to_parent sub c inst name kw
      else
        match cls_kind c with
        | Date => done (date_to_parent py self c inst name)
        | Time => done (time_to_parent py self c inst name)
        | Array => array_type_to_parent get_flat_type_info sub c inst name kw
        | Integer => done (integer_to_parent py self c inst name)
        | Unicode => done (unicode_to_parent py self c inst name)
        | Decimal => done (decimal_to_parent py self c inst name)
        | Boolean => done (boolean_to_parent py self c inst name)
        | Duration => done (duration_to_parent py self c inst name)
        | DateTime => done (datetime_to_parent py self c inst name)
        | ComplexModelBase =>
            complex_model_to_parent py self get_flat_type_info sub c inst name kw
        | Other => if ignore_uncap self then ret None else raise KeyError
        end
  end.

(** The caller's side of the protocol: the messages are delivered one
    after the other for as long as the generator is suspended. *)
Fixpoint drive (resume1 : gen -> msg -> M (option gen)) (g : option gen)
    (msgs : list msg) : M (option gen) :=
  match g, msgs with
  | Some g', m :: rest => r <- resume1 g' m ;; drive resume1 r rest
  | _, _ => ret g
  end.

Definition state0 : state := {| SOME_COUNTER := 0; assets := [] |}.

Definition trace {A} (x : list event * state * res A) : list event := fst (fst x).
Definition outcome {A} (x : list event * state * res A) : res A := snd x.


From Stdlib Require Import Permutation Sorted.

(** ** Constructors of the grouping tuples

    [Fieldset(...)] and [Tab(...)]: without an [htmlid] the next value of
    the module counter names the tuple.  [oid] stands for the identity
    the interpreter gives the new object. *)

Definition Fieldset_new (legend : option string) (tag : string)
    (attrib : Dict.t) (index : option Z) (htmlid : option string) (oid : nat)
    : M Fieldset.t :=
  htmlid <- match htmlid with
            | None => n <- next_counter ;; ret ("fset" ++ Py.str_nat n)
            | Some h => ret h
            end ;;
  ret (Fieldset.mk legend tag attrib index htmlid oid).

Definition Tab_new (legend : option string) (attrib : Dict.t)
    (index : option Z) (htmlid : option string) (oid : nat) : M Tab.t :=
  htmlid <- match htmlid with
            | None => n <- next_counter ;; ret ("tab" ++ Py.str_nat n)
            | Some h => ret h
            end ;;
  ret (Tab.mk legend attrib index htmlid oid).

(** ** HtmlWidget._gen_input_hidden *)

Definition _gen_input_hidden (self : HtmlForm) (c : cls) (inst : value)
    (name : string) : M unit :=
  let val := match to_unicode self c inst with
             | Some v => v
             | None => ""
             end in
  write (Elt "input" [("type", "hidden"); ("value", val); ("name", name)] []).

(** ** PasswordWidget

    [_check_supported_types] only logs a warning. *)

Definition PasswordWidget_to_parent (py : interpreter) (self : HtmlForm)
    (c : cls) (inst : value) (name : string) : M unit :=
  let '(cls_attrs, elt) := _gen_input_unicode py self c inst name in
  let elt := set_attrib "type" "password" elt in
  label <- lift (_gen_label self c name elt) ;;
  write (_idiv [label; elt]).

(** ** ComplexRenderWidget and its subclasses

    The settings of a widget; [others] belongs to [ComboBoxWidget]. *)

Record ComplexRenderWidget := {
  id_field : option string;
  text_field : string;
  hidden_fields : option (list string);
  type_ : option cls;
  others : bool
}.

(** [fti[key]] *)
Definition fti_item (fti : list (string * cls)) (key : string) : res cls :=
  match assoc key fti with
  | Some v => Ok v
  | None => Raise KeyError
  end.

(** [getattr(inst, key)], with no default *)
Definition getattr_strict (inst : value) (key : string) : res value :=
  match inst with
  | VObj members =>
      match assoc key members with
      | Some v => Ok v
      | None => Raise AttributeError
      end
  | _ => Raise AttributeError
  end.

Definition _prep_inst (self : HtmlForm) (w : ComplexRenderWidget)
    (get_flat_type_info : cls -> list (string * cls)) (c : cls) (inst : value)
    : res (list (string * cls) * option string * option string) :=
  let fti := get_flat_type_info c in
  res_bind (match id_field w with
            | Some id_name => res_map Some (fti_item fti id_name)
            | None => Ok None
            end) (fun id_type =>
  res_bind (fti_item fti (text_field w)) (fun text_type =>
  if is_none inst then Ok (fti, None, Some "[Unknown]")
  else
    res_bind (match id_field w, id_type with
              | Some id_name, Some t =>
                  res_map (to_unicode self t) (getattr_strict inst id_name)
              | _, _ => Ok None
              end) (fun id_str =>
    res_bind (getattr_strict inst (text_field w)) (fun text_val =>
    Ok (fti, id_str, to_unicode self text_type text_val))))).

(** The element builder takes texts and elements for children; [None]
    is turned down with [TypeError]. *)
Definition E_with_text (tag : string) (attrib : Dict.t) (text : option string)
    : res node :=
  match text with
  | Some t => Ok (Elt tag attrib [Txt t])
  | None => Raise TypeError
  end.

(** The loop over [hidden_fields] that ends both [to_parent] methods. *)
Fixpoint write_hidden (self : HtmlForm) (fti : list (string * cls))
    (inst : value) (name : string) (keys : list string) : M unit :=
  match keys with
  | [] => ret tt
  | key :: rest =>
      t <- lift (fti_item fti key) ;;
      _gen_input_hidden self t (getattr inst key) (name ++ hier_delim self ++ key) ;;;
      write_hidden self fti inst name rest
  end.

Definition write_hidden_fields (self : HtmlForm) (w : ComplexRenderWidget)
    (fti : list (string * cls)) (inst : value) (name : string) : M unit :=
  match hidden_fields w with
  | Some keys => write_hidden self fti inst name keys
  | None => ret tt
  end.

(** [urlencode] stands for [urllib.parse.urlencode] at a dictionary of
    one key. *)
Definition HrefWidget_to_parent (py : interpreter) (self : HtmlForm)
    (w : ComplexRenderWidget) (urlencode : string -> string -> string)
    (get_flat_type_info : cls -> list (string * cls))
    (c : cls) (inst : value) (name : string) : M unit :=
  p <- lift (_prep_inst self w get_flat_type_info c inst) ;;
  let '(fti, id_str, text_str) := p in
  let attrib :=
    match id_str with
    | Some i =>
        let tn_url := camel_case_to_uscore py (get_type_name c) in
        [("href", tn_url ++ "?"
                  ++ urlencode (match id_field w with Some f => f | None => "None" end) i)]
    | None => []
    end in
  a <- lift (E_with_text "a" attrib text_str) ;;
  write a ;;;
  write_hidden_fields self w fti inst name.

Definition ComboBoxWidget_to_parent (py : interpreter) (self : HtmlForm)
    (w : ComplexRenderWidget) (get_flat_type_info : cls -> list (string * cls))
    (c : cls) (inst : value) (name : string) : M unit :=
  let c := match type_ w with Some t => t | None => c end in
  let attr := get_cls_attrs c in
  p <- lift (_prep_inst self w get_flat_type_info c inst) ;;
  let '(fti, id_str, text_str) := p in
  let id_str := match id_str with Some i => i | None => "" end in
  opt <- lift (E_with_text "option" [("value", id_str); ("selected", "")] text_str) ;;
  write (Elt "select" (_gen_input_attrs_novalue py c name attr) [opt]) ;;;
  write_hidden_fields self w fti inst name.
(** * Statements

    What the serializers are meant to write, in the words of the
    description of the module.  The elements and texts are spelled out
    here on their own, without the helpers of the code, so that a
    statement says what reaches the page. *)

Module Spec.

Definition newline : string := String (ascii_of_nat 10) "".
Definition tab : string := String (ascii_of_nat 9) "".

Definition script (text : string) : node :=
  Elt "script" [("type", "text/javascript")] [Txt text].

Definition button (text cls_ : string) : node :=
  Elt "button" [("class", cls_); ("type", "button")] [Txt text].

Definition wrapper (children : list node) : node :=
  Elt "div" [("class", "label-input-wrapper")] children.

(** Every directive [%c] of [s] replaced by [new], from left to right. *)
Fixpoint directive (c : ascii) (new : string) (s : string) : string :=
  match s with
  | EmptyString => EmptyString
  | String a s' =>
      if Ascii.eqb a "%"%char then
        match s' with
        | String b s'' =>
            if Ascii.eqb b c then new ++ directive c new s''
            else String a (directive c new s')
        | EmptyString => String a EmptyString
        end
      else String a (directive c new s')
  end.

Fixpoint zeros (n : nat) : string :=
  match n with
  | O => ""
  | S k => String "0" (zeros k)
  end.

(** The decimal digits of [i], and [i] filled with zeros on the left
    up to [width] digits. *)
Definition decimal (i : nat) : string :=
  NilZero.string_of_uint (N.to_uint (N.of_nat i)).

Definition zero_padded (width i : nat) : string :=
  zeros (width - String.length (decimal i)) ++ decimal i.

(** The key of item [i] of the array [key]: the index in brackets,
    zero-padded to nine digits. *)
Definition item_key (key : string) (i : nat) : string :=
  key ++ "[" ++ zero_padded 9 i ++ "]".

End Spec.

Definition labelled_input (n : node) : Prop :=
  exists children input label i,
    n = Elt "div" [("class", "label-input-wrapper")] children
    /\ In input children /\ In label children
    /\ node_tag input = Some "input" /\ node_tag label = Some "label"
    /\ Dict.get "id" (node_attrib input) = Some i
    /\ Dict.get "for" (node_attrib label) = Some i.

Definition picker_statements (widget opt field_name fmt : string)
    (inst_text : option string) : list string :=
  [ "$('#" ++ field_name ++ "')." ++ widget ++ "();";
    "$('#" ++ field_name ++ "')." ++ widget ++ "('option', '" ++ opt
      ++ "', '" ++ fmt ++ "');" ]
  ++ match inst_text with
     | Some v => [ "$('#" ++ field_name ++ "')." ++ widget ++ "('setDate', '" ++ v ++ "');" ]
     | None => []
     end.

(** The statements, one to a line, inside a function that runs when
    the document is ready. *)
Definition ready_script (statements : list string) : node :=
  Spec.script
    (Spec.newline ++ "$(function(){" ++ Spec.newline ++ Spec.tab
     ++ String.concat (Spec.newline ++ Spec.tab) statements
     ++ Spec.newline ++ "});").

Definition inst_text self c inst := if is_none inst then None else Some (to_string self c inst).


Definition primitive_serializers (py : interpreter) (self : HtmlForm)
    : list (kind * (cls -> value -> string -> M unit)) :=
  [ (Date, date_to_parent py self);
    (Time, time_to_parent py self);
    (Integer, integer_to_parent py self);
    (Unicode, unicode_to_parent py self);
    (Decimal, decimal_to_parent py self);
    (Boolean, boolean_to_parent py self);
    (Duration, duration_to_parent py self);
    (DateTime, datetime_to_parent py self) ].

(** The format handed to the picker: the format of the class with its
    directives for year, month and day (hour, minute and second) put in
    the picker's letters, one directive after the other, or the default
    when the class sets none. *)
Definition date_letters (f : string) : string :=
  Spec.directive "d" "dd" (Spec.directive "m" "mm" (Spec.directive "Y" "yy" f)).

Definition time_letters (f : string) : string :=
  Spec.directive "S" "SS" (Spec.directive "M" "MM" (Spec.directive "H" "HH" f)).

Definition date_format (a : Attributes.t) : string :=
  match Attributes.format a with
  | None => "yy-mm-dd"
  | Some f => date_letters f
  end.

Definition time_format (a : Attributes.t) : string :=
  match Attributes.format a with
  | None => "HH:MM:SS"
  | Some f => time_letters f
  end.

Definition datetime_format (a : Attributes.t) : string :=
  match Attributes.format a with
  | None => "yy-mm-dd HH:MM:SS"
  | Some f => time_letters (date_letters f)
  end.

(** What a picker serializer is meant to write: label, input and the
    script over the input. *)
Definition picker_output (self : HtmlForm) (c : cls) (inst : value) (name : string)
    (widget opt fmt : string) (x : list event * state * res unit) : Prop :=
  exists d,
    trace x =
      [Write (Spec.wrapper
         [ Elt "label" [("for", selsafe name ++ "_input")] [Txt (trc self c name)];
           Elt "input" d [];
           ready_script
             (picker_statements widget opt (selsafe name ++ "_input") fmt
                (inst_text self c inst)) ])]
    /\ Dict.get "id" d = Some (selsafe name ++ "_input")
    /\ outcome x = Ok tt.


Definition writes_labelled_input (h : cls -> value -> string -> M unit) : Prop :=
  forall c inst name s,
    exists n s', h c inst name s = ([Write n], s', Ok tt) /\ labelled_input n.


(** One item of an array as the pull renderer lays it out: the div of
    the item, the output of the nested call, the two buttons unless
    writing is off. *)
Definition item_div (key : string) (no_write : bool) (i : nat)
    (sub : list event) : list event :=
  ([Enter i "div" [("class", key)]; Call (Spec.item_key key i) sub]
   ++ (if no_write then []
       else [Write (Spec.button "+" (key ++ "_btn_add"));
             Write (Spec.button "-" (key ++ "_btn_del"))])
   ++ [Exit i])%list.

Fixpoint item_divs (key : string) (no_write : bool) (i : nat)
    (subs : list (list event)) : list event :=
  match subs with
  | [] => []
  | t :: rest => (item_div key no_write i t ++ item_divs key no_write (S i) rest)%list
  end.

(** [subs] holds, item by item, what the member renderer writes for the
    item under the key of its index. *)
Fixpoint rendered_under (tp : cls -> value -> string -> kwargs -> M (option gen))
    (c : cls) (key : string) (i : nat) (items : list value)
    (subs : list (list event)) : Prop :=
  match items, subs with
  | [], [] => True
  | v :: items', t :: subs' =>
      (exists s, trace (tp c v (Spec.item_key key i) (Some true) s) = t)
      /\ rendered_under tp c key (S i) items' subs'
  | _, _ => False
  end.

(** What follows the items: the script of the array, unless writing is
    off. *)
Definition array_tail (key : string) (no_write : bool) (tail : list event) : Prop :=
  if no_write then tail = []
  else exists text,
         format_map array_js_template [("field_name", key)] = Ok text
         /\ tail = [Write (Spec.script text)].

(** Reading back the digits of an index. *)
Definition decode_index (s : string) : option N :=
  option_map N.of_uint (NilEmpty.uint_of_string s).

(** The index a push generator holds in its frame. *)
Definition push_index (g : gen) : option Z :=
  match g with
  | GPushWait fr => Some (Push.i fr)
  | GPushFwd _ fr => Some (Push.i fr)
  | _ => None
  end.

(** ** Nesting of contexts *)

(** The enters and exits that a call makes itself, read as pushes and
    pops: a context is entered when it is made, so the ranks entered
    count up from [next], and an exit has to name the context on top of
    the stack.  The result is the stack and the next rank after [t], or
    [None] when [t] breaks the discipline. *)
Fixpoint nesting (stack : list nat) (next : nat) (t : list event)
    : option (list nat * nat) :=
  match t with
  | [] => Some (stack, next)
  | Enter c _ _ :: t' =>
      if Nat.eqb c next then nesting (c :: stack) (S next) t' else None
  | Exit c :: t' =>
      match stack with
      | top :: stack' => if Nat.eqb c top then nesting stack' next t' else None
      | [] => None
      end
  | _ :: t' => nesting stack next t'
  end.

(** Every context entered in [t] is exited, innermost first. *)
Definition balanced (t : list event) : Prop :=
  exists n, nesting [] 0 t = Some ([], n).

Fixpoint enters (c : nat) (t : list event) : nat :=
  match t with
  | [] => 0
  | Enter c' _ _ :: t' => (if Nat.eqb c c' then 1 else 0) + enters c t'
  | _ :: t' => enters c t'
  end.

Fixpoint exits (c : nat) (t : list event) : nat :=
  match t with
  | [] => 0
  | Exit c' :: t' => (if Nat.eqb c c' then 1 else 0) + exits c t'
  | _ :: t' => exits c t'
  end.

Definition opt_list {A} (o : option A) : list A :=
  match o with
  | Some a => [a]
  | None => []
  end.

(** The contexts that the locals of [complex_model_to_parent] hold open,
    innermost first, above the fieldset of the class. *)
Definition open_contexts (l : CM.locals) : list nat :=
  (opt_list (CM.fset_ctx l) ++ opt_list (CM.tab_ctx l)
   ++ opt_list (CM.tabview_ctx l) ++ [0])%list.

(** Before the first tab there is neither a tab div nor a tab view. *)
Definition no_tab_yet (l : CM.locals) : Prop :=
  CM.prev_tab l = None -> CM.tab_ctx l = None /\ CM.tabview_ctx l = None.

(** Where a run of [complex_model_to_parent] stands after writing [t]
    from the position [(stack, next)]: finished with [final] left open,
    or suspended with exactly the contexts of its frame open. *)
Definition stands (final stack : list nat) (next : nat) (t : list event)
    (r : res (option gen)) : Prop :=
  match r with
  | Ok None => exists n, nesting stack next t = Some (final, n)
  | Ok (Some (GComplex _ fr)) =>
      nesting stack next t
      = Some (open_contexts (CM.loc fr), CM.n_ctx (CM.loc fr))
      /\ no_tab_yet (CM.loc fr)
  | Ok (Some _) => False
  | _ => True
  end.

(** A form is rendered and the generator it may have returned is then
    sent and thrown [msgs], one after the other. *)
Definition render_and_drive (py : interpreter) (self : HtmlForm)
    (members : cls -> list (string * cls))
    (tp : cls -> value -> string -> kwargs -> M (option gen))
    (c : cls) (inst : value) (name : string) (kw : kwargs) (msgs : list msg)
    : M (option gen) :=
  g <- complex_model_to_parent py self members tp c inst name kw ;;
  drive (resume py self tp) g msgs.

(** ** Sample classes and instances *)

Module Sample.

(** An interpreter of each kind; past ASCII both know no upper case. *)
Definition python2 : interpreter :=
  {| none_first := true;
     isupper_past_ascii := fun _ => false;
     lower_past_ascii := fun c => String c "" |}.

Definition python3 : interpreter :=
  {| none_first := false;
     isupper_past_ascii := fun _ => false;
     lower_past_ascii := fun c => String c "" |}.

Definition self : HtmlForm := {|
  hier_delim := ".";
  ignore_uncap := false;
  to_unicode := fun _ v => match v with VStr s => Some s | _ => None end;
  to_string := fun _ v => match v with VStr s => s | _ => "" end;
  trc := fun _ name => name;
  str_pow10_neg := fun _ => "0.1"
|}.

(** Attributes as the reflection layer sets them when nothing is given,
    but for the three the examples vary. *)
Definition attrs (tab : option Tab.t) (fieldset : option Fieldset.t)
    (max_occurs : option Z) : Attributes.t := {|
  Attributes.tab := tab;
  Attributes.fieldset := fieldset;
  Attributes.order := None;
  Attributes.exc := false;
  Attributes.min_occurs := 0;
  Attributes.max_occurs := max_occurs;
  Attributes.nullable := true;
  Attributes.pattern := None;
  Attributes.format := None;
  Attributes.no_write := false;
  Attributes.max_len := None;
  Attributes.min_len := 0;
  Attributes.max_str_len := 1024;
  Attributes.ge := None;
  Attributes.gt := None;
  Attributes.le := None;
  Attributes.lt := None;
  Attributes.fraction_digits := None
|}.

(** [Fieldset(legend='Details', htmlid='fset0')] *)
Definition details : Fieldset.t :=
  Fieldset.mk (Some "Details") "fieldset" [] None "fset0" 1.

(** [Unicode] *)
Definition text : cls :=
  {| cls_kind := Unicode; get_type_name := "Unicode";
     get_cls_attrs := attrs None None (Some 1%Z) |}.

(** [Unicode(fieldset=details)] *)
Definition text_in_details : cls :=
  {| cls_kind := Unicode; get_type_name := "Unicode";
     get_cls_attrs := attrs None (Some details) (Some 1%Z) |}.

(** [Unicode(max_occurs='unbounded', fieldset=details)] *)
Definition texts_in_details : cls :=
  {| cls_kind := Unicode; get_type_name := "Unicode";
     get_cls_attrs := attrs None (Some details) None |}.

(** [Tab(legend='Main', htmlid='tab1')] *)
Definition main_tab : Tab.t := Tab.mk (Some "Main") [] None "tab1" 2.

(** [Unicode(tab=main_tab)] *)
Definition text_in_tab : cls :=
  {| cls_kind := Unicode; get_type_name := "Unicode";
     get_cls_attrs := attrs (Some main_tab) None (Some 1%Z) |}.

(** [Tab(legend='More', htmlid='tab2')] *)
Definition more_tab : Tab.t := Tab.mk (Some "More") [] None "tab2" 3.

(** [Unicode(tab=more_tab, fieldset=details)] *)
Definition text_in_more : cls :=
  {| cls_kind := Unicode; get_type_name := "Unicode";
     get_cls_attrs := attrs (Some more_tab) (Some details) (Some 1%Z) |}.

(** [Unicode(tab=main_tab, fieldset=details)] *)
Definition text_in_main : cls :=
  {| cls_kind := Unicode; get_type_name := "Unicode";
     get_cls_attrs := attrs (Some main_tab) (Some details) (Some 1%Z) |}.

(** What [unicode_to_parent] writes for such a text. *)
Definition text_input (name id value : string) : event :=
  Write (Elt "div" [("class", "label-input-wrapper")]
           [ Elt "label" [("for", id)] [Txt name];
             Elt "input" [("id", id); ("name", name); ("class", "unicode");
                          ("type", "text"); ("value", value)] [] ]).

Definition complex (type_name : string) : cls :=
  {| cls_kind := ComplexModelBase; get_type_name := type_name;
     get_cls_attrs := attrs None None (Some 1%Z) |}.

(** [Tree.customize(max_occurs='unbounded')] *)
Definition trees : cls :=
  {| cls_kind := ComplexModelBase; get_type_name := "Tree";
     get_cls_attrs := attrs None None None |}.

(** Six classes:
[[
    class Paged(ComplexModel):
        a = Unicode(tab=main_tab, fieldset=details)
        b = Unicode(tab=more_tab, fieldset=details)

    class Mixed(ComplexModel):
        a = Unicode
        b = Unicode(fieldset=details)

    class Tabbed(ComplexModel):
        a = Unicode
        b = Unicode(tab=main_tab)

    class Tagged(ComplexModel):
        tags = Unicode(max_occurs='unbounded', fieldset=details)

    class Node(ComplexModel):
        next = SelfReference

    class Tree(ComplexModel):
        children = Array(SelfReference)
]] *)
Definition members (c : cls) : list (string * cls) :=
  match cls_kind c with
  | ComplexModelBase =>
      if String.eqb (get_type_name c) "Mixed" then
        [("a", text); ("b", text_in_details)]
      else if String.eqb (get_type_name c) "Paged" then
        [("a", text_in_main); ("b", text_in_more)]
      else if String.eqb (get_type_name c) "Tabbed" then
        [("a", text); ("b", text_in_tab)]
      else if String.eqb (get_type_name c) "Tagged" then
        [("tags", texts_in_details)]
      else if String.eqb (get_type_name c) "Node" then
        [("next", complex "Node")]
      else if String.eqb (get_type_name c) "Tree" then
        [("children", trees)]
      else []
  | _ => []
  end.

(** The same without [Node], and without [Node] and [Tree]. *)
Definition tree_members (c : cls) : list (string * cls) :=
  if String.eqb (get_type_name c) "Node" then [] else members c.

Definition flat_members (c : cls) : list (string * cls) :=
  if String.eqb (get_type_name c) "Tree" then [] else tree_members c.

Definition rank (c : cls) : nat :=
  match cls_kind c with
  | ComplexModelBase => 1
  | _ => 0
  end.

End Sample.

(** ** Termination *)

(** The call came back, with a value or an exception. *)
Definition returns {A} (x : list event * state * res A) : Prop :=
  outcome x <> OutOfFuel.

(** A schema is ranked when every member class sits strictly below the
    class that holds it; a class that contains itself, directly or
    through its members, has no rank. *)
Definition ranked (members : cls -> list (string * cls)) (rank : cls -> nat) : Prop :=
  forall c k v, In (k, v) (members c) -> rank v < rank c.

(** Members of [c] come back under budget [n]. *)
Definition members_return (py : interpreter) (self : HtmlForm)
    (members : cls -> list (string * cls)) (n : nat) (c : cls) : Prop :=
  forall k v, In (k, v) (members c) ->
  forall inst name kw s, returns (to_parent py self members n v inst name kw s).

(** A class that occurs at most once where it is a member: the walk
    enters it whatever the instance holds.  A class that may occur more
    often is an array, entered once for each item of the instance. *)
Definition plain (c : cls) : bool :=
  negb (exceeds_one (Attributes.max_occurs (get_cls_attrs c))).

(** No class contains itself through plain members alone; an array
    member may close a cycle. *)
Definition ranked_through_plain (members : cls -> list (string * cls))
    (rank : cls -> nat) : Prop :=
  forall c k v, In (k, v) (members c) -> plain v = true -> rank v < rank c.

(** The call handed back a generator that waits to be resumed. *)
Definition suspended (x : list event * state * res (option gen)) : Prop :=
  exists g, outcome x = Ok (Some g).

(** The call ran to the end of its body or raised: nothing waits. *)
Definition finished (x : list event * state * res (option gen)) : Prop :=
  outcome x = Ok None \/ exists e, outcome x = Raise e.

(** No [PushBase] anywhere in the instance. *)
Fixpoint push_free (v : value) : bool :=
  match v with
  | VPush => false
  | VList items => forallb push_free items
  | VObj members => forallb (fun kv => push_free (snd kv)) members
  | _ => true
  end.

(** The items a [for] loop finds in [inst]; none where it finds
    nothing to loop over. *)
Definition items_of (inst : value) : list value :=
  match iterate inst with
  | Ok l => l
  | _ => []
  end.

(** What the renderer of [c] hands to the member [k]: the attribute of
    the instance for a complex model, the instance itself for an array
    class. *)
Definition member_inst (c : cls) (inst : value) (k : string) : value :=
  match cls_kind c with
  | ComplexModelBase => getattr inst k
  | _ => inst
  end.

(** [inst] holds no array items where the class [c] is walked: it is
    [None], or at each array the walk comes to it has [None], nothing,
    or an empty list. *)
Inductive itemless (members : cls -> list (string * cls)) : cls -> value -> Prop :=
| itemless_none c : itemless members c VNone
| itemless_array c inst :
    plain c = false -> items_of inst = [] -> itemless members c inst
| itemless_members c inst :
    plain c = true ->
    (forall k v, In (k, v) (members c) ->
                 itemless members v (member_inst c inst k)) ->
    itemless members c inst.


(** ** Further statements *)

(** Every character of [s] passes [p]. *)
Fixpoint all_chars (p : ascii -> bool) (s : string) : bool :=
  match s with
  | EmptyString => true
  | String c s' => p c && all_chars p s'
  end.

Definition is_digit (c : ascii) : bool :=
  let n := nat_of_ascii c in Nat.leb 48 n && Nat.leb n 57.

(** The characters [selsafe] rewrites. *)
Definition is_special (c : ascii) : bool :=
  Ascii.eqb c "["%char || Ascii.eqb c "]"%char || Ascii.eqb c "."%char.

Definition no_upper (py : interpreter) (s : string) : bool :=
  all_chars (fun c => negb (Py.isupper py c)) s.

Definition is_ascii (c : ascii) : bool := Nat.ltb (nat_of_ascii c) 128.

(** The attribute [k] of the input that [_gen_input] builds, read off
    the class, the instance and the name. *)
Definition input_attribute (py : interpreter) (self : HtmlForm) (c : cls)
    (inst : value) (name : string) (a : Attributes.t) (k : string)
    : option string :=
  if String.eqb k "id" then Some (selsafe name ++ "_input")
  else if String.eqb k "name" then Some name
  else if String.eqb k "class" then Some (camel_case_to_uscore py (get_type_name c))
  else if String.eqb k "type" then Some "text"
  else if String.eqb k "pattern" then Attributes.pattern a
  else if String.eqb k "required" then (if is_required a then Some "" else None)
  else if String.eqb k "value" then to_unicode self c inst
  else None.

(** The label every serializer puts next to its input. *)
Definition label_for (self : HtmlForm) (c : cls) (name : string) : node :=
  Elt "label" [("for", selsafe name ++ "_input")] [Txt (trc self c name)].

Definition final_state {A} (x : list event * state * res A) : state := snd (fst x).

(** A member class with neither tab, fieldset nor order. *)
Definition unannotated (v : cls) : Prop :=
  Attributes.tab (get_cls_attrs v) = None
  /\ Attributes.fieldset (get_cls_attrs v) = None
  /\ Attributes.order (get_cls_attrs v) = None.

(** Ascending by field name. *)
Definition by_name (a b : string * cls) : Prop :=
  String.leb (fst a) (fst b) = true.

(** The nested calls a renderer makes itself, in order: the key and
    what was written under it. *)
Fixpoint own_calls (t : list event) : list (string * list event) :=
  match t with
  | [] => []
  | Call name evs :: t' => (name, evs) :: own_calls t'
  | _ :: t' => own_calls t'
  end.

(** The nodes a renderer writes itself. *)
Fixpoint own_writes (t : list event) : list node :=
  match t with
  | [] => []
  | Write n :: t' => n :: own_writes t'
  | _ :: t' => own_writes t'
  end.

(** The members that are not excluded. *)
Definition rendered_members (fields : list (string * cls)) : list (string * cls) :=
  filter (fun kv => negb (Attributes.exc (get_cls_attrs (snd kv)))) fields.

(** [call] is the rendering of the member [kv] of [inst]: made under
    the key of the member below [prefix], from the attribute of [inst]
    that has the name of the member. *)
Definition member_call (self : HtmlForm)
    (tp : cls -> value -> string -> kwargs -> M (option gen))
    (inst : value) (prefix : string) (kw : kwargs)
    (kv : string * cls) (call : string * list event) : Prop :=
  fst call = child_key self prefix (fst kv)
  /\ exists s,
       trace (tp (snd kv) (getattr inst (fst kv))
                 (child_key self prefix (fst kv)) kw s) = snd call.

Definition is_button (n : node) : Prop :=
  exists text cls_, n = E_button text cls_.

Definition has_tab (kv : string * cls) : bool :=
  match Attributes.tab (get_cls_attrs (snd kv)) with
  | Some _ => true
  | None => false
  end.

Definition has_fieldset (kv : string * cls) : bool :=
  match Attributes.fieldset (get_cls_attrs (snd kv)) with
  | Some _ => true
  | None => false
  end.

Definition has_order (kv : string * cls) : bool :=
  match Attributes.order (get_cls_attrs (snd kv)) with
  | Some _ => true
  | None => false
  end.

(** Two members of [fti] differ in having a tab; or no member has a
    tab and two differ in having a fieldset; or no member has either
    and two differ in having an order. *)
Definition mixed (fti : list (string * cls)) (a b : string * cls) : Prop :=
  has_tab a <> has_tab b
  \/ (forall m, In m fti -> has_tab m = false)
     /\ (has_fieldset a <> has_fieldset b
         \/ (forall m, In m fti -> has_fieldset m = false)
            /\ has_order a <> has_order b).

(** The htmlid of a tuple made in state [s] without one, and the state
    after: of a [Tab] when [tab] is set, of a [Fieldset] otherwise. *)
Definition default_htmlid (tab : bool) (s : state) : res string * state :=
  if tab
  then let '(_, s', r) := Tab_new None [] None None 0 s in
       (res_map Tab.htmlid r, s')
  else let '(_, s', r) := Fieldset_new None "fieldset" [] None None 0 s in
       (res_map Fieldset.htmlid r, s').

(** The tab [t] belongs to a member of [fti] that is not excluded. *)
Definition shown_tab (fti : list (string * cls)) (t : Tab.t) : Prop :=
  exists k v,
    In (k, v) fti
    /\ Attributes.exc (get_cls_attrs v) = false
    /\ Attributes.tab (get_cls_attrs v) = Some t.

Definition has_index (t : Tab.t) : bool :=
  match Tab.index t with
  | Some _ => true
  | None => false
  end.

(** The member has a tab that has an index. *)
Definition tab_has_index (kv : string * cls) : bool :=
  match Attributes.tab (get_cls_attrs (snd kv)) with
  | Some t => has_index t
  | None => false
  end.

(** What a push generator emits for the elements sent to it, one after
    the other, from the item div of rank [n] on: the output of the
    member renderer, the end of the item div and the start of the
    next. *)
Fixpoint pushed_divs (key : string) (i : Z) (n : nat)
    (subs : list (list event)) : list event :=
  match subs with
  | [] => []
  | t :: rest =>
      ([ Call (item_key key i) t; Exit n; Enter (S n) "div" [("class", key)] ]
       ++ pushed_divs key i (S n) rest)%list
  end.

(** [subs] holds, element by element, what the member renderer writes
    for the element under the one key [key[i]]. *)
Fixpoint pushed_under (tp : cls -> value -> string -> kwargs -> M (option gen))
    (c : cls) (key : string) (i : Z) (items : list value)
    (subs : list (list event)) : Prop :=
  match items, subs with
  | [], [] => True
  | v :: items', t :: subs' =>
      (exists s, trace (tp c v (item_key key i) (Some true) s) = t)
      /\ pushed_under tp c key i items' subs'
  | _, _ => False
  end.

(** The hidden input a render widget writes for the field [key]. *)
Definition hidden_input (self : HtmlForm) (fti : list (string * cls))
    (inst : value) (name key : string) : event :=
  Write (Elt "input"
           [ ("type", "hidden");
             ("value", match assoc key fti with
                       | Some t =>
                           match to_unicode self t (getattr inst key) with
                           | Some v => v
                           | None => ""
                           end
                       | None => ""
                       end);
             ("name", name ++ hier_delim self ++ key) ] []).

(** Every field the widget names is a member of the class. *)
Definition fields_known (w : ComplexRenderWidget) (fti : list (string * cls)) : Prop :=
  assoc (text_field w) fti <> None
  /\ (forall f, id_field w = Some f -> assoc f fti <> None)
  /\ (forall keys, hidden_fields w = Some keys ->
      Forall (fun key => assoc key fti <> None) keys).

Definition hidden_keys (w : ComplexRenderWidget) : list string :=
  match hidden_fields w with
  | Some keys => keys
  | None => []
  end.

Module SampleWidget.

(** [HrefWidget(id_field='a', text_field='title')] and
    [HrefWidget(id_field=None, text_field='a', hidden_fields=['b'])] *)
Definition by_title : ComplexRenderWidget :=
  {| id_field := Some "a"; text_field := "title"; hidden_fields := None;
     type_ := None; others := false |}.

Definition by_a : ComplexRenderWidget :=
  {| id_field := None; text_field := "a"; hidden_fields := Some ["b"];
     type_ := None; others := false |}.

Definition urlencode (k v : string) : string := k ++ "=" ++ v.

End SampleWidget.

(** The asset keys a primitive serializer registers. *)
Definition serializer_assets (k : kind) : list (list string) :=
  match k with
  | Date => [["jquery"]; ["jquery-ui"; "datepicker"]]
  | Time | DateTime =>
      [["jquery"]; ["jquery-ui"; "datepicker"]; ["jquery-timepicker"]]
  | _ => []
  end.

(** How many of the nodes [ns] have the tag [tag]. *)
Fixpoint count_tag (tag : string) (ns : list node) : nat :=
  match ns with
  | [] => 0
  | n :: rest =>
      (match node_tag n with
       | Some t => if String.eqb t tag then 1 else 0
       | None => 0
       end) + count_tag tag rest
  end.

(** The tab view has been opened. *)
Definition opened (l : CM.locals) : bool :=
  match CM.tabview_ctx l with
  | Some _ => true
  | None => false
  end.

(** The tab view is open exactly when a tab has been seen. *)
Definition tab_seen (l : CM.locals) : Prop :=
  CM.prev_tab l = None <-> CM.tabview_ctx l = None.
(** * Properties *)

(** ** selsafe *)

Lemma append_assoc (a b c : string) : (a ++ b) ++ c = a ++ (b ++ c).
Proof. induction a; simpl; congruence. Qed.

Lemma flat_map_chars_app (f : ascii -> string) (a b : string) :
  flat_map_chars f (a ++ b) = flat_map_chars f a ++ flat_map_chars f b.
Proof.
  induction a as [|c a IH]; simpl; [reflexivity|].
  rewrite IH. now rewrite append_assoc.
Qed.

Lemma append_nil_r (s : string) : s ++ "" = s.
Proof. induction s; simpl; congruence. Qed.

(** Replacing a one-character pattern rewrites each character on its own. *)
Lemma replace_char (a : ascii) (new s : string) :
  Py.replace (String a "") new s
  = flat_map_chars (fun c => if Ascii.eqb a c then new else String c "") s.
Proof.
  unfold Py.replace.
  induction s as [|c s IH]; simpl; [reflexivity|].
  destruct (Ascii.eqb a c); simpl; now rewrite IH.
Qed.

Lemma flat_map_chars_compose (f g : ascii -> string) (s : string) :
  flat_map_chars g (flat_map_chars f s)
  = flat_map_chars (fun c => flat_map_chars g (f c)) s.
Proof.
  induction s as [|c s IH]; simpl; [reflexivity|].
  now rewrite flat_map_chars_app, IH.
Qed.

Lemma flat_map_chars_ext (f g : ascii -> string) (s : string) :
  (forall c, f c = g c) -> flat_map_chars f s = flat_map_chars g s.
Proof.
  intros E. induction s as [|c s IH]; simpl; [reflexivity|].
  now rewrite E, IH.
Qed.

Lemma selsafe_flat_map (s : string) :
  selsafe s = flat_map_chars selsafe_char s.
Proof.
  unfold selsafe. rewrite !replace_char, !flat_map_chars_compose.
  apply flat_map_chars_ext. intros c. unfold selsafe_char.
  rewrite (Ascii.eqb_sym c "["%char), (Ascii.eqb_sym c "]"%char),
    (Ascii.eqb_sym c "."%char).
  destruct (Ascii.eqb "["%char c) eqn:E1; [reflexivity|].
  cbn [flat_map_chars append]. rewrite append_nil_r.
  destruct (Ascii.eqb "]"%char c) eqn:E2; [reflexivity|].
  cbn [flat_map_chars append]. rewrite append_nil_r.
  destruct (Ascii.eqb "."%char c) eqn:E3; reflexivity.
Qed.

Lemma mem_app (c : ascii) (a b : string) :
  Py.mem c (a ++ b) = Py.mem c a || Py.mem c b.
Proof.
  induction a as [|d a IH]; simpl; [reflexivity|].
  now rewrite IH, orb_assoc.
Qed.

Lemma mem_flat_map_chars (c : ascii) (f : ascii -> string) (s : string) :
  (forall d, Py.mem c (f d) = false) -> Py.mem c (flat_map_chars f s) = false.
Proof.
  intros H. induction s as [|d s IH]; simpl; [reflexivity|].
  now rewrite mem_app, H, IH.
Qed.

Lemma selsafe_char_clean (d : ascii) :
  Py.mem "["%char (selsafe_char d) = false
  /\ Py.mem "]"%char (selsafe_char d) = false
  /\ Py.mem "."%char (selsafe_char d) = false.
Proof.
  unfold selsafe_char.
  destruct (Ascii.eqb_spec d "["%char) as [->|H1]; [now cbn|].
  destruct (Ascii.eqb_spec d "]"%char) as [->|H2]; [now cbn|].
  destruct (Ascii.eqb_spec d "."%char) as [->|H3]; [now cbn|].
  cbn [Py.mem]. rewrite !orb_false_r.
  repeat split; apply Ascii.eqb_neq; congruence.
Qed.

Lemma selsafe_char_fixed (d : ascii) :
  flat_map_chars selsafe_char (selsafe_char d) = selsafe_char d.
Proof.
  unfold selsafe_char at 2 3.
  destruct (Ascii.eqb_spec d "["%char) as [->|H1]; [reflexivity|].
  destruct (Ascii.eqb_spec d "]"%char) as [->|H2]; [reflexivity|].
  destruct (Ascii.eqb_spec d "."%char) as [->|H3]; [reflexivity|].
  cbn [flat_map_chars]. unfold selsafe_char.
  apply Ascii.eqb_neq in H1, H2, H3. now rewrite H1, H2, H3.
Qed.

(** C9. For every string [s], [selsafe s] is [s] with every dot replaced
    by two underscores and every square bracket removed, the other
    characters staying in order; the result holds no opening bracket, no
    closing bracket and no dot; and [selsafe] is idempotent. *)
Theorem selsafe_clean_idempotent (s : string) :
  selsafe s = flat_map_chars selsafe_char s
  /\ Py.mem "["%char (selsafe s) = false
  /\ Py.mem "]"%char (selsafe s) = false
  /\ Py.mem "."%char (selsafe s) = false
  /\ selsafe (selsafe s) = selsafe s.
Proof.
  split; [apply selsafe_flat_map|].
  rewrite !selsafe_flat_map.
  repeat split.
  - apply mem_flat_map_chars. intros d. apply (selsafe_char_clean d).
  - apply mem_flat_map_chars. intros d. apply (selsafe_char_clean d).
  - apply mem_flat_map_chars. intros d. apply (selsafe_char_clean d).
  - rewrite flat_map_chars_compose. apply flat_map_chars_ext, selsafe_char_fixed.
Qed.

(** ** Serializers of the primitive classes *)

Lemma get_set (k k' v : string) (d : Dict.t) :
  Dict.get k (Dict.set k' v d)
  = if String.eqb k k' then Some v else Dict.get k d.
Proof.
  induction d as [|[k0 v0] d IH]; simpl.
  - reflexivity.
  - destruct (String.eqb_spec k' k0) as [->|N]; simpl.
    + destruct (String.eqb k k0); reflexivity.
    + rewrite IH. destruct (String.eqb_spec k k0) as [->|N'].
      * apply String.eqb_neq in N. rewrite String.eqb_sym in N. now rewrite N.
      * reflexivity.
Qed.

Lemma join_concat (sep : string) (l : list string) :
  Py.join sep l = String.concat sep l.
Proof.
  induction l as [|x l IH]; [reflexivity|].
  destruct l as [|y l]; [reflexivity|].
  change (x ++ sep ++ Py.join sep (y :: l) = x ++ sep ++ String.concat sep (y :: l)).
  now rewrite IH.
Qed.

Lemma replace_scan_step (old new : string) (a : ascii) (s : string) :
  Py.replace_scan 0 old new (String a s)
  = if Py.startswith old (String a s)
    then new ++ Py.replace_scan (String.length old - 1) old new s
    else String a (Py.replace_scan 0 old new s).
Proof. reflexivity. Qed.

Lemma directive_step (c : ascii) (new : string) (a b : ascii) (s : string) :
  Spec.directive c new (String a (String b s))
  = if Ascii.eqb a "%"
    then if Ascii.eqb b c then new ++ Spec.directive c new s
         else String a (Spec.directive c new (String b s))
    else String a (Spec.directive c new (String b s)).
Proof. reflexivity. Qed.

(** Replacing a directive of two characters: the scan of [str.replace]
    does what the statement says, left to right. *)
Lemma replace_directive (c : ascii) (new s : string) :
  Py.replace (String "%" (String c "")) new s = Spec.directive c new s.
Proof.
  unfold Py.replace.
  enough (H : Py.replace_scan 0 (String "%" (String c "")) new s
              = Spec.directive c new s
              /\ forall a, Py.replace_scan 0 (String "%" (String c "")) new (String a s)
                           = Spec.directive c new (String a s)) by apply H.
  induction s as [|b s [IH1 IH2]].
  - split; [reflexivity|]. intros a. cbn.
    rewrite andb_false_r. destruct (Ascii.eqb a "%"); reflexivity.
  - split; [apply IH2|]. intros a.
    rewrite replace_scan_step, directive_step.
    change (Py.startswith (String "%" (String c "")) (String a (String b s)))
      with (Ascii.eqb "%" a && (Ascii.eqb c b && true)).
    change (Py.replace_scan (String.length (String "%" (String c "")) - 1)
              (String "%" (String c "")) new (String b s))
      with (Py.replace_scan 0 (String "%" (String c "")) new s).
    rewrite (Ascii.eqb_sym "%"%char a), (Ascii.eqb_sym c b), andb_true_r.
    destruct (Ascii.eqb a "%"); cbn [andb].
    + destruct (Ascii.eqb b c).
      * now rewrite IH1.
      * now rewrite IH2.
    + now rewrite IH2.
Qed.

Lemma strftime_date_letters (f : string) : strftime_date f = date_letters f.
Proof. unfold strftime_date, date_letters. now rewrite !replace_directive. Qed.

Lemma strftime_time_letters (f : string) : strftime_time f = time_letters f.
Proof. unfold strftime_time, time_letters. now rewrite !replace_directive. Qed.

Lemma gen_input_shape py self c inst name a :
  exists d, _gen_input py self c inst name a = Elt "input" d []
    /\ Dict.get "id" d = Some (selsafe name ++ "_input")
    /\ Dict.get "type" d = Some "text".
Proof.
  unfold _gen_input, _gen_input_attrs, _gen_input_attrs_novalue,
    _gen_input_elt_id, _gen_input_name.
  generalize (selsafe name ++ "_input") as i. intros i.
  destruct (Attributes.pattern a), (is_required a), (to_unicode self c inst);
    cbn; eexists; repeat split; reflexivity.
Qed.


Lemma labelled_intro (children : list node) (d : Dict.t) (i text : string) :
  In (Elt "input" d []) children ->
  In (Elt "label" [("for", i)] [Txt text]) children ->
  Dict.get "id" d = Some i ->
  labelled_input (_idiv children).
Proof.
  intros Hi Hl Hd. exists children, (Elt "input" d []), (Elt "label" [("for", i)] [Txt text]), i.
  repeat split; auto.
Qed.

Ltac open_input py self c inst name :=
  let d := fresh "d" in
  let Hid := fresh "Hid" in
  let Hty := fresh "Hty" in
  destruct (gen_input_shape py self c inst name (get_cls_attrs c)) as (d & -> & Hid & Hty);
  generalize dependent (selsafe name ++ "_input");
  let i := fresh "i" in intros i Hid.

Ltac run_widget :=
  unfold bind, lift, write, emit, _gen_label, picker_script, extend_assets,
    _apply_number_constraints, set_opt;
  repeat progress
    (cbn [set_attrib update_attrib node_attrib Dict.update fold_left fst snd
          String.eqb Ascii.eqb Bool.eqb app];
     rewrite ?get_set).

Ltac close_labelled Hid :=
  do 2 eexists; split; [reflexivity|];
  eapply labelled_intro;
  [ cbn [In]; eauto | cbn [In]; eauto
  | repeat (rewrite !get_set; cbn [String.eqb Ascii.eqb Bool.eqb]); exact Hid ].

Lemma unicode_labelled py self : writes_labelled_input (unicode_to_parent py self).
Proof.
  intros c inst name s. unfold unicode_to_parent, _gen_input_unicode.
  open_input py self c inst name.
  destruct (Attributes.max_len (get_cls_attrs c)); destruct (Z.ltb _ _);
    run_widget; rewrite Hid; close_labelled Hid.
Qed.

Lemma duration_labelled py self : writes_labelled_input (duration_to_parent py self).
Proof.
  intros c inst name s. unfold duration_to_parent.
  open_input py self c inst name.
  run_widget; rewrite Hid; close_labelled Hid.
Qed.

Lemma integer_labelled py self : writes_labelled_input (integer_to_parent py self).
Proof.
  intros c inst name s. unfold integer_to_parent.
  open_input py self c inst name. run_widget.
  destruct (Z.eqb (Attributes.max_str_len (get_cls_attrs c)) Decimal_max_str_len);
    run_widget; rewrite Hid; close_labelled Hid.
Qed.

Lemma decimal_labelled py self : writes_labelled_input (decimal_to_parent py self).
Proof.
  intros c inst name s. unfold decimal_to_parent.
  open_input py self c inst name. run_widget.
  destruct (Attributes.fraction_digits (get_cls_attrs c));
  destruct (Z.eqb (Attributes.max_str_len (get_cls_attrs c)) Decimal_max_str_len);
    run_widget; rewrite Hid; close_labelled Hid.
Qed.

Lemma boolean_labelled py self : writes_labelled_input (boolean_to_parent py self).
Proof.
  intros c inst name s. unfold boolean_to_parent.
  open_input py self c inst name.
  destruct (truthy inst); run_widget; rewrite Hid; close_labelled Hid.
Qed.

Lemma date_picker py self c inst name s :
  picker_output self c inst name "datepicker" "dateFormat"
    (date_format (get_cls_attrs c)) (date_to_parent py self c inst name s).
Proof.
  unfold picker_output, date_to_parent, inst_text, date_format.
  open_input py self c inst name.
  run_widget. rewrite Hid.
  generalize (to_string self c inst); intros v.
  destruct (is_none inst), (Attributes.format (get_cls_attrs c)) as [f|];
    rewrite ?strftime_date_letters;
    try (generalize (date_letters f); intros fmt);
    (eexists; split; [reflexivity|split; [|reflexivity]]);
    rewrite get_set; exact Hid.
Qed.

Lemma time_picker py self c inst name s :
  picker_output self c inst name "timepicker" "timeFormat"
    (time_format (get_cls_attrs c)) (time_to_parent py self c inst name s).
Proof.
  unfold picker_output, time_to_parent, inst_text, time_format.
  open_input py self c inst name.
  run_widget. rewrite Hid.
  generalize (to_string self c inst); intros v.
  destruct (is_none inst), (Attributes.format (get_cls_attrs c)) as [f|];
    rewrite ?strftime_time_letters;
    try (generalize (time_letters f); intros fmt);
    (eexists; split; [reflexivity|split; [|reflexivity]]);
    rewrite get_set; exact Hid.
Qed.

Lemma datetime_picker py self c inst name s :
  picker_output self c inst name "datetimepicker" "DateTimeFormat"
    (datetime_format (get_cls_attrs c)) (datetime_to_parent py self c inst name s).
Proof.
  unfold picker_output, datetime_to_parent, inst_text, datetime_format.
  open_input py self c VNone name.
  run_widget. rewrite Hid.
  generalize (to_string self c inst); intros v.
  destruct (is_none inst), (Attributes.format (get_cls_attrs c)) as [f|];
    rewrite ?strftime_date_letters, ?strftime_time_letters;
    try (generalize (time_letters (date_letters f)); intros fmt);
    (eexists; split; [reflexivity|split; [|reflexivity]]);
    rewrite get_set; exact Hid.
Qed.

Lemma picker_labelled self c inst name widget opt fmt x :
  picker_output self c inst name widget opt fmt x ->
  exists n, trace x = [Write n] /\ outcome x = Ok tt /\ labelled_input n.
Proof.
  intros (d & Ht & Hid & Ho). eexists. split; [exact Ht|]. split; [exact Ho|].
  eapply labelled_intro; [cbn [In]; eauto | cbn [In]; eauto | exact Hid].
Qed.

Lemma picker_writes_labelled (h : cls -> value -> string -> M unit) self widget opt fmt :
  (forall c inst name s, picker_output self c inst name widget opt (fmt c) (h c inst name s)) ->
  writes_labelled_input h.
Proof.
  intros H c inst name s.
  destruct (picker_labelled _ _ _ _ _ _ _ _ (H c inst name s)) as (n & Ht & Ho & Hl).
  destruct (h c inst name s) as [[t s'] r]. cbn in Ht, Ho. subst.
  now exists n, s'.
Qed.

(** C7. Each serializer of a primitive class (Unicode, Decimal, Integer,
    Boolean, Date, Time, DateTime, Duration) writes one div of class
    label-input-wrapper that holds an input element and a label element
    whose for attribute is the id of that input. *)
Theorem primitive_serializers_write_labelled_input (py : interpreter) (self : HtmlForm) :
  Forall (fun h => writes_labelled_input (snd h)) (primitive_serializers py self).
Proof.
  unfold primitive_serializers. repeat constructor; cbn [snd].
  - eapply picker_writes_labelled with (fmt := fun c => date_format (get_cls_attrs c)).
    apply date_picker.
  - eapply picker_writes_labelled with (fmt := fun c => time_format (get_cls_attrs c)).
    apply time_picker.
  - apply integer_labelled.
  - apply unicode_labelled.
  - apply decimal_labelled.
  - apply boolean_labelled.
  - apply duration_labelled.
  - eapply picker_writes_labelled with (fmt := fun c => datetime_format (get_cls_attrs c)).
    apply datetime_picker.
Qed.

(** C8. The Date, Time and DateTime serializers write, next to the label
    and the input, a script that sets up datepicker, timepicker and
    datetimepicker on the id of the input, passes the format derived from
    the format attribute (yy-mm-dd, HH:MM:SS and yy-mm-dd HH:MM:SS when
    none is set), and ends with a setDate statement exactly when the
    instance is not None. *)
Theorem picker_serializers_script (py : interpreter) (self : HtmlForm)
    (c : cls) (inst : value) (name : string) (s : state) :
  picker_output self c inst name "datepicker" "dateFormat"
    (date_format (get_cls_attrs c)) (date_to_parent py self c inst name s)
  /\ picker_output self c inst name "timepicker" "timeFormat"
       (time_format (get_cls_attrs c)) (time_to_parent py self c inst name s)
  /\ picker_output self c inst name "datetimepicker" "DateTimeFormat"
       (datetime_format (get_cls_attrs c)) (datetime_to_parent py self c inst name s).
Proof.
  split; [apply date_picker|]. split; [apply time_picker|apply datetime_picker].
Qed.

(** ** Arrays: the pull renderer *)

Ltac monad_red :=
  cbv beta iota zeta delta
    [bind ret emit lift raise out_of_fuel write when nested with_suspendable
     with_element finally write_buttons exit_if_open done].

Lemma array_js_ok (key : string) :
  exists text, format_map array_js_template [("field_name", key)] = Ok text.
Proof. eexists. vm_compute. reflexivity. Qed.

Lemma gen_array_js_run (key : string) (s : state) :
  exists text,
    format_map array_js_template [("field_name", key)] = Ok text
    /\ _gen_array_js key s = ([Write (E_script text)], s, Ok tt).
Proof.
  destruct (array_js_ok key) as [text E]. exists text. split; [exact E|].
  unfold _gen_array_js, bind, lift, write, emit. now rewrite E.
Qed.

Lemma pull_tail_run (key : string) (nw : bool) (s : state) :
  exists tail,
    array_tail key nw tail
    /\ (when (negb nw) (_gen_array_js key) ;;; ret None) s
       = (tail, s, Ok (@None gen)).
Proof.
  unfold array_tail, when, bind, ret. destruct nw; cbn [negb].
  - exists []. split; reflexivity.
  - destruct (gen_array_js_run key s) as (text & E & R).
    exists [Write (E_script text)]. split; [eauto|]. now rewrite R.
Qed.

(** The key the code makes for an index is the key of the statement. *)

Lemma zeros_spec (n : nat) : Py.zeros n = Spec.zeros n.
Proof. induction n as [|n IH]; cbn; congruence. Qed.

Lemma fmt_09d_spec (i : nat) : Py.fmt_09d (Z.of_nat i) = Spec.zero_padded 9 i.
Proof.
  unfold Py.fmt_09d, Py.zfill, Spec.zero_padded, Spec.decimal, Py.str_N.
  assert (E : Z.to_N (Z.of_nat i) = N.of_nat i) by lia.
  destruct (Z.of_nat i) eqn:Z; try lia; rewrite <- E, zeros_spec; reflexivity.
Qed.

Lemma item_key_spec (key : string) (i : nat) :
  item_key key (Z.of_nat i) = Spec.item_key key i.
Proof. unfold item_key, Spec.item_key. now rewrite fmt_09d_spec. Qed.

Section PullLoop.

Variable tp : cls -> value -> string -> kwargs -> M (option gen).
Variable c : cls.
Hypothesis item_done :
  forall v k s, exists t s', tp c v k (Some true) s = (t, s', Ok None).

Lemma pull_loop_items (key : string) (attr : Attributes.t) (kw : kwargs)
    (l : list value) :
  forall i s,
  exists subs s' tail,
    List.length subs = List.length l
    /\ rendered_under tp c key i l subs
    /\ array_tail key (Attributes.no_write attr) tail
    /\ pull_loop tp c key attr kw i l s
       = ((item_divs key (Attributes.no_write attr) i subs ++ tail)%list, s', Ok None).
Proof.
  revert kw. induction l as [|v l IH]; intros kw i s.
  - destruct (pull_tail_run key (Attributes.no_write attr) s) as (tail & Ht & R).
    exists [], s, tail. cbn [pull_loop]. rewrite R. now repeat split.
  - destruct (item_done v (Spec.item_key key i) s) as (t & s1 & Etp).
    destruct (IH (Some true) (S i) s1) as (subs & s' & tail & Hl & Hr & Ht & R).
    exists (t :: subs), s', tail. split; [cbn; now rewrite Hl|].
    split; [cbn; split; [exists s; now rewrite Etp|exact Hr]|].
    split; [exact Ht|].
    cbn [pull_loop]. rewrite item_key_spec. monad_red. rewrite Etp.
    destruct (Attributes.no_write attr); cbn [negb]; monad_red; rewrite R;
      cbn [item_divs item_div app negb]; rewrite <- ?app_assoc; reflexivity.
Qed.

End PullLoop.

(** Keys of distinct indices differ. *)

Lemma decode_zeros (k : nat) (s : string) :
  decode_index (Py.zeros k ++ s) = decode_index s.
Proof.
  unfold decode_index. induction k as [|k IH]; [reflexivity|].
  cbn [Py.zeros append NilEmpty.uint_of_string].
  destruct (NilEmpty.uint_of_string (Py.zeros k ++ s)) as [d|];
    [|exact IH].
  rewrite <- IH. reflexivity.
Qed.

Lemma decode_str_N (n : N) : decode_index (Py.str_N n) = Some n.
Proof.
  unfold decode_index, Py.str_N, NilZero.string_of_uint.
  destruct (N.to_uint n) eqn:E;
    try (rewrite <- E, NilEmpty.usu; cbn; now rewrite DecimalN.Unsigned.of_to).
  cbn. rewrite <- (DecimalN.Unsigned.of_to n), E. reflexivity.
Qed.

Lemma decode_fmt_09d (z : Z) :
  (0 <= z)%Z -> decode_index (Py.fmt_09d z) = Some (Z.to_N z).
Proof.
  intros H. unfold Py.fmt_09d, Py.zfill.
  destruct z as [|p|p]; try lia; now rewrite decode_zeros, decode_str_N.
Qed.

Lemma append_inv_head (a x y : string) : a ++ x = a ++ y -> x = y.
Proof. induction a; cbn; intros E; [exact E|injection E; auto]. Qed.

Lemma append_inv_last (x y : string) (c : ascii) :
  x ++ String c "" = y ++ String c "" -> x = y.
Proof.
  revert y. induction x as [|a x IH]; intros [|b y]; cbn; intros E.
  - reflexivity.
  - injection E as _ E. destruct y; discriminate.
  - injection E as _ E. destruct x; discriminate.
  - injection E as -> E. f_equal. now apply IH.
Qed.

Lemma item_key_inj (key : string) (a b : nat) :
  item_key key (Z.of_nat a) = item_key key (Z.of_nat b) -> a = b.
Proof.
  unfold item_key. intros E.
  apply append_inv_head in E. cbn [append] in E. injection E as E.
  apply append_inv_last in E.
  assert (D : decode_index (Py.fmt_09d (Z.of_nat a))
              = decode_index (Py.fmt_09d (Z.of_nat b))) by now rewrite E.
  rewrite !decode_fmt_09d in D by lia. injection D as D. lia.
Qed.

Lemma NoDup_map_inj {A B} (f : A -> B) (l : list A) :
  (forall a b, f a = f b -> a = b) -> NoDup l -> NoDup (map f l).
Proof.
  intros Inj. induction 1 as [|x l Hx Hl IH]; cbn; constructor; auto.
  intros Hin. apply in_map_iff in Hin as (y & E & Hy).
  apply Inj in E. now subst.
Qed.

Lemma spec_item_key_inj (key : string) (a b : nat) :
  Spec.item_key key a = Spec.item_key key b -> a = b.
Proof. rewrite <- !item_key_spec. apply item_key_inj. Qed.

(** The digits of the statement's index read back as the index, and
    there are nine of them at least. *)
Lemma zero_padded_reads_back (i : nat) :
  decode_index (Spec.zero_padded 9 i) = Some (N.of_nat i)
  /\ 9 <= String.length (Spec.zero_padded 9 i).
Proof.
  split.
  - rewrite <- fmt_09d_spec, decode_fmt_09d by lia. f_equal. lia.
  - unfold Spec.zero_padded. generalize (Spec.decimal i) as d. intros d.
    assert (L : forall n, String.length (Spec.zeros n) = n)
      by (induction n; cbn; congruence).
    assert (A : forall a b, String.length (a ++ b) = String.length a + String.length b)
      by (induction a; cbn; intros; [|rewrite IHa]; reflexivity).
    rewrite A, L. lia.
Qed.

(** C6, with the condition it needs. For a list of n items whose
    member renderer completes on every item, the pull renderer writes n
    item divs of class [selsafe name], the i-th holding what the member
    renderer writes under the key [selsafe name] followed by the index
    in brackets, filled with zeros to nine digits; the keys of the n
    indices are pairwise distinct; each div gets the add and the delete
    button unless [no_write] is set; and one array script follows the
    items unless [no_write] is set. *)
Theorem pull_renders_every_item
    (tp : cls -> value -> string -> kwargs -> M (option gen)) (c : cls)
    (items : list value) (name : string) (kw : kwargs) (s : state)
    (item_done : forall v k s0, exists t s1, tp c v k (Some true) s0 = (t, s1, Ok None)) :
  let key := selsafe name in
  let no_write := Attributes.no_write (get_cls_attrs c) in
  exists subs s' tail,
    List.length subs = List.length items
    /\ rendered_under tp c key 0 items subs
    /\ array_tail key no_write tail
    /\ _pull_to_parent tp c (VList items) name kw s
       = ((item_divs key no_write 0 subs ++ tail)%list, s', Ok None)
    /\ NoDup (map (Spec.item_key key) (seq 0 (List.length items)))
    /\ Forall (fun i => decode_index (Spec.zero_padded 9 i) = Some (N.of_nat i)
                        /\ 9 <= String.length (Spec.zero_padded 9 i))
         (seq 0 (List.length items)).
Proof.
  intros key no_write.
  destruct (pull_loop_items tp c item_done key (get_cls_attrs c) kw items 0 s)
    as (subs & s' & tail & Hl & Hr & Ht & R).
  exists subs, s', tail. repeat split; auto.
  - unfold _pull_to_parent. cbn [is_none iterate]. monad_red.
    fold key. rewrite R. reflexivity.
  - apply NoDup_map_inj; [apply spec_item_key_inj|apply seq_NoDup].
  - apply Forall_forall. intros i _. apply zero_padded_reads_back.
Qed.

(** C10. With [None] for the instance the pull renderer does what it
    does with the empty list: nothing is raised, no item div is written,
    and the array script is written unless [no_write] is set. *)
Theorem pull_none_is_empty
    (tp : cls -> value -> string -> kwargs -> M (option gen)) (c : cls)
    (name : string) (kw : kwargs) (s : state) :
  _pull_to_parent tp c VNone name kw s = _pull_to_parent tp c (VList []) name kw s
  /\ exists tail,
       array_tail (selsafe name) (Attributes.no_write (get_cls_attrs c)) tail
       /\ _pull_to_parent tp c VNone name kw s = (tail, s, Ok None).
Proof.
  split; [reflexivity|].
  destruct (pull_tail_run (selsafe name) (Attributes.no_write (get_cls_attrs c)) s)
    as (tail & Ht & R).
  exists tail. split; [exact Ht|].
  unfold _pull_to_parent. cbn [is_none iterate]. monad_red.
  cbn [pull_loop]. rewrite R. reflexivity.
Qed.

(** ** Arrays: the push renderer and the container *)

(** C6, at a list of two texts. *)
Lemma pull_renders_every_item_witness :
  let tp := to_parent Sample.python3 Sample.self Sample.members 1 in
  (forall v k s0, exists t s1, tp Sample.text v k (Some true) s0 = (t, s1, Ok None))
  /\ exists subs s' tail,
       List.length subs = 2
       /\ rendered_under tp Sample.text "tags" 0 [VStr "a"; VStr "b"] subs
       /\ array_tail "tags" false tail
       /\ _pull_to_parent tp Sample.text (VList [VStr "a"; VStr "b"]) "tags" None state0
          = ((item_divs "tags" false 0 subs ++ tail)%list, s', Ok None)
       /\ NoDup (map (Spec.item_key "tags") (seq 0 2))
       /\ Forall (fun i => decode_index (Spec.zero_padded 9 i) = Some (N.of_nat i)
                           /\ 9 <= String.length (Spec.zero_padded 9 i))
            (seq 0 2).
Proof.
  intros tp.
  assert (H : forall v k s0, exists t s1,
             tp Sample.text v k (Some true) s0 = (t, s1, Ok None)).
  { intros v k s0. subst tp. cbn [to_parent kw_from_arr negb andb Sample.text cls_kind].
    destruct (unicode_labelled Sample.python3 Sample.self Sample.text v k s0)
      as (n & s1 & E & _).
    unfold done, bind, ret. fold Sample.text. rewrite E. eauto. }
  split; [exact H|].
  exact (pull_renders_every_item tp Sample.text [VStr "a"; VStr "b"] "tags" None state0 H).
Defined.

(** C6 as stated fails when the member renderer does not complete. On
    Python 3 the class with mixed members raises when it is rendered:
    of a list of two such items the pull renderer opens the first item
    div, closes it when the exception passes, and writes neither the
    second div nor the buttons nor the script. *)
Lemma pull_stops_at_failing_item :
  _pull_to_parent (to_parent Sample.python3 Sample.self Sample.members 1)
    (Sample.complex "Mixed") (VList [VNone; VNone]) "forms" None state0
  = ([ Enter 0 "div" [("class", "forms")];
       Call "forms[000000000]"
         [ Enter 0 "fieldset" [];
           Write (Elt "legend" [] [Txt "Mixed"]);
           Exit 0 ];
       Exit 0 ], state0, Raise TypeError).
Proof. vm_compute. reflexivity. Qed.

(** The index of a push generator. *)
Lemma push_wait_send (py : interpreter) (self : HtmlForm)
    (tp : cls -> value -> string -> kwargs -> M (option gen))
    (fr : Push.frame) (sv : value) (s : state) :
  Push.kw fr = None ->
  exists t rest,
    trace (resume py self tp (GPushWait fr) (Send sv) s)
    = Call (item_key (Push.key fr) (Push.i fr + 0)) t :: rest.
Proof.
  intros K. cbn [resume]. monad_red. cbn [Push.kw Push.key Push.c Push.n Push.i].
  rewrite K.
  destruct (tp _ _ _ _ s) as [[t s1] [[g|]|e|]]; cbn; eauto.
Qed.

(** C5 at a pushed instance: the container div is closed as soon as the
    push generator is primed, and the items arrive after that, through
    the generator that was returned. *)
Theorem array_container_closes_before_items (py : interpreter) (self : HtmlForm)
    (tp : cls -> value -> string -> kwargs -> M (option gen))
    (c : cls) (name : string) (s : state) :
  let key := selsafe name in
  let fr := Push.mk c key (get_cls_attrs c) None (-1) 0 in
  array_to_parent tp c VPush name None s
  = ([Enter 0 "div" [("id", key ++ "_container"); ("class", "array")];
      Call name [Enter 0 "div" [("class", key)]];
      Exit 0], s, Ok (Some (GPushWait fr)))
  /\ forall sv s1, exists t rest,
       trace (resume py self tp (GPushWait fr) (Send sv) s1)
       = Call (item_key key (-1)) t :: rest.
Proof.
  intros key fr. split; [reflexivity|].
  intros sv s1. now apply (push_wait_send py self tp fr sv s1).
Qed.

(** C2 at two pushed texts: both are rendered under the key of index
    minus one. *)
Theorem push_index_stays_at_minus_one (py : interpreter) :
  let tp := to_parent py Sample.self Sample.members 1 in
  let g := GPushWait (Push.mk Sample.text "tags" (get_cls_attrs Sample.text)
                        None (-1) 0) in
  _push_to_parent Sample.text VPush "tags" None state0
  = ([Enter 0 "div" [("class", "tags")]], state0, Ok (Some g))
  /\ trace (drive (resume py Sample.self tp) (Some g)
              [Send (VStr "a"); Send (VStr "b")] state0)
     = [ Call "tags[-00000001]"
           [Sample.text_input "tags[-00000001]" "tags-00000001_input" "a"];
         Exit 0; Enter 1 "div" [("class", "tags")];
         Call "tags[-00000001]"
           [Sample.text_input "tags[-00000001]" "tags-00000001_input" "b"];
         Exit 1; Enter 2 "div" [("class", "tags")] ].
Proof.
  split; vm_compute; reflexivity.
Qed.

(** Whatever is sent or thrown, a push generator that stays suspended
    keeps its index. *)
Lemma push_index_fixed (py : interpreter) (self : HtmlForm)
    (tp : cls -> value -> string -> kwargs -> M (option gen))
    (g : gen) (m : msg) (s : state) (i : Z) :
  push_index g = Some i ->
  match outcome (resume py self tp g m s) with
  | Ok (Some g') => push_index g' = Some i
  | _ => True
  end.
Proof.
  destruct g as [? ?|? ?|fr|child fr]; cbn [push_index]; try discriminate;
    intros [= <-].
  - destruct m as [sv|]; cbn [resume]; monad_red; [|exact I].
    destruct (Push.kw fr); [exact I|].
    cbn [Push.kw Push.key Push.c Push.n Push.i Push.attr].
    destruct (tp _ _ _ _ s) as [[t s1] [[g'|]|e|]]; cbn; auto; f_equal; lia.
  - cbn [resume]. unfold forward. destruct m as [sv|]; monad_red.
    + destruct (resume py self tp child (Send sv) s) as [[t s1] [[g'|]|e|]]; cbn; auto.
    + destruct (resume py self tp child ThrowBreak s) as [[t s1] [r|e|]]; cbn; auto.
      destruct (Attributes.no_write (Push.attr fr)); cbn; auto.
Qed.

(** ** Termination of the walk *)

Lemma returns_ret {A} (a : A) (s : state) : returns (ret a s).
Proof. discriminate. Qed.

Lemma returns_raise {A} (e : exn) (s : state) : returns (@raise A e s).
Proof. discriminate. Qed.

Lemma returns_emit (e : event) (s : state) : returns (emit e s).
Proof. discriminate. Qed.

Lemma returns_lift {A} (r : res A) (s : state) :
  r <> OutOfFuel -> returns (lift r s).
Proof. intros H. exact H. Qed.

Lemma returns_bind {A B} (m : M A) (f : A -> M B) (s : state) :
  returns (m s) -> (forall a s', returns (f a s')) -> returns (bind m f s).
Proof.
  unfold returns, outcome, bind. intros Hm Hf.
  destruct (m s) as [[t1 s1] [a|e|]]; cbn in *; try congruence.
  specialize (Hf a s1). destruct (f a s1) as [[t2 s2] r]. exact Hf.
Qed.

Lemma returns_nested {A} (wrap : list event -> event) (m : M A) (s : state) :
  returns (m s) -> returns (nested wrap m s).
Proof.
  unfold returns, outcome, nested. destruct (m s) as [[t s'] r]. auto.
Qed.

Lemma returns_finally {A} (m : M A) (e : event) (s : state) :
  returns (m s) -> returns (finally m e s).
Proof.
  unfold returns, outcome, finally.
  destruct (m s) as [[t s'] [a|x|]]; cbn; congruence.
Qed.

Lemma returns_with_suspendable (c : nat) (m : M (option gen)) (s : state) :
  returns (m s) -> returns (with_suspendable c m s).
Proof.
  unfold returns, outcome, with_suspendable.
  destruct (m s) as [[t s'] [[g|]|x|]]; cbn; congruence.
Qed.

Lemma returns_when (b : bool) (m : M unit) (s : state) :
  (b = true -> returns (m s)) -> returns (when b m s).
Proof. destruct b; cbn; auto. intros _. discriminate. Qed.

Lemma returns_exit_if_open (ctx : option nat) (s : state) :
  returns (exit_if_open ctx s).
Proof. destruct ctx; discriminate. Qed.

Lemma returns_next_counter (s : state) : returns (next_counter s).
Proof. discriminate. Qed.

Lemma returns_write_buttons (key : string) (s : state) :
  returns (write_buttons key s).
Proof. discriminate. Qed.

(** The pure helpers never use the budget. *)

Lemma res_map_fuel {A B} (f : A -> B) (r : res A) :
  r <> OutOfFuel -> res_map f r <> OutOfFuel.
Proof. destruct r; cbn; congruence. Qed.

Lemma res_bind_fuel {A B} (r : res A) (f : A -> res B) :
  r <> OutOfFuel -> (forall a, f a <> OutOfFuel) -> res_bind r f <> OutOfFuel.
Proof. destruct r; cbn; auto; congruence. Qed.

Lemma format_scan_fuel (kw : Dict.t) (s : string) :
  forall st, format_scan st kw s <> OutOfFuel.
Proof.
  induction s as [|c s IH]; intros st; cbn.
  - destruct st; discriminate.
  - destruct st.
    + destruct (Ascii.eqb c "%"); [apply IH|apply res_map_fuel, IH].
    + destruct (Ascii.eqb c "("); [apply IH|].
      destruct (Ascii.eqb c "%"); [apply res_map_fuel, IH|discriminate].
    + destruct (Ascii.eqb c ")"); apply IH.
    + destruct (Ascii.eqb c "s"); [|discriminate].
      destruct (Dict.get k kw); [apply res_map_fuel, IH|discriminate].
Qed.

Section SortedFacts.
Context {A K : Type}.
Variables (lt : K -> K -> res bool) (key : A -> K).
Hypothesis lt_fuel : forall a b, lt a b <> OutOfFuel.

Lemma insert_sorted_fuel (x : A) (l : list A) :
  insert_sorted lt key x l <> OutOfFuel.
Proof.
  induction l as [|y l IH]; cbn; [discriminate|].
  apply res_bind_fuel; [apply lt_fuel|].
  intros [|]; [apply res_map_fuel, IH|discriminate].
Qed.

Lemma sorted_fuel (l : list A) : sorted lt key l <> OutOfFuel.
Proof.
  induction l as [|x l IH]; cbn; [discriminate|].
  apply res_bind_fuel; [exact IH|]. intros l'. apply insert_sorted_fuel.
Qed.

Lemma insert_sorted_In (x : A) (l l' : list A) :
  insert_sorted lt key x l = Ok l' -> forall y, In y l' -> y = x \/ In y l.
Proof.
  revert l'. induction l as [|z l IH]; cbn; intros l' E y Hy.
  - injection E as <-. destruct Hy as [<-|[]]; auto.
  - destruct (lt (key z) (key x)) as [[|]|e|]; cbn in E; try discriminate.
    + destruct (insert_sorted lt key x l) as [l0|e|] eqn:E0; cbn in E;
        try discriminate.
      injection E as <-. destruct Hy as [<-|Hy]; [right; now left|].
      destruct (IH l0 eq_refl y Hy); cbn; auto.
    + injection E as <-. destruct Hy as [<-|Hy]; auto.
Qed.

Lemma sorted_In (l l' : list A) :
  sorted lt key l = Ok l' -> forall y, In y l' -> In y l.
Proof.
  revert l'. induction l as [|x l IH]; cbn; intros l' E y Hy.
  - injection E as <-. exact Hy.
  - destruct (sorted lt key l) as [l0|e|] eqn:E0; cbn in E; try discriminate.
    destruct (insert_sorted_In x l0 l' E y Hy) as [->|H]; [now left|].
    right. now apply (IH l0).
Qed.
End SortedFacts.

Lemma lt_None_fuel (py : interpreter) (first : bool) :
  lt_None py first <> OutOfFuel.
Proof. unfold lt_None. destruct (none_first py); discriminate. Qed.

Lemma lt_optZ_fuel (py : interpreter) (a b : option Z) :
  lt_optZ py a b <> OutOfFuel.
Proof. destruct a, b; cbn; try apply lt_None_fuel; discriminate. Qed.

Lemma lt_idx_fuel (py : interpreter) (a b : idx_key) :
  lt_idx py a b <> OutOfFuel.
Proof.
  unfold lt_idx, tuple_step, lt_str.
  destruct (eq_optZ _ _); [destruct (String.eqb _ _); discriminate|].
  apply lt_optZ_fuel.
Qed.

Lemma lt_opt_idx_fuel (py : interpreter) (a b : option idx_key) :
  lt_opt_idx py a b <> OutOfFuel.
Proof. destruct a, b; cbn; try apply lt_None_fuel. apply lt_idx_fuel. Qed.

Lemma lt_form_key_fuel (py : interpreter) (a b : form_key) :
  lt_form_key py a b <> OutOfFuel.
Proof.
  destruct a as [[[t1 f1] o1] k1], b as [[[t2 f2] o2] k2].
  unfold lt_form_key, tuple_step, lt_str.
  destruct (eq_opt_idx t1 t2); [|apply lt_opt_idx_fuel].
  destruct (eq_opt_idx f1 f2); [|apply lt_opt_idx_fuel].
  destruct (eq_optZ o1 o2); [|apply lt_optZ_fuel].
  destruct (String.eqb k1 k2); discriminate.
Qed.

Lemma gen_tab_headers_fuel (py : interpreter) (fti : list (string * cls)) :
  _gen_tab_headers py fti <> OutOfFuel.
Proof.
  unfold _gen_tab_headers. apply res_map_fuel, sorted_fuel. intros a b.
  apply lt_idx_fuel.
Qed.

Lemma returns_gen_array_js (key : string) (s : state) :
  returns (_gen_array_js key s).
Proof.
  destruct (gen_array_js_run key s) as (text & _ & R). rewrite R. discriminate.
Qed.

Lemma returns_labelled (h : cls -> value -> string -> M unit) :
  writes_labelled_input h -> forall c inst name s, returns (h c inst name s).
Proof.
  intros H c inst name s. destruct (H c inst name s) as (n & s' & E & _).
  rewrite E. discriminate.
Qed.

Lemma returns_primitive (py : interpreter) (self : HtmlForm)
    (h : kind * (cls -> value -> string -> M unit)) :
  In h (primitive_serializers py self) ->
  forall c inst name s, returns (snd h c inst name s).
Proof.
  intros Hin. apply returns_labelled. revert h Hin. apply Forall_forall.
  unfold primitive_serializers. repeat constructor; cbn [snd].
  - eapply picker_writes_labelled with (fmt := fun c => date_format (get_cls_attrs c)).
    apply date_picker.
  - eapply picker_writes_labelled with (fmt := fun c => time_format (get_cls_attrs c)).
    apply time_picker.
  - apply integer_labelled.
  - apply unicode_labelled.
  - apply decimal_labelled.
  - apply boolean_labelled.
  - apply duration_labelled.
  - eapply picker_writes_labelled with (fmt := fun c => datetime_format (get_cls_attrs c)).
    apply datetime_picker.
Qed.

Ltac returns_step :=
  match goal with
  | |- returns (ret _ _) => apply returns_ret
  | |- returns (raise _ _) => apply returns_raise
  | |- returns (emit _ _) => apply returns_emit
  | |- returns (write _ _) => apply returns_emit
  | |- returns (exit_if_open _ _) => apply returns_exit_if_open
  | |- returns (next_counter _) => apply returns_next_counter
  | |- returns (write_buttons _ _) => apply returns_write_buttons
  | |- returns (_gen_array_js _ _) => apply returns_gen_array_js
  | |- returns (lift (_gen_tab_headers _ _) _) =>
      apply returns_lift, gen_tab_headers_fuel
  | |- returns (when _ _ _) => apply returns_when; intros _
  | |- returns (nested _ _ _) => apply returns_nested
  | |- returns (finally _ _ _) => apply returns_finally
  | |- returns (with_suspendable _ _ _) => apply returns_with_suspendable
  | |- returns (with_element _ _ _ _ _) => unfold with_element
  | |- returns (bind _ _ _) => apply returns_bind; [|intros ? ?]
  | |- returns ((let '(_, _) := ?x in _) _) => destruct x
  | |- returns (match ?x with _ => _ end _) => destruct x
  | |- returns (if ?x then _ else _) => destruct x
  end.

Section Walk.

Variable py : interpreter.
Variable self : HtmlForm.
Variable members : cls -> list (string * cls).
Variable tp : cls -> value -> string -> kwargs -> M (option gen).

Lemma returns_tab_transition fti subattr l s :
  returns (tab_transition py fti subattr l s).
Proof. unfold tab_transition. repeat returns_step. Qed.

Lemma returns_fset_transition k subattr l s :
  returns (fset_transition k subattr l s).
Proof. unfold fset_transition. repeat returns_step. Qed.

Lemma returns_cm_finish l s : returns (cm_finish l s).
Proof. unfold cm_finish. repeat returns_step. Qed.

Lemma returns_cm_loop inst name kw fti (fields : list (string * cls)) :
  (forall k v, In (k, v) fields ->
     forall name s, returns (tp v (getattr inst k) name kw s)) ->
  forall l s, returns (cm_loop py self tp inst name kw fti l fields s).
Proof.
  induction fields as [|[k v] fields IH]; intros H l s; cbn [cm_loop].
  - apply returns_bind; [apply returns_cm_finish|intros; apply returns_ret].
  - assert (H' : forall k v, In (k, v) fields ->
               forall name s, returns (tp v (getattr inst k) name kw s))
      by (intros; eapply H; right; eauto).
    destruct (Attributes.exc (get_cls_attrs v)); [now apply IH|].
    apply returns_bind; [apply returns_tab_transition|intros l1 s1].
    apply returns_bind; [apply returns_fset_transition|intros l2 s2].
    apply returns_bind; [apply returns_nested, (H k v); now left|].
    intros [g|] s3; [apply returns_ret|now apply IH].
Qed.

Lemma returns_complex_model c inst name kw s :
  (forall k v, In (k, v) (members c) ->
     forall name s, returns (tp v (getattr inst k) name kw s)) ->
  returns (complex_model_to_parent py self members tp c inst name kw s).
Proof.
  intros H. unfold complex_model_to_parent.
  apply returns_bind; [apply returns_emit|intros _ s1].
  apply returns_with_suspendable.
  apply returns_bind; [apply returns_emit|intros _ s2].
  unfold bind, lift.
  destruct (sorted (lt_form_key py) _form_key (members c)) as [fields|e|] eqn:E.
  - pose proof (returns_cm_loop inst
                  (if String.eqb name (get_type_name c) then "" else name)
                  kw (members c) fields) as R.
    specialize (R (fun k v Hin => H k v (sorted_In _ _ _ _ E _ Hin)) cm_locals0 s2).
    unfold returns, outcome in *.
    destruct (cm_loop _ _ _ _ _ _ _ _ _ _) as [[t s'] r]. exact R.
  - discriminate.
  - exfalso. revert E. apply sorted_fuel. intros a b. apply lt_form_key_fuel.
Qed.

Lemma returns_pull_loop c key attr (items : list value) :
  (forall v k s, returns (tp c v k (Some true) s)) ->
  forall kw i s, returns (pull_loop tp c key attr kw i items s).
Proof.
  intros H. induction items as [|v items IH]; intros kw i s; cbn [pull_loop].
  - repeat returns_step.
  - apply returns_bind; [apply returns_emit|intros _ s1].
    apply returns_bind.
    + apply returns_with_suspendable.
      apply returns_bind; [apply returns_nested, H|intros r s2].
      repeat returns_step.
    + intros [g|] s2; [apply returns_ret|apply IH].
Qed.

Lemma returns_array c inst name kw s :
  (forall v k s, returns (tp c v k (Some true) s)) ->
  returns (array_to_parent tp c inst name kw s).
Proof.
  intros H. unfold array_to_parent, with_element.
  apply returns_bind; [apply returns_emit|intros _ s1].
  apply returns_finally.
  destruct (is_PushBase inst); apply returns_nested.
  - unfold _push_to_parent. repeat returns_step.
  - unfold _pull_to_parent.
    apply returns_bind.
    + apply returns_lift. destruct (is_none inst); [discriminate|].
      destruct inst; discriminate.
    + intros items s2. now apply returns_pull_loop.
Qed.

Lemma returns_pull_nil c key attr kw i s :
  returns (pull_loop tp c key attr kw i [] s).
Proof. cbn [pull_loop]. repeat returns_step. Qed.

(** An array with nothing to loop over comes back without a call to
    the member renderer. *)
Lemma returns_array_empty c inst name kw s :
  is_none inst = true \/ items_of inst = [] ->
  returns (array_to_parent tp c inst name kw s).
Proof.
  intros H. unfold array_to_parent, with_element.
  apply returns_bind; [apply returns_emit|intros _ s1].
  apply returns_finally.
  destruct (is_PushBase inst); apply returns_nested.
  - unfold _push_to_parent. repeat returns_step.
  - unfold _pull_to_parent.
    assert (E : items_of (if is_none inst then VList [] else inst) = []).
    { destruct H as [-> | H]; [reflexivity|]. now destruct (is_none inst). }
    unfold items_of in E. unfold bind at 1, lift.
    destruct (iterate (if is_none inst then VList [] else inst)) as [l|e|] eqn:I.
    + subst l.
      pose proof (returns_pull_nil c (selsafe name) (get_cls_attrs c) kw 0 s1) as R.
      unfold returns, outcome in *.
      destruct (pull_loop _ _ _ _ _ _ _ _) as [[t s'] r]. exact R.
    + discriminate.
    + destruct (is_none inst); [discriminate|]. destruct inst; discriminate.
Qed.

Lemma returns_array_type c inst name kw s :
  (forall k v, In (k, v) (members c) ->
     forall name s, returns (tp v inst name kw s)) ->
  returns (array_type_to_parent members tp c inst name kw s).
Proof.
  intros H. unfold array_type_to_parent.
  destruct (members c) as [|[k v] rest] eqn:E; [apply returns_raise|].
  apply (H k v). now left.
Qed.

End Walk.

Section Dispatch.

Variable py : interpreter.
Variable self : HtmlForm.
Variable members : cls -> list (string * cls).

Lemma returns_done (m : M unit) (s : state) :
  returns (m s) -> returns (done m s).
Proof. intros H. unfold done. apply returns_bind; [exact H|intros; apply returns_ret]. Qed.

(** The handler of the class of [c], the array set aside: it comes back
    when the calls it makes for the members of [c] do. *)
Lemma to_parent_handler_returns n c inst name kw s :
  negb (kw_from_arr kw) && exceeds_one (Attributes.max_occurs (get_cls_attrs c)) = false ->
  (forall k v, In (k, v) (members c) ->
     forall name s,
       returns (to_parent py self members n v (member_inst c inst k) name kw s)) ->
  returns (to_parent py self members (S n) c inst name kw s).
Proof.
  intros C H. cbn [to_parent]. rewrite C. unfold member_inst in H.
  destruct (cls_kind c).
  - apply returns_done, (returns_labelled _ (unicode_labelled py self)).
  - apply returns_done, (returns_labelled _ (decimal_labelled py self)).
  - apply returns_done, (returns_labelled _ (integer_labelled py self)).
  - apply returns_done, (returns_labelled _ (boolean_labelled py self)).
  - apply returns_done,
      (returns_primitive py self (Date, date_to_parent py self)). cbn; auto.
  - apply returns_done,
      (returns_primitive py self (Time, time_to_parent py self)). cbn; auto.
  - apply returns_done,
      (returns_primitive py self (DateTime, datetime_to_parent py self)). cbn; auto 10.
  - apply returns_done, (returns_labelled _ (duration_labelled py self)).
  - now apply returns_array_type.
  - now apply returns_complex_model.
  - destruct (ignore_uncap self); [apply returns_ret|apply returns_raise].
Qed.

Lemma to_parent_step_returns n c inst name kw s :
  members_return py self members n c -> members_return py self members (S n) c ->
  returns (to_parent py self members (S (S n)) c inst name kw s).
Proof.
  intros H0 H1.
  destruct (negb (kw_from_arr kw)
            && exceeds_one (Attributes.max_occurs (get_cls_attrs c))) eqn:C.
  - cbn [to_parent]. rewrite C. apply returns_array. intros v k s'.
    apply to_parent_handler_returns; [reflexivity|].
    intros k' v' Hin name' s''. now apply (H0 k' v' Hin).
  - apply to_parent_handler_returns; [exact C|].
    intros k' v' Hin name' s''. now apply (H1 k' v' Hin).
Qed.

Section Ranked.

Variable rank : cls -> nat.
Hypothesis schema_ranked : ranked members rank.

Lemma to_parent_returns (c : cls) :
  forall fuel inst name kw s,
    2 * rank c + 2 <= fuel ->
    returns (to_parent py self members fuel c inst name kw s).
Proof.
  remember (rank c) as r eqn:Er. revert c Er.
  induction r as [r IH] using (well_founded_induction lt_wf).
  intros c -> fuel inst name kw s Hf.
  destruct fuel as [|[|n]]; try lia.
  apply to_parent_step_returns; intros k v Hin inst' name' kw' s';
    pose proof (schema_ranked c k v Hin) as Hr;
    apply (IH (rank v) Hr v eq_refl); lia.
Qed.

End Ranked.

Section Itemless.

Variable rank : cls -> nat.
Hypothesis plain_ranked : ranked_through_plain members rank.

Lemma itemless_member c inst :
  itemless members c inst -> plain c = true ->
  forall k v, In (k, v) (members c) -> itemless members v (member_inst c inst k).
Proof.
  intros [c0|c0 inst0 P _|c0 inst0 _ H] Pl k v Hin.
  - replace (member_inst c0 VNone k) with VNone; [constructor|].
    unfold member_inst. now destruct (cls_kind c0).
  - congruence.
  - now apply H.
Qed.

Lemma itemless_array_empty c inst :
  itemless members c inst -> plain c = false ->
  is_none inst = true \/ items_of inst = [].
Proof.
  intros [c0|c0 inst0 _ E|c0 inst0 P _] Pl; [now left|now right|congruence].
Qed.

(** On an instance without array items the walk comes back, arrays
    closing cycles or not: a plain member sits lower in the schema, and
    an array is left as soon as it is found empty. *)
Lemma to_parent_itemless_returns (c : cls) :
  forall fuel inst name kw s,
    kw_from_arr kw = false ->
    itemless members c inst ->
    1 <= fuel -> (plain c = true -> rank c + 2 <= fuel) ->
    returns (to_parent py self members fuel c inst name kw s).
Proof.
  remember (rank c) as r eqn:Er. revert c Er.
  induction r as [r IH] using (well_founded_induction lt_wf).
  intros c -> fuel inst name kw s K I F1 F2.
  destruct fuel as [|n]; [lia|].
  destruct (plain c) eqn:P.
  - apply to_parent_handler_returns.
    { unfold plain in P. apply negb_true_iff in P. now rewrite P, andb_false_r. }
    intros k v Hin name' s'. specialize (F2 eq_refl).
    pose proof (itemless_member c inst I P k v Hin) as Iv.
    destruct (plain v) eqn:Pv.
    + pose proof (plain_ranked c k v Hin Pv) as Hr.
      apply (IH (rank v) Hr v eq_refl); auto; try lia; try (intros _; lia).
    + destruct n as [|n]; [lia|].
      cbn [to_parent]. rewrite K. unfold plain in Pv.
      apply negb_false_iff in Pv. rewrite Pv. cbn [negb andb].
      apply returns_array_empty. apply (itemless_array_empty v _ Iv).
      unfold plain. now rewrite Pv.
  - cbn [to_parent]. rewrite K. unfold plain in P.
    pose proof P as P'. apply negb_false_iff in P'. rewrite P'. cbn [negb andb].
    apply returns_array_empty. now apply (itemless_array_empty c inst I).
Qed.

End Itemless.

End Dispatch.

Lemma sample_flat_ranked : ranked Sample.flat_members Sample.rank.
Proof.
  intros c k v. unfold Sample.flat_members, Sample.tree_members, Sample.members,
    Sample.rank.
  destruct (String.eqb (get_type_name c) "Tree") eqn:T; [intros []|].
  destruct (String.eqb (get_type_name c) "Node"); [intros []|].
  destruct (cls_kind c); try (intros []).
  repeat match goal with
         | |- context [if ?b then _ else _] => destruct b
         end;
    cbn [In]; intros H;
    repeat (destruct H as [H|H]; [injection H as _ <-; cbn; lia|]);
    destruct H.
Qed.

Lemma sample_tree_ranked : ranked_through_plain Sample.tree_members Sample.rank.
Proof.
  intros c k v. unfold Sample.tree_members, Sample.members, Sample.rank.
  destruct (String.eqb (get_type_name c) "Node"); [intros []|].
  destruct (cls_kind c); try (intros []).
  repeat match goal with
         | |- context [if ?b then _ else _] => destruct b
         end;
    cbn [In]; intros H;
    repeat (destruct H as [H|H];
            [injection H as _ <-; cbn; intros; (lia || discriminate)|]);
    destruct H.
Qed.

(** ** What a call can leave suspended *)

Lemma unsuspended_bind {A} (m : M A) (f : A -> M (option gen)) (s : state) :
  (forall a s', ~ suspended (f a s')) -> ~ suspended (bind m f s).
Proof.
  unfold suspended, outcome, bind. intros Hf [g E].
  destruct (m s) as [[t1 s1] [a|e|]]; try discriminate.
  apply (Hf a s1). exists g. destruct (f a s1) as [[t2 s2] r]. exact E.
Qed.

Lemma unsuspended_bind_opt (m : M (option gen))
    (f : option gen -> M (option gen)) (s : state) :
  ~ suspended (m s) -> (forall s', ~ suspended (f None s')) ->
  ~ suspended (bind m f s).
Proof.
  unfold suspended, outcome, bind. intros Hm Hf [g E].
  destruct (m s) as [[t1 s1] [[g1|]|e|]]; try discriminate.
  - apply Hm. now exists g1.
  - apply (Hf s1). exists g. destruct (f None s1) as [[t2 s2] r]. exact E.
Qed.

Lemma unsuspended_nested (wrap : list event -> event) (m : M (option gen))
    (s : state) :
  ~ suspended (m s) -> ~ suspended (nested wrap m s).
Proof.
  unfold suspended, outcome, nested. destruct (m s) as [[t s'] r]. auto.
Qed.

Lemma unsuspended_finally (m : M (option gen)) (e : event) (s : state) :
  ~ suspended (m s) -> ~ suspended (finally m e s).
Proof.
  unfold suspended, outcome, finally. intros H [g E]. apply H. exists g.
  destruct (m s) as [[t s'] [a|x|]]; cbn in *; congruence.
Qed.

Lemma unsuspended_with_suspendable (c : nat) (m : M (option gen)) (s : state) :
  ~ suspended (m s) -> ~ suspended (with_suspendable c m s).
Proof.
  unfold suspended, outcome, with_suspendable. intros H [g E]. apply H. exists g.
  destruct (m s) as [[t s'] [[g1|]|x|]]; cbn in *; congruence.
Qed.

Lemma unsuspended_ret_none (s : state) : ~ suspended (ret (@None gen) s).
Proof. intros [g E]. discriminate. Qed.

Lemma unsuspended_raise (e : exn) (s : state) :
  ~ suspended (@raise (option gen) e s).
Proof. intros [g E]. discriminate. Qed.

Lemma unsuspended_done (m : M unit) (s : state) : ~ suspended (done m s).
Proof.
  unfold done. apply unsuspended_bind. intros _ s'. apply unsuspended_ret_none.
Qed.

Lemma push_free_getattr (inst : value) (k : string) :
  push_free inst = true -> push_free (getattr inst k) = true.
Proof.
  destruct inst as [| | | | | |ms|]; try reflexivity. cbn [getattr push_free].
  induction ms as [|[k0 v0] ms IH]; cbn; [reflexivity|].
  intros H. apply andb_prop in H as [H0 H1].
  destruct (String.eqb k k0); [exact H0|now apply IH].
Qed.

Lemma push_free_items (inst : value) (l : list value) :
  push_free inst = true ->
  iterate (if is_none inst then VList [] else inst) = Ok l ->
  forall v, In v l -> push_free v = true.
Proof.
  destruct inst as [| | |str| |items| |]; cbn; intros H E; try discriminate;
    injection E as <-.
  - intros v [].
  - intros v Hv. apply in_map_iff in Hv as (c & <- & _). reflexivity.
  - intros v Hv. rewrite forallb_forall in H. now apply H.
Qed.

Section Unsuspended.

Variable py : interpreter.
Variable self : HtmlForm.
Variable members : cls -> list (string * cls).
Variable tp : cls -> value -> string -> kwargs -> M (option gen).

Lemma cm_loop_unsuspended inst name kw fti (fields : list (string * cls)) :
  (forall k v name s, ~ suspended (tp v (getattr inst k) name kw s)) ->
  forall l s, ~ suspended (cm_loop py self tp inst name kw fti l fields s).
Proof.
  intros H. induction fields as [|[k v] fields IH]; intros l s; cbn [cm_loop].
  - apply unsuspended_bind. intros _ s'. apply unsuspended_ret_none.
  - destruct (Attributes.exc (get_cls_attrs v)); [apply IH|].
    apply unsuspended_bind. intros l1 s1.
    apply unsuspended_bind. intros l2 s2.
    apply unsuspended_bind_opt; [apply unsuspended_nested, H|].
    intros s3. apply IH.
Qed.

Lemma complex_model_unsuspended c inst name kw s :
  (forall k v name s, ~ suspended (tp v (getattr inst k) name kw s)) ->
  ~ suspended (complex_model_to_parent py self members tp c inst name kw s).
Proof.
  intros H. unfold complex_model_to_parent.
  apply unsuspended_bind. intros _ s1.
  apply unsuspended_with_suspendable.
  apply unsuspended_bind. intros _ s2.
  apply unsuspended_bind. intros fields s3.
  now apply cm_loop_unsuspended.
Qed.

Lemma pull_loop_unsuspended c key attr (items : list value) :
  (forall v, In v items -> forall k s, ~ suspended (tp c v k (Some true) s)) ->
  forall kw i s, ~ suspended (pull_loop tp c key attr kw i items s).
Proof.
  induction items as [|v items IH]; intros H kw i s; cbn [pull_loop].
  - apply unsuspended_bind. intros _ s'. apply unsuspended_ret_none.
  - apply unsuspended_bind. intros _ s1.
    apply unsuspended_bind_opt.
    + apply unsuspended_with_suspendable.
      apply unsuspended_bind_opt; [apply unsuspended_nested, H; now left|].
      intros s2. apply unsuspended_bind. intros _ s3. apply unsuspended_ret_none.
    + intros s2. apply IH. intros v' Hv. apply H. now right.
Qed.

Lemma array_unsuspended c inst name kw s :
  push_free inst = true ->
  (forall v, push_free v = true ->
     forall k s, ~ suspended (tp c v k (Some true) s)) ->
  ~ suspended (array_to_parent tp c inst name kw s).
Proof.
  intros P H. unfold array_to_parent, with_element.
  apply unsuspended_bind. intros _ s1.
  apply unsuspended_finally.
  assert (NP : is_PushBase inst = false)
    by (destruct inst; try reflexivity; discriminate P).
  rewrite NP. apply unsuspended_nested.
  unfold _pull_to_parent, bind at 1, lift.
  destruct (iterate (if is_none inst then VList [] else inst)) as [l|e|] eqn:I.
  - pose proof (pull_loop_unsuspended c (selsafe name) (get_cls_attrs c) l
                  (fun v Hv => H v (push_free_items inst l P I v Hv)) kw 0 s1) as R.
    unfold suspended, outcome in *.
    destruct (pull_loop _ _ _ _ _ _ _ _) as [[t s'] r]. exact R.
  - intros [g E]. discriminate.
  - intros [g E]. discriminate.
Qed.

Lemma array_type_unsuspended c inst name kw s :
  (forall v name s, ~ suspended (tp v inst name kw s)) ->
  ~ suspended (array_type_to_parent members tp c inst name kw s).
Proof.
  intros H. unfold array_type_to_parent.
  destruct (members c) as [|[k v] rest]; [apply unsuspended_raise|apply H].
Qed.

End Unsuspended.

(** Without a [PushBase] in the instance no call is left suspended,
    whatever the schema and the budget. *)
Lemma to_parent_unsuspended (py : interpreter) (self : HtmlForm)
    (members : cls -> list (string * cls)) (fuel : nat) :
  forall c inst name kw s,
    push_free inst = true ->
    ~ suspended (to_parent py self members fuel c inst name kw s).
Proof.
  induction fuel as [|n IH]; intros c inst name kw s P;
    [intros [g E]; discriminate|].
  cbn [to_parent].
  destruct (negb (kw_from_arr kw)
            && exceeds_one (Attributes.max_occurs (get_cls_attrs c))).
  - apply array_unsuspended; [exact P|]. intros v Pv k s'. now apply IH.
  - destruct (cls_kind c); try apply unsuspended_done.
    + apply array_type_unsuspended. intros v name' s'. now apply IH.
    + apply complex_model_unsuspended. intros k v name' s'.
      apply IH. now apply push_free_getattr.
    + destruct (ignore_uncap self);
        [apply unsuspended_ret_none|apply unsuspended_raise].
Qed.

Lemma returned_unsuspended_finished (x : list event * state * res (option gen)) :
  returns x -> ~ suspended x -> finished x.
Proof.
  unfold returns, suspended, finished.
  destruct (outcome x) as [[g|]|e|]; intros R U.
  - exfalso. apply U. now exists g.
  - now left.
  - right. now exists e.
  - now contradiction R.
Qed.

(** C3, as the code has it. The walk follows the schema, not the
    instance: a member that is [None] or missing is rendered as an
    empty form.  From a budget of twice the rank of the class and one
    on, the call of [complex_model_to_parent] comes back in two cases:
    for every instance, when no class contains itself at all; and for
    an instance without array items, [None] included, when no class
    contains itself through members that occur at most once, cycles
    through arrays allowed.  It comes back with the form written, with
    an exception, or with a generator suspended at a pushed array; when
    the instance holds no [PushBase], nothing is left suspended and the
    walk has ended. *)
Theorem schema_walk_returns (py : interpreter) (self : HtmlForm)
    (members : cls -> list (string * cls)) (rank : cls -> nat)
    (c : cls) (inst : value) (name : string) (kw : kwargs) (s : state)
    (fuel : nat) :
  let run :=
    complex_model_to_parent py self members (to_parent py self members fuel)
      c inst name kw s in
  2 * rank c + 1 <= fuel ->
  ranked members rank
  \/ (ranked_through_plain members rank
      /\ kw_from_arr kw = false
      /\ forall k v, In (k, v) (members c) ->
                     itemless members v (getattr inst k)) ->
  returns run /\ (push_free inst = true -> finished run).
Proof.
  intros run Hf H.
  assert (R : returns run).
  { subst run. destruct H as [R|(R & K & I)]; apply returns_complex_model;
      intros k v Hin name' s'.
    - apply (to_parent_returns py self members rank R).
      pose proof (R c k v Hin). lia.
    - apply (to_parent_itemless_returns py self members rank R); auto; [lia|].
      intros P. pose proof (R c k v Hin P). lia. }
  split; [exact R|]. intros P.
  apply returned_unsuspended_finished; [exact R|].
  apply complex_model_unsuspended. intros k v name' s'.
  apply to_parent_unsuspended. now apply push_free_getattr.
Qed.

(** The same at a tree whose children are trees, for a tree without
    children. *)
Lemma schema_walk_returns_witness :
  let inst := VObj [("children", VList [])] in
  let run :=
    complex_model_to_parent Sample.python3 Sample.self Sample.tree_members
      (to_parent Sample.python3 Sample.self Sample.tree_members 3)
      (Sample.complex "Tree") inst "Tree" None state0 in
  2 * Sample.rank (Sample.complex "Tree") + 1 <= 3
  /\ (ranked Sample.tree_members Sample.rank
      \/ (ranked_through_plain Sample.tree_members Sample.rank
          /\ kw_from_arr None = false
          /\ forall k v, In (k, v) (Sample.tree_members (Sample.complex "Tree")) ->
                         itemless Sample.tree_members v (getattr inst k)))
  /\ push_free inst = true
  /\ returns run /\ finished run.
Proof.
  intros inst run.
  assert (F : 2 * Sample.rank (Sample.complex "Tree") + 1 <= 3) by (cbn; lia).
  assert (H : ranked Sample.tree_members Sample.rank
              \/ (ranked_through_plain Sample.tree_members Sample.rank
                  /\ kw_from_arr None = false
                  /\ forall k v, In (k, v) (Sample.tree_members (Sample.complex "Tree")) ->
                                 itemless Sample.tree_members v (getattr inst k))).
  { right. split; [exact sample_tree_ranked|]. split; [reflexivity|].
    intros k v [E|[]]. injection E as <- <-.
    apply itemless_array; reflexivity. }
  assert (P : push_free inst = true) by reflexivity.
  split; [exact F|]. split; [exact H|]. split; [exact P|].
  destruct (schema_walk_returns Sample.python3 Sample.self Sample.tree_members
              Sample.rank (Sample.complex "Tree") inst "Tree" None state0 3 F H)
    as [R Fi].
  split; [exact R|exact (Fi P)].
Defined.

(** On the class that refers to itself the walk uses up any budget, for
    every instance, [None] included. *)
Lemma cyclic_complex_out_of_fuel (py : interpreter)
    (tp : cls -> value -> string -> kwargs -> M (option gen)) :
  (forall inst name kw s,
     outcome (tp (Sample.complex "Node") inst name kw s) = OutOfFuel) ->
  forall inst name kw s,
    outcome (complex_model_to_parent py Sample.self Sample.members tp
               (Sample.complex "Node") inst name kw s) = OutOfFuel.
Proof.
  intros H inst name kw s. unfold complex_model_to_parent.
  change (Sample.members (Sample.complex "Node"))
    with [("next", Sample.complex "Node")].
  generalize (if String.eqb name (get_type_name (Sample.complex "Node"))
              then "" else name).
  intros name'. monad_red. cbn -[String.eqb String.length]. monad_red.
  match goal with
  | |- context [tp ?a ?b ?c ?d ?e] =>
      assert (Hx : snd (tp a b c d e) = OutOfFuel) by apply H;
      destruct (tp a b c d e) as [[t s1] r]
  end.
  cbn in Hx. subst r. reflexivity.
Qed.

Lemma cyclic_walk_out_of_fuel (py : interpreter) (fuel : nat) :
  forall inst name kw s,
    outcome (to_parent py Sample.self Sample.members fuel (Sample.complex "Node")
               inst name kw s) = OutOfFuel.
Proof.
  induction fuel as [|n IH]; intros inst name kw s; [reflexivity|].
  cbn [to_parent].
  replace (negb (kw_from_arr kw)
           && exceeds_one (Attributes.max_occurs (get_cls_attrs (Sample.complex "Node"))))
    with false by (cbn; now rewrite andb_false_r).
  cbn [cls_kind Sample.complex].
  now apply cyclic_complex_out_of_fuel.
Qed.

(** C3 as stated fails on a class that refers to itself through a
    member that occurs once: with [None] for the instance no budget
    lets the walk come back, on either interpreter. *)
Lemma cyclic_schema_walk_never_returns :
  ~ exists (py : interpreter) (fuel : nat),
      returns (complex_model_to_parent py Sample.self Sample.members
                 (to_parent py Sample.self Sample.members fuel)
                 (Sample.complex "Node") VNone "Node" None state0).
Proof.
  intros (py & fuel & H). apply H.
  exact (cyclic_walk_out_of_fuel py (S fuel) VNone "Node" None state0).
Qed.

(** ** Tabs and fieldsets *)

(** C1 on Python 3, at two classes that mix annotated and unannotated
    members: the sort of the members stops at the comparison of [None]
    with a tuple, for a fieldset as for a tab, and nothing of the class
    is rendered but the legend.  On Python 2, which puts [None] first,
    the same two classes are rendered to the end. *)
Theorem mixed_annotations_raise (up : ascii -> bool) (lo : ascii -> string) :
  let py3 := {| none_first := false;
                isupper_past_ascii := up; lower_past_ascii := lo |} in
  let py2 := {| none_first := true;
                isupper_past_ascii := up; lower_past_ascii := lo |} in
  lt_form_key py3 (_form_key ("b", Sample.text_in_details))
    (_form_key ("a", Sample.text))
  = Raise TypeError
  /\ complex_model_to_parent py3 Sample.self Sample.members
       (to_parent py3 Sample.self Sample.members 1)
       (Sample.complex "Mixed") VNone "Mixed" None state0
     = ([Enter 0 "fieldset" []; Write (Elt "legend" [] [Txt "Mixed"]); Exit 0],
        state0, Raise TypeError)
  /\ complex_model_to_parent py3 Sample.self Sample.members
       (to_parent py3 Sample.self Sample.members 1)
       (Sample.complex "Tabbed") VNone "Tabbed" None state0
     = ([Enter 0 "fieldset" []; Write (Elt "legend" [] [Txt "Tabbed"]); Exit 0],
        state0, Raise TypeError)
  /\ outcome (complex_model_to_parent py2 Sample.self Sample.members
                (to_parent py2 Sample.self Sample.members 1)
                (Sample.complex "Mixed") VNone "Mixed" None state0)
     = Ok None
  /\ outcome (complex_model_to_parent py2 Sample.self Sample.members
                (to_parent py2 Sample.self Sample.members 1)
                (Sample.complex "Tabbed") VNone "Tabbed" None state0)
     = Ok None.
Proof.
  repeat split; vm_compute; reflexivity.
Qed.

Lemma bind_ok_inv {A B} (m : M A) (f : A -> M B) (s s' : state)
    (t : list event) (b : B) :
  bind m f s = (t, s', Ok b) ->
  exists t1 s1 a t2,
    m s = (t1, s1, Ok a) /\ f a s1 = (t2, s', Ok b) /\ t = (t1 ++ t2)%list.
Proof.
  unfold bind. destruct (m s) as [[t1 s1] [a|e|]]; try discriminate.
  destruct (f a s1) as [[t2 s2] r] eqn:E. intros [= <- <- ->].
  now exists t1, s1, a, t2.
Qed.

Lemma nesting_app (t1 t2 : list event) :
  forall stack next,
    nesting stack next (t1 ++ t2)
    = match nesting stack next t1 with
      | Some (stack', next') => nesting stack' next' t2
      | None => None
      end.
Proof.
  induction t1 as [|e t1 IH]; intros stack next; cbn; [reflexivity|].
  destruct e as [c tag a|c|n|name evs|evs]; auto.
  - destruct (Nat.eqb c next); auto.
  - destruct stack as [|top stack]; auto. destruct (Nat.eqb c top); auto.
Qed.

Lemma nesting_steps (t1 t2 : list event) stack next stack' next' :
  nesting stack next t1 = Some (stack', next') ->
  nesting stack next (t1 ++ t2) = nesting stack' next' t2.
Proof. intros H. now rewrite nesting_app, H. Qed.

Section Grouping.

Variable py : interpreter.
Variable self : HtmlForm.
Variable members : cls -> list (string * cls).
Variable tp : cls -> value -> string -> kwargs -> M (option gen).

Lemma tab_transition_nesting fti subattr l s t s' l' :
  tab_transition py fti subattr l s = (t, s', Ok l') ->
  no_tab_yet l ->
  nesting (open_contexts l) (CM.n_ctx l) t
  = Some (open_contexts l', CM.n_ctx l')
  /\ no_tab_yet l'.
Proof.
  destruct l as [pf fc f pt tc tb tvc tvid n].
  unfold tab_transition, no_tab_yet, open_contexts. cbn [CM.prev_tab CM.tab_ctx
    CM.tabview_ctx CM.fset_ctx CM.n_ctx CM.prev_fset CM.fset CM.tab CM.tabview_id].
  destruct (is_tab (Attributes.tab subattr) pt).
  - intros [= <- <- <-] H. cbn. auto.
  - intros E H. revert E.
    destruct pt as [p|].
    + destruct fc, tc, tvc, (Attributes.tab subattr); monad_red; cbn;
        intros [= <- <- <-]; cbn; rewrite ?Nat.eqb_refl; cbn;
        split; try reflexivity; discriminate.
    + destruct (H eq_refl) as [-> ->].
      unfold next_counter.
      destruct fc, (Attributes.tab subattr), (_gen_tab_headers py fti); monad_red; cbn;
        try discriminate;
        intros [= <- <- <-]; cbn; rewrite ?Nat.eqb_refl; cbn;
        split; try reflexivity; discriminate.
Qed.

Lemma fset_transition_nesting k subattr l s t s' l' :
  fset_transition k subattr l s = (t, s', Ok l') ->
  no_tab_yet l ->
  nesting (open_contexts l) (CM.n_ctx l) t
  = Some (open_contexts l', CM.n_ctx l')
  /\ no_tab_yet l'.
Proof.
  destruct l as [pf fc f pt tc tb tvc tvid n].
  unfold fset_transition, no_tab_yet, open_contexts. cbn [CM.prev_tab CM.tab_ctx
    CM.tabview_ctx CM.fset_ctx CM.n_ctx CM.prev_fset CM.fset CM.tab CM.tabview_id].
  destruct (is_fset (Attributes.fieldset subattr) pf).
  - intros [= <- <- <-] H. cbn. auto.
  - intros E H. revert E.
    destruct fc, (Attributes.fieldset subattr); monad_red; cbn;
      try discriminate;
      intros [= <- <- <-]; cbn; rewrite ?Nat.eqb_refl; cbn; auto.
Qed.

Lemma cm_finish_nesting l s t s' :
  cm_finish l s = (t, s', Ok tt) ->
  nesting (open_contexts l) (CM.n_ctx l) t = Some ([0], CM.n_ctx l).
Proof.
  destruct l as [pf fc f pt tc tb tvc tvid n].
  unfold cm_finish, open_contexts. cbn [CM.prev_tab CM.tab_ctx
    CM.tabview_ctx CM.fset_ctx CM.n_ctx CM.prev_fset CM.fset CM.tab CM.tabview_id].
  destruct fc, tc, tvc; monad_red; cbn; intros [= <- <-]; cbn;
    rewrite ?Nat.eqb_refl; reflexivity.
Qed.

Lemma nested_inv {A} (wrap : list event -> event) (m : M A) s t s' r :
  nested wrap m s = (t, s', r) -> exists t0, t = [wrap t0].
Proof.
  unfold nested. destruct (m s) as [[t0 s0] r0]. intros [= <- _ _]. eauto.
Qed.

Lemma forward_ok_trace (f : msg -> M (option gen)) m s t s' r :
  forward f m s = (t, s', Ok r) -> exists t0, t = [Resume t0].
Proof.
  unfold forward. destruct m as [y|].
  - intros E. apply bind_ok_inv in E as (t1 & s1 & a & t2 & E1 & E2 & ->).
    apply nested_inv in E1 as [t0 ->].
    destruct a; [|discriminate]. injection E2 as <- _ _. cbn. eauto.
  - intros E. apply bind_ok_inv in E as (t1 & s1 & a & t2 & E1 & E2 & ->).
    apply nested_inv in E1 as [t0 ->]. injection E2 as <- _ _. cbn. eauto.
Qed.

Lemma with_suspendable_ok_inv c (body : M (option gen)) s t s' x :
  with_suspendable c body s = (t, s', Ok x) ->
  exists t0, body s = (t0, s', Ok x)
             /\ t = match x with Some _ => t0 | None => (t0 ++ [Exit c])%list end.
Proof.
  unfold with_suspendable. destruct (body s) as [[t0 s0] [[g|]|e|]];
    intros [= <- <- <-]; eauto.
Qed.

Lemma stands_compose final stack next t0 a b t r :
  nesting stack next t0 = Some (a, b) ->
  stands final a b t r -> stands final stack next (t0 ++ t) r.
Proof.
  intros H. unfold stands. rewrite (nesting_steps _ _ _ _ _ _ H). auto.
Qed.

Lemma cm_loop_stands inst name kw fti (fields : list (string * cls)) :
  forall l s t s' r,
    cm_loop py self tp inst name kw fti l fields s = (t, s', r) ->
    no_tab_yet l ->
    stands [0] (open_contexts l) (CM.n_ctx l) t r.
Proof.
  induction fields as [|[k v] fields IH]; intros l s t s' r E W;
    cbn [cm_loop] in E.
  - destruct r as [x|e|]; cbn; auto.
    apply bind_ok_inv in E as (t1 & s1 & [] & t2 & E1 & E2 & ->).
    injection E2 as <- _ <-. cbn. rewrite app_nil_r.
    rewrite (cm_finish_nesting _ _ _ _ E1). eauto.
  - destruct (Attributes.exc (get_cls_attrs v)); [now apply (IH l s t s' r)|].
    destruct r as [x|e|]; try exact I.
    apply bind_ok_inv in E as (t1 & s1 & l1 & t2 & E1 & E2 & ->).
    apply bind_ok_inv in E2 as (t2' & s2 & l2 & t3 & E2 & E3 & ->).
    apply bind_ok_inv in E3 as (t3' & s3 & r0 & t4 & E3 & E4 & ->).
    destruct (tab_transition_nesting _ _ _ _ _ _ _ E1 W) as [N1 W1].
    destruct (fset_transition_nesting _ _ _ _ _ _ _ E2 W1) as [N2 W2].
    apply nested_inv in E3 as [t0 ->].
    apply (stands_compose _ _ _ _ _ _ _ _ N1).
    apply (stands_compose _ _ _ _ _ _ _ _ N2).
    apply (stands_compose [0] (open_contexts l2) (CM.n_ctx l2)
             [Call (child_key self name k) t0] _ _ _ _ eq_refl).
    destruct r0 as [g|].
    + injection E4 as <- _ <-. cbn. auto.
    + now apply (IH l2 s3 t4 s' (Ok x)).
Qed.

Lemma stands_close a b t x :
  stands [0] a b t (Ok x) ->
  stands [] a b (match x with Some _ => t | None => (t ++ [Exit 0])%list end) (Ok x).
Proof.
  destruct x as [g|]; [auto|]. intros [n S]. exists n.
  rewrite nesting_app, S. reflexivity.
Qed.

Lemma complex_model_stands c inst name kw s t s' r :
  complex_model_to_parent py self members tp c inst name kw s = (t, s', r) ->
  stands [] [] 0 t r.
Proof.
  unfold complex_model_to_parent. intros E.
  destruct r as [x|e|]; try exact I.
  apply bind_ok_inv in E as (t1 & s1 & [] & t2 & E1 & E2 & ->).
  injection E1 as <- <-.
  apply with_suspendable_ok_inv in E2 as (t0 & E2 & ->).
  apply bind_ok_inv in E2 as (t1 & s2 & [] & t3 & E1 & E2 & ->).
  injection E1 as <- <-.
  apply bind_ok_inv in E2 as (t1 & s3 & fields & t4 & E1 & E2 & ->).
  unfold lift in E1. injection E1 as <- <- E1.
  apply (stands_compose [] [] 0 [Enter 0 "fieldset" []] [0] 1 _ _ eq_refl).
  apply stands_close.
  apply (stands_compose [0] [0] 1 [Write _] [0] 1 _ _ eq_refl).
  apply (stands_compose [0] [0] 1 [] [0] 1 _ _ eq_refl).
  apply (cm_loop_stands _ _ _ _ _ _ _ _ _ _ E2).
  intros _. split; reflexivity.
Qed.

Lemma resume_complex_stands child fr m s t s' r :
  no_tab_yet (CM.loc fr) ->
  resume py self tp (GComplex child fr) m s = (t, s', r) ->
  stands [] (open_contexts (CM.loc fr)) (CM.n_ctx (CM.loc fr)) t r.
Proof.
  intros W E. cbn [resume] in E.
  destruct r as [x|e|]; try exact I.
  apply with_suspendable_ok_inv in E as (t0 & E & ->).
  apply stands_close.
  apply bind_ok_inv in E as (t1 & s1 & r0 & t2 & E1 & E2 & ->).
  apply forward_ok_trace in E1 as [tr ->].
  apply (stands_compose [0] (open_contexts (CM.loc fr)) (CM.n_ctx (CM.loc fr))
             [Resume tr] _ _ _ _ eq_refl).
  destruct r0 as [child'|].
  - injection E2 as <- _ <-. cbn. auto.
  - apply (cm_loop_stands _ _ _ _ _ _ _ _ _ _ E2 W).
Qed.

Lemma drive_stands (msgs : list msg) :
  forall g s t s' r stack next t0,
    stands [] stack next t0 (Ok g) ->
    drive (resume py self tp) g msgs s = (t, s', r) ->
    stands [] stack next (t0 ++ t) r.
Proof.
  induction msgs as [|m msgs IH]; intros g s t s' r stack next t0 S E.
  - destruct g; injection E as <- _ <-; now rewrite app_nil_r.
  - destruct g as [g|]; cbn [drive] in E.
    2:{ injection E as <- _ <-. now rewrite app_nil_r. }
    destruct r as [x|e|]; try exact I.
    apply bind_ok_inv in E as (t1 & s1 & r1 & t2 & E1 & E2 & ->).
    cbn in S. destruct g as [child fr| | |]; try contradiction.
    destruct S as [N W].
    pose proof (resume_complex_stands _ _ _ _ _ _ _ W E1) as S1.
    rewrite app_assoc. eapply IH; [|exact E2].
    now apply (stands_compose _ _ _ _ _ _ _ _ N).
Qed.

End Grouping.

(** What a balanced trace says of each context. *)

Lemma nesting_counts (t : list event) :
  forall stack next stack' next' c,
    nesting stack next t = Some (stack', next') ->
    exits c t + count_occ Nat.eq_dec stack' c
    = count_occ Nat.eq_dec stack c + enters c t.
Proof.
  induction t as [|e t IH]; intros stack next stack' next' c H; cbn in H.
  - injection H as <- <-. cbn. lia.
  - destruct e as [c0 tag a|c0|n|name evs|evs]; cbn [enters exits];
      try (now apply (IH _ _ _ _ c H)).
    + destruct (Nat.eqb c0 next) eqn:E0; [|discriminate].
      specialize (IH _ _ _ _ c H). cbn [count_occ] in IH.
      destruct (Nat.eq_dec c0 c) as [->|N].
      * rewrite Nat.eqb_refl. lia.
      * apply Nat.eqb_neq in N. rewrite Nat.eqb_sym in N. rewrite N. lia.
    + destruct stack as [|top stack]; [discriminate|].
      destruct (Nat.eqb c0 top) eqn:E0; [|discriminate].
      apply Nat.eqb_eq in E0. subst top.
      specialize (IH _ _ _ _ c H). cbn [count_occ].
      destruct (Nat.eq_dec c0 c) as [->|N].
      * rewrite Nat.eqb_refl. lia.
      * apply Nat.eqb_neq in N. rewrite Nat.eqb_sym in N. rewrite N. lia.
Qed.

Lemma nesting_enters (t : list event) :
  forall stack next stack' next' c,
    nesting stack next t = Some (stack', next') ->
    next <= next'
    /\ enters c t = if Nat.leb next c && Nat.ltb c next' then 1 else 0.
Proof.
  induction t as [|e t IH]; intros stack next stack' next' c H; cbn in H.
  - injection H as _ <-. split; [lia|]. cbn [enters].
    destruct (Nat.leb_spec next c), (Nat.ltb_spec c next); cbn; auto; lia.
  - destruct e as [c0 tag a|c0|n|name evs|evs]; cbn [enters];
      try (now apply (IH _ _ _ _ c H)).
    + destruct (Nat.eqb c0 next) eqn:E0; [|discriminate].
      apply Nat.eqb_eq in E0. subst c0.
      destruct (IH _ _ _ _ c H) as [L ->]. split; [lia|].
      destruct (Nat.eqb_spec c next), (Nat.leb_spec (S next) c),
        (Nat.leb_spec next c), (Nat.ltb_spec c next'); cbn; lia.
    + destruct stack as [|top stack]; [discriminate|].
      destruct (Nat.eqb c0 top); [|discriminate].
      now apply (IH _ _ _ _ c H).
Qed.

Lemma balanced_once (t : list event) :
  balanced t -> forall c, exits c t = enters c t /\ enters c t <= 1.
Proof.
  intros [n H] c.
  pose proof (nesting_counts t _ _ _ _ c H) as C.
  destruct (nesting_enters t _ _ _ _ c H) as [_ E].
  cbn in C. split; [lia|]. rewrite E. destruct (_ && _); lia.
Qed.

(** When the call of [complex_model_to_parent] runs to the end of its
    body without suspending, the contexts it entered itself (the
    fieldset of the class, the tab view, the tab divs, the fieldsets)
    have all been exited, innermost first, each entered once and exited
    once. *)
Lemma grouping_contexts_balanced_on_return (py : interpreter) (self : HtmlForm)
    (members : cls -> list (string * cls))
    (tp : cls -> value -> string -> kwargs -> M (option gen))
    (c : cls) (inst : value) (name : string) (kw : kwargs) (s : state) :
  let run := complex_model_to_parent py self members tp c inst name kw s in
  outcome run = Ok None ->
  balanced (trace run)
  /\ forall ctx, exits ctx (trace run) = enters ctx (trace run)
                 /\ enters ctx (trace run) <= 1.
Proof.
  intros run H.
  assert (B : balanced (trace run)).
  { subst run.
    destruct (complex_model_to_parent _ _ _ _ _ _ _ _ s) as [[t s'] r] eqn:E.
    cbn in H. subst r. cbn [trace fst].
    exact (complex_model_stands _ _ _ _ _ _ _ _ _ _ _ _ E). }
  split; [exact B|]. now apply balanced_once.
Qed.

Lemma resume_complex_break (py : interpreter) (self : HtmlForm)
    (tp : cls -> value -> string -> kwargs -> M (option gen))
    (child : gen) (fr : CM.frame) (s : state) :
  outcome (resume py self tp child ThrowBreak s) = Raise Break ->
  trace (resume py self tp (GComplex child fr) ThrowBreak s)
  = [Resume (trace (resume py self tp child ThrowBreak s)); Exit 0]
  /\ outcome (resume py self tp (GComplex child fr) ThrowBreak s) = Raise Break.
Proof.
  intros B. cbn [resume]. unfold forward. monad_red.
  destruct (resume py self tp child ThrowBreak s) as [[t s1] r].
  cbn in B. subst r. split; reflexivity.
Qed.

Lemma break_comes_back (py : interpreter) (self : HtmlForm)
    (tp : cls -> value -> string -> kwargs -> M (option gen)) (g : gen) :
  forall s, outcome (resume py self tp g ThrowBreak s) = Raise Break.
Proof.
  induction g as [child IH fr|child IH fr|fr|child IH fr]; intros s;
    cbn [resume]; unfold forward; monad_red;
    try (specialize (IH s);
         destruct (resume py self tp child ThrowBreak s) as [[t s1] r];
         cbn in IH; subst r);
    reflexivity.
Qed.

(** C4 fails where the coroutine has suspended. A suspended coroutine
    is ended by [Break], and [Break] thrown into it goes down to the
    push generator at the bottom, which lets it through: the coroutine
    passes it on, exiting the fieldset of the class, which a [with]
    holds, and none of the tab view, the tab div and the fieldset that
    its frame holds open, which are exited by hand further down.  At a
    class with a pushed array inside a fieldset, the fieldset (context
    1) is entered and never exited. *)
Theorem break_leaves_fieldset_open (py : interpreter) (self : HtmlForm)
    (tp : cls -> value -> string -> kwargs -> M (option gen))
    (child : gen) (fr : CM.frame) (s : state) :
  (trace (resume py self tp (GComplex child fr) ThrowBreak s)
   = [Resume (trace (resume py self tp child ThrowBreak s)); Exit 0]
   /\ outcome (resume py self tp (GComplex child fr) ThrowBreak s) = Raise Break)
  /\ let run :=
       render_and_drive py Sample.self Sample.members
         (to_parent py Sample.self Sample.members 1)
         (Sample.complex "Tagged") (VObj [("tags", VPush)])
         "Tagged" None [ThrowBreak] state0 in
     outcome run = Raise Break
     /\ trace run
        = [ Enter 0 "fieldset" [];
            Write (Elt "legend" [] [Txt "Tagged"]);
            Enter 1 "fieldset" [];
            Write (Elt "legend" [] [Txt "Details"]);
            Call "tags"
              [ Enter 0 "div" [("id", "tags_container"); ("class", "array")];
                Call "tags" [Enter 0 "div" [("class", "tags")]];
                Exit 0 ];
            Resume [Exit 0];
            Exit 0 ]
     /\ enters 1 (trace run) = 1
     /\ exits 1 (trace run) = 0.
Proof.
  split.
  - apply resume_complex_break, break_comes_back.
  - repeat split; vm_compute; reflexivity.
Qed.

(** * Further properties *)

(** ** Keys and ids *)

Lemma all_chars_app (p : ascii -> bool) (a b : string) :
  all_chars p (a ++ b) = all_chars p a && all_chars p b.
Proof.
  induction a as [|c a IH]; cbn; [reflexivity|]. now rewrite IH, andb_assoc.
Qed.

Lemma selsafe_char_plain (c : ascii) :
  is_special c = false -> selsafe_char c = String c "".
Proof.
  unfold is_special, selsafe_char. intros H.
  apply orb_false_elim in H as [H H3]. apply orb_false_elim in H as [H1 H2].
  now rewrite H1, H2, H3.
Qed.

Lemma selsafe_plain (s : string) :
  all_chars (fun c => negb (is_special c)) s = true -> selsafe s = s.
Proof.
  rewrite selsafe_flat_map. induction s as [|c s IH]; cbn; [reflexivity|].
  intros H. apply andb_prop in H as [Hc Hs].
  apply negb_true_iff in Hc. rewrite (selsafe_char_plain c Hc), (IH Hs).
  reflexivity.
Qed.

Lemma digit_not_special (c : ascii) : is_digit c = true -> is_special c = false.
Proof.
  destruct c as [[] [] [] [] [] [] [] []]; vm_compute; congruence.
Qed.

Lemma all_chars_weaken (p q : ascii -> bool) (s : string) :
  (forall c, p c = true -> q c = true) ->
  all_chars p s = true -> all_chars q s = true.
Proof.
  intros H. induction s as [|c s IH]; cbn; [auto|].
  intros E. apply andb_prop in E as [Hc Hs]. now rewrite (H c Hc), (IH Hs).
Qed.

Lemma digits_of_uint (d : Decimal.uint) :
  all_chars is_digit (NilEmpty.string_of_uint d) = true.
Proof. induction d; cbn; auto. Qed.

Lemma digits_str_N (n : N) : all_chars is_digit (Py.str_N n) = true.
Proof.
  unfold Py.str_N, NilZero.string_of_uint.
  destruct (N.to_uint n) eqn:E; try (rewrite <- E; apply digits_of_uint).
  reflexivity.
Qed.

Lemma digits_zeros (k : nat) : all_chars is_digit (Py.zeros k) = true.
Proof. induction k; cbn; auto. Qed.

Lemma digits_fmt_09d (i : nat) :
  all_chars is_digit (Py.fmt_09d (Z.of_nat i)) = true.
Proof.
  unfold Py.fmt_09d, Py.zfill.
  destruct (Z.of_nat i) eqn:E; try lia;
    now rewrite all_chars_app, digits_zeros, digits_str_N.
Qed.

Lemma selsafe_concat (a b : string) :
  selsafe (a ++ b) = selsafe a ++ selsafe b.
Proof. rewrite !selsafe_flat_map. apply flat_map_chars_app. Qed.

Lemma selsafe_again (s : string) : selsafe (selsafe s) = selsafe s.
Proof.
  rewrite !selsafe_flat_map, flat_map_chars_compose.
  apply flat_map_chars_ext, selsafe_char_fixed.
Qed.

Lemma selsafe_clean (s : string) :
  all_chars (fun c => negb (is_special c)) (selsafe s) = true.
Proof.
  rewrite selsafe_flat_map. induction s as [|c s IH]; [reflexivity|].
  cbn [flat_map_chars]. rewrite all_chars_app, IH, andb_true_r.
  unfold selsafe_char, is_special.
  destruct (Ascii.eqb c "[") eqn:E1; [reflexivity|].
  destruct (Ascii.eqb c "]") eqn:E2; [reflexivity|].
  destruct (Ascii.eqb c ".") eqn:E3; [reflexivity|].
  cbn. now rewrite E1, E2, E3.
Qed.

Lemma digits_plain (s : string) :
  all_chars is_digit s = true ->
  all_chars (fun c => negb (is_special c)) s = true.
Proof.
  apply all_chars_weaken. intros c H. now rewrite (digit_not_special c H).
Qed.

Lemma length_append (a b : string) :
  String.length (a ++ b) = String.length a + String.length b.
Proof. induction a; cbn; auto. Qed.

Lemma append_inv_tail (x y t : string) : x ++ t = y ++ t -> x = y.
Proof.
  intros E.
  assert (L : String.length x = String.length y).
  { apply (f_equal String.length) in E. rewrite !length_append in E. lia. }
  revert y E L. induction x as [|a x IH]; intros [|b y] E L; cbn in *;
    try discriminate; [reflexivity|].
  injection E as -> E. f_equal. apply IH; [exact E|lia].
Qed.

(** X1. [selsafe] works character by character, so the safe form of a
    concatenation is the concatenation of the safe forms. *)
Theorem selsafe_app (a b : string) :
  selsafe (a ++ b) = selsafe a ++ selsafe b.
Proof.
  rewrite !selsafe_flat_map. apply flat_map_chars_app.
Qed.

Lemma selsafe_item_key (name : string) (i : nat) :
  selsafe (item_key (selsafe name) (Z.of_nat i))
  = selsafe name ++ Py.fmt_09d (Z.of_nat i).
Proof.
  unfold item_key. rewrite !selsafe_concat, selsafe_again.
  rewrite (selsafe_plain (Py.fmt_09d _)) by apply digits_plain, digits_fmt_09d.
  change (selsafe "[") with "". change (selsafe "]") with "".
  cbn [append]. now rewrite append_nil_r.
Qed.

(** X2. The inputs of the items of an array get ids that are free of
    brackets and dots and differ from item to item: the id of item [i]
    under [name] is the safe name, the digits of [i] filled to nine and
    [_input]. *)
Theorem array_input_ids (name : string) (i j : nat) :
  let id n := _gen_input_elt_id (item_key (selsafe name) (Z.of_nat n)) None in
  id i = selsafe name ++ Py.fmt_09d (Z.of_nat i) ++ "_input"
  /\ all_chars (fun c => negb (is_special c)) (id i) = true
  /\ (id i = id j <-> i = j).
Proof.
  intros id. subst id. unfold _gen_input_elt_id. rewrite !selsafe_item_key.
  split; [now rewrite append_assoc|]. split.
  - rewrite !all_chars_app, selsafe_clean.
    now rewrite (digits_plain _ (digits_fmt_09d i)).
  - split; [|now intros ->].
    intros E. apply append_inv_tail, append_inv_head in E.
    assert (D : decode_index (Py.fmt_09d (Z.of_nat i))
                = decode_index (Py.fmt_09d (Z.of_nat j))) by now rewrite E.
    rewrite !decode_fmt_09d in D by lia. injection D as D. lia.
Qed.

(** X17. [selsafe] is not one to one, so distinct names share an input
    id: the nested name [x.y] and the flat name [x__y] get the same id,
    and so do the key of item [i] of the array [x] and the name made of
    [x] and the nine digits of [i]. *)
Theorem distinct_names_share_ids (x y : string) (i : nat) :
  (_gen_input_elt_id (x ++ "." ++ y) None = _gen_input_elt_id (x ++ "__" ++ y) None
   /\ x ++ "." ++ y <> x ++ "__" ++ y)
  /\ (_gen_input_elt_id (item_key x (Z.of_nat i)) None
      = _gen_input_elt_id (x ++ Py.fmt_09d (Z.of_nat i)) None
      /\ item_key x (Z.of_nat i) <> x ++ Py.fmt_09d (Z.of_nat i)).
Proof.
  unfold _gen_input_elt_id, item_key. split; split.
  - now rewrite !selsafe_concat.
  - intros E. apply append_inv_head in E. discriminate.
  - rewrite !selsafe_concat.
    change (selsafe "[") with "". change (selsafe "]") with "".
    cbn [append]. now rewrite append_nil_r.
  - intros E. apply append_inv_head in E.
    apply (f_equal String.length) in E. rewrite !length_append in E.
    cbn in E. lia.
Qed.

(** ** Class names *)

Lemma lower_ascii (py : interpreter) (c : ascii) :
  is_ascii c = true ->
  exists d, Py.lower py c = String d "" /\ Py.isupper py d = false.
Proof.
  destruct c as [[] [] [] [] [] [] [] []]; intros H;
    try discriminate H; eexists; split; vm_compute; reflexivity.
Qed.

Lemma uscore_gen_no_upper (py : interpreter) (s : string) :
  all_chars is_ascii s = true ->
  forall i, no_upper py (camel_case_to_uscore_gen py i s) = true.
Proof.
  unfold no_upper. induction s as [|c s IH]; intros A i; [reflexivity|].
  cbn in A. apply andb_prop in A as [Ac As].
  cbn [camel_case_to_uscore_gen]. rewrite all_chars_app, (IH As), andb_true_r.
  destruct (Py.isupper py c) eqn:U.
  - rewrite all_chars_app.
    destruct (lower_ascii py c Ac) as (d & -> & L). cbn. rewrite L.
    destruct i; [reflexivity|]. cbn.
    now destruct (isupper_past_ascii py "_"%char).
  - cbn. now rewrite U.
Qed.

Lemma uscore_gen_fixed (py : interpreter) (s : string) :
  forall i, no_upper py s = true -> camel_case_to_uscore_gen py i s = s.
Proof.
  unfold no_upper. induction s as [|c s IH]; intros i H; [reflexivity|].
  cbn in H. apply andb_prop in H as [Hc Hs]. apply negb_true_iff in Hc.
  cbn [camel_case_to_uscore_gen]. rewrite Hc, (IH _ Hs). reflexivity.
Qed.

(** Past ASCII the conversion need not be idempotent: a character that
    counts as upper case and has no lower-case form of its own (the
    double-struck capital C is one on Python 3) gets one more underscore
    at every pass. *)
Lemma camel_case_to_uscore_caseless_upper (py : interpreter) (c : ascii) :
  Py.isupper py c = true -> Py.lower py c = String c "" ->
  camel_case_to_uscore py (String "a" (String c "")) = String "a" (String "_" (String c ""))
  /\ camel_case_to_uscore py (String "a" (String "_" (String c "")))
     = String "a" (String "_" (String "_" (String c ""))).
Proof.
  intros U L. unfold camel_case_to_uscore.
  assert (Ha : Py.isupper py "a"%char = false) by (vm_compute; reflexivity).
  assert (Hu : Py.isupper py "_"%char = false) by (vm_compute; reflexivity).
  split; cbn [camel_case_to_uscore_gen]; rewrite ?Ha, ?Hu, U, L; reflexivity.
Qed.

(** X3. On a name of ASCII characters [camel_case_to_uscore] leaves no
    upper-case letter in its result, and applied to its own result it
    changes nothing. *)
Theorem camel_case_to_uscore_idempotent (py : interpreter) (s : string) :
  all_chars is_ascii s = true ->
  no_upper py (camel_case_to_uscore py s) = true
  /\ camel_case_to_uscore py (camel_case_to_uscore py s)
     = camel_case_to_uscore py s.
Proof.
  intros A. unfold camel_case_to_uscore.
  split; [now apply uscore_gen_no_upper|].
  now apply uscore_gen_fixed, uscore_gen_no_upper.
Qed.

Lemma camel_case_to_uscore_idempotent_witness :
  all_chars is_ascii "AnyUri" = true
  /\ camel_case_to_uscore Sample.python3 "AnyUri" = "any_uri"
  /\ no_upper Sample.python3 (camel_case_to_uscore Sample.python3 "AnyUri") = true
  /\ camel_case_to_uscore Sample.python3
       (camel_case_to_uscore Sample.python3 "AnyUri")
     = camel_case_to_uscore Sample.python3 "AnyUri".
Proof.
  assert (A : all_chars is_ascii "AnyUri" = true) by (vm_compute; reflexivity).
  split; [exact A|]. split; [vm_compute; reflexivity|].
  exact (camel_case_to_uscore_idempotent Sample.python3 "AnyUri" A).
Defined.

(** ** Inputs *)

Ltac split_key k :=
  repeat match goal with
         | |- context [String.eqb k ?x] =>
             destruct (String.eqb_spec k x) as [->|?];
             cbn [String.eqb Ascii.eqb Bool.eqb]
         end.

Lemma gen_input_get py self c inst name a :
  exists d, _gen_input py self c inst name a = Elt "input" d []
    /\ forall k, Dict.get k d = input_attribute py self c inst name a k.
Proof.
  unfold _gen_input, _gen_input_attrs, _gen_input_attrs_novalue,
    _gen_input_elt_id, _gen_input_name, input_attribute.
  generalize (selsafe name ++ "_input") as i.
  generalize (camel_case_to_uscore py (get_type_name c)) as cl. intros cl i.
  destruct (Attributes.pattern a), (is_required a), (to_unicode self c inst);
    cbn; eexists; (split; [reflexivity|]); intros k; cbn [Dict.get];
    split_key k; reflexivity.
Qed.

Lemma gen_input_attrs_get py self c inst name a k :
  Dict.get k (_gen_input_attrs py self c inst name a)
  = input_attribute py self c inst name a k.
Proof.
  unfold _gen_input_attrs, _gen_input_attrs_novalue,
    _gen_input_elt_id, _gen_input_name, input_attribute.
  generalize (selsafe name ++ "_input") as i.
  generalize (camel_case_to_uscore py (get_type_name c)) as cl. intros cl i.
  destruct (Attributes.pattern a), (is_required a), (to_unicode self c inst);
    cbn; split_key k; reflexivity.
Qed.

(** X4. The input that [_gen_input] builds has exactly these attributes:
    the id made of the safe name and [_input], the name, the class made
    from the type name, the type text, the pattern when the class has
    one, an empty required when [min_occurs] is one and the class is not
    nullable, and the value when the instance converts to one.  Both
    branches of the function agree with [_gen_input_attrs] on every
    attribute. *)
Theorem gen_input_attributes (py : interpreter) (self : HtmlForm) (c : cls) (inst : value)
    (name : string) (a : Attributes.t) :
  exists d,
    _gen_input py self c inst name a = Elt "input" d []
    /\ (forall k, Dict.get k d = input_attribute py self c inst name a k)
    /\ (forall k, Dict.get k d = Dict.get k (_gen_input_attrs py self c inst name a)).
Proof.
  destruct (gen_input_get py self c inst name a) as (d & E & G).
  exists d. split; [exact E|]. split; [exact G|].
  intros k. now rewrite G, gen_input_attrs_get.
Qed.

Ltac open_input_full py self c inst name :=
  let d := fresh "d" in
  let G := fresh "G" in
  destruct (gen_input_get py self c inst name (get_cls_attrs c)) as (d & -> & G).

Ltac read_attr G :=
  repeat (rewrite !get_set; cbn [String.eqb Ascii.eqb Bool.eqb]);
  try (rewrite G; unfold input_attribute; cbn [String.eqb Ascii.eqb Bool.eqb]);
  try reflexivity.

Lemma integer_run py self c inst name s :
  exists d,
    integer_to_parent py self c inst name s
    = ([Write (_idiv [label_for self c name; Elt "input" d []])], s, Ok tt)
    /\ Dict.get "type" d = Some "number"
    /\ Dict.get "min" d = None /\ Dict.get "max" d = None
    /\ Dict.get "maxlength" d
       = (if Z.eqb (Attributes.max_str_len (get_cls_attrs c)) Decimal_max_str_len
          then None
          else Some (Py.str_int (Attributes.max_str_len (get_cls_attrs c)))).
Proof.
  unfold integer_to_parent, label_for. open_input_full py self c inst name.
  run_widget.
  destruct (Z.eqb (Attributes.max_str_len (get_cls_attrs c)) Decimal_max_str_len);
    run_widget; rewrite G; unfold input_attribute at 1;
    cbn [String.eqb Ascii.eqb Bool.eqb];
    (eexists; split; [reflexivity|]); repeat split; read_attr G.
Qed.

Lemma decimal_run py self c inst name s :
  exists d,
    decimal_to_parent py self c inst name s
    = ([Write (_idiv [label_for self c name; Elt "input" d []])], s, Ok tt)
    /\ Dict.get "type" d = Some "number"
    /\ Dict.get "min" d = None /\ Dict.get "max" d = None
    /\ Dict.get "maxlength" d
       = (if Z.eqb (Attributes.max_str_len (get_cls_attrs c)) Decimal_max_str_len
          then None
          else Some (Py.str_int (Attributes.max_str_len (get_cls_attrs c)))).
Proof.
  unfold decimal_to_parent, label_for. open_input_full py self c inst name.
  run_widget.
  destruct (Attributes.fraction_digits (get_cls_attrs c));
  destruct (Z.eqb (Attributes.max_str_len (get_cls_attrs c)) Decimal_max_str_len);
    run_widget; rewrite G; unfold input_attribute at 1;
    cbn [String.eqb Ascii.eqb Bool.eqb];
    (eexists; split; [reflexivity|]); repeat split; read_attr G.
Qed.

(** X5. The inputs of Integer and Decimal have the type number, so the
    part of [_apply_number_constraints] that is kept for the type range
    never runs: whatever [ge], [gt], [le] and [lt] the class sets, the
    input carries neither min nor max.  It carries maxlength exactly
    when [max_str_len] differs from the default. *)
Theorem number_inputs_carry_no_bounds (py : interpreter) (self : HtmlForm) (c : cls)
    (inst : value) (name : string) (s : state) :
  let maxlength :=
    if Z.eqb (Attributes.max_str_len (get_cls_attrs c)) Decimal_max_str_len
    then None
    else Some (Py.str_int (Attributes.max_str_len (get_cls_attrs c))) in
  Forall
    (fun h : cls -> value -> string -> M unit =>
       exists d,
         h c inst name s
         = ([Write (_idiv [label_for self c name; Elt "input" d []])], s, Ok tt)
         /\ Dict.get "type" d = Some "number"
         /\ Dict.get "min" d = None /\ Dict.get "max" d = None
         /\ Dict.get "maxlength" d = maxlength)
    [integer_to_parent py self; decimal_to_parent py self].
Proof.
  intros maxlength. repeat constructor.
  - apply integer_run.
  - apply decimal_run.
Qed.

(** X6. The Boolean serializer writes the input before the label; the
    input is a checkbox whose value is always the text true, whatever
    the instance, and which is checked exactly when the instance is
    truthy. *)
Theorem boolean_checkbox (py : interpreter) (self : HtmlForm) (c : cls) (inst : value)
    (name : string) (s : state) :
  exists d,
    boolean_to_parent py self c inst name s
    = ([Write (_idiv [Elt "input" d []; label_for self c name])], s, Ok tt)
    /\ Dict.get "type" d = Some "checkbox"
    /\ Dict.get "value" d = Some "true"
    /\ Dict.get "checked" d = (if truthy inst then Some "" else None)
    /\ Dict.get "name" d = Some name.
Proof.
  unfold boolean_to_parent, label_for. open_input_full py self c inst name.
  destruct (truthy inst); run_widget; rewrite G; unfold input_attribute at 1;
    cbn [String.eqb Ascii.eqb Bool.eqb];
    (eexists; split; [reflexivity|]); repeat split; read_attr G.
Qed.

(** X7. The DateTime serializer builds its input from [None]: for any
    two instances it writes the same label and the same input, whose
    value is what [None] converts to; only the script tells the
    instances apart.  The Date serializer, by contrast, puts the
    converted instance into the value. *)
Theorem datetime_input_ignores_instance (py : interpreter) (self : HtmlForm) (c : cls)
    (inst1 inst2 : value) (name : string) (s : state) :
  (exists d script1 script2 s',
     datetime_to_parent py self c inst1 name s
     = ([Write (_idiv [label_for self c name; Elt "input" d []; script1])],
        s', Ok tt)
     /\ datetime_to_parent py self c inst2 name s
        = ([Write (_idiv [label_for self c name; Elt "input" d []; script2])],
           s', Ok tt)
     /\ Dict.get "value" d = to_unicode self c VNone)
  /\ (exists d script s',
        date_to_parent py self c inst1 name s
        = ([Write (_idiv [label_for self c name; Elt "input" d []; script])],
           s', Ok tt)
        /\ Dict.get "value" d = to_unicode self c inst1).
Proof.
  split.
  - unfold datetime_to_parent, label_for. open_input_full py self c VNone name.
    run_widget. rewrite G. unfold input_attribute at 1 2.
    cbn [String.eqb Ascii.eqb Bool.eqb].
    generalize (to_string self c inst1) (to_string self c inst2); intros v1 v2.
    destruct (is_none inst1), (is_none inst2),
      (Attributes.format (get_cls_attrs c)) as [f|];
      try (generalize (strftime_time (strftime_date f)); intros fmt);
      (do 4 eexists; split; [reflexivity|split; [reflexivity|]]); read_attr G.
  - unfold date_to_parent, label_for. open_input_full py self c inst1 name.
    run_widget. rewrite G. unfold input_attribute at 1.
    cbn [String.eqb Ascii.eqb Bool.eqb].
    generalize (to_string self c inst1); intros v1.
    destruct (is_none inst1), (Attributes.format (get_cls_attrs c)) as [f|];
      try (generalize (strftime_date f); intros fmt);
      (do 3 eexists; split; [reflexivity|]); read_attr G.
Qed.

(** X8. The password widget writes what the Unicode serializer writes,
    with the type of the input set to password: the label is the same
    and so is every other attribute, the value of the instance
    included. *)
Theorem password_widget_like_unicode (py : interpreter) (self : HtmlForm) (c : cls)
    (inst : value) (name : string) (s : state) :
  exists d,
    unicode_to_parent py self c inst name s
    = ([Write (_idiv [label_for self c name; Elt "input" d []])], s, Ok tt)
    /\ PasswordWidget_to_parent py self c inst name s
       = ([Write (_idiv [label_for self c name;
                         Elt "input" (Dict.set "type" "password" d) []])],
          s, Ok tt)
    /\ Dict.get "type" d = Some "text"
    /\ Dict.get "value" (Dict.set "type" "password" d) = to_unicode self c inst.
Proof.
  unfold unicode_to_parent, PasswordWidget_to_parent, _gen_input_unicode, label_for.
  open_input_full py self c inst name.
  destruct (Attributes.max_len (get_cls_attrs c)); destruct (Z.ltb _ _);
    run_widget; rewrite G; unfold input_attribute at 1 2;
    cbn [String.eqb Ascii.eqb Bool.eqb];
    (eexists; split; [reflexivity|split; [reflexivity|]]); split; read_attr G.
Qed.

(** X22. The input of a Unicode class carries maxlength exactly when
    the class bounds the length, minlength exactly when the least
    length is above zero, and neither otherwise; its type is text. *)
Theorem unicode_length_attributes (py : interpreter) (self : HtmlForm) (c : cls) (inst : value)
    (name : string) (s : state) :
  exists d,
    unicode_to_parent py self c inst name s
    = ([Write (_idiv [label_for self c name; Elt "input" d []])], s, Ok tt)
    /\ Dict.get "type" d = Some "text"
    /\ Dict.get "maxlength" d
       = option_map Py.str_int (Attributes.max_len (get_cls_attrs c))
    /\ Dict.get "minlength" d
       = (if Z.ltb Unicode_min_len (Attributes.min_len (get_cls_attrs c))
          then Some (Py.str_int (Attributes.min_len (get_cls_attrs c)))
          else None).
Proof.
  unfold unicode_to_parent, _gen_input_unicode, label_for.
  open_input_full py self c inst name.
  destruct (Attributes.max_len (get_cls_attrs c)); destruct (Z.ltb _ _);
    run_widget; rewrite G; unfold input_attribute at 1;
    cbn [String.eqb Ascii.eqb Bool.eqb option_map];
    (eexists; split; [reflexivity|]); repeat split; read_attr G.
Qed.

(** X23. Of the eight serializers of primitive classes only the three
    pickers touch the state of the protocol: Date appends the keys of
    jquery and of the date picker to the assets, Time and DateTime
    those and the key of the time picker, on every call and without
    looking for what is there already; the other five leave the assets
    as they are, and none moves the id counter. *)
Theorem only_pickers_register_assets (py : interpreter) (self : HtmlForm) :
  Forall
    (fun kh : kind * (cls -> value -> string -> M unit) =>
       forall c inst name s,
         final_state (snd kh c inst name s)
         = {| SOME_COUNTER := SOME_COUNTER s;
              assets := (assets s ++ serializer_assets (fst kh))%list |})
    (primitive_serializers py self).
Proof.
  unfold primitive_serializers.
  assert (Same : forall s : state,
             s = {| SOME_COUNTER := SOME_COUNTER s; assets := (assets s ++ [])%list |}).
  { intros [n a]. cbn. now rewrite app_nil_r. }
  repeat constructor; cbn [fst snd serializer_assets]; intros c inst name s;
    unfold date_to_parent, time_to_parent, datetime_to_parent,
      integer_to_parent, unicode_to_parent, decimal_to_parent,
      boolean_to_parent, duration_to_parent, _gen_input_unicode,
      bind, lift, write, emit, extend_assets, final_state;
    repeat match goal with
           | |- context [picker_script ?a ?b ?c ?d ?e ?f ?g] =>
               destruct (picker_script a b c d e f g); cbn [fst snd]
           | |- context [_apply_number_constraints ?a ?b] =>
               destruct (_apply_number_constraints a b); cbn [fst snd]
           | |- context [_gen_label ?a ?b ?c ?d] =>
               destruct (_gen_label a b c d); cbn [fst snd]
           end;
    try reflexivity; apply Same.
Qed.

(** ** The order of the members *)

Section SortedOrder.
Context {A K : Type}.
Variables (lt : K -> K -> res bool) (key : A -> K) (ltb : A -> A -> bool).
Hypothesis asym : forall x y, ltb x y = true -> ltb y x = false.

Let ordered (a b : A) : Prop := ltb b a = false.

Lemma insert_sorted_total (x : A) (l : list A) :
  (forall y, In y l -> lt (key y) (key x) = Ok (ltb y x)) ->
  exists l',
    insert_sorted lt key x l = Ok l'
    /\ Permutation (x :: l) l'
    /\ (Sorted ordered l -> Sorted ordered l')
    /\ (forall z, ordered z x -> HdRel ordered z l -> HdRel ordered z l').
Proof.
  induction l as [|y l IH]; intros H; cbn [insert_sorted].
  - exists [x]. repeat split; auto.
  - rewrite (H y (or_introl eq_refl)). cbn [res_bind].
    destruct (ltb y x) eqn:E.
    + destruct IH as (l0 & -> & P & S0 & Hd); [intros z Hz; apply H; now right|].
      exists (y :: l0). cbn [res_map]. split; [reflexivity|].
      split; [rewrite perm_swap; now constructor|].
      split.
      * intros S1. inversion S1 as [|? ? S2 H2]; subst.
        constructor; [auto|]. apply Hd; [exact (asym _ _ E)|exact H2].
      * intros z Hz Hh. inversion Hh; subst. now constructor.
    + exists (x :: y :: l). repeat split; auto.
Qed.

Lemma sorted_total (l : list A) :
  (forall x y, In x l -> In y l -> lt (key y) (key x) = Ok (ltb y x)) ->
  exists l',
    sorted lt key l = Ok l' /\ Permutation l l' /\ Sorted ordered l'.
Proof.
  induction l as [|x l IH]; intros H; cbn [sorted].
  - exists []. repeat split; auto.
  - destruct IH as (l0 & -> & P & S0).
    { intros a b Ha Hb. apply H; now right. }
    cbn [res_bind].
    destruct (insert_sorted_total x l0) as (l' & E & P' & S' & _).
    { intros y Hy. apply H; [now left|right].
      apply (Permutation_in _ (Permutation_sym P) Hy). }
    exists l'. split; [exact E|]. split; [|auto].
    now rewrite <- P', <- P.
Qed.

End SortedOrder.

Lemma ltb_asym (a b : string) : String.ltb a b = true -> String.ltb b a = false.
Proof.
  unfold String.ltb. rewrite (String.compare_antisym a b).
  destruct (String.compare b a); cbn; congruence.
Qed.

Lemma leb_ltb (a b : string) : String.leb a b = negb (String.ltb b a).
Proof.
  unfold String.leb, String.ltb. rewrite (String.compare_antisym a b).
  destruct (String.compare b a); reflexivity.
Qed.

Lemma ltb_irrefl (a : string) : String.ltb a a = false.
Proof.
  destruct (String.ltb a a) eqn:E; [|reflexivity].
  now rewrite (ltb_asym a a E) in E.
Qed.

Lemma lt_form_key_unannotated (py : interpreter) (a b : string * cls) :
  unannotated (snd a) -> unannotated (snd b) ->
  lt_form_key py (_form_key a) (_form_key b) = Ok (String.ltb (fst a) (fst b)).
Proof.
  destruct a as [ka va], b as [kb vb]. cbn [fst snd].
  intros (T1 & F1 & O1) (T2 & F2 & O2).
  unfold _form_key, lt_form_key. rewrite T1, F1, O1, T2, F2, O2.
  unfold tuple_step, lt_str. cbn [eq_opt_idx eq_optZ].
  destruct (String.eqb_spec ka kb) as [->|N]; [|reflexivity].
  now rewrite ltb_irrefl.
Qed.

(** X9. When no member of a class has a tab, a fieldset or an order,
    the sort of the members never raises: it returns the same members,
    ascending by field name, whatever the order of declaration. *)
Theorem unannotated_members_sort_by_name (py : interpreter)
    (fti : list (string * cls)) :
  Forall (fun kv => unannotated (snd kv)) fti ->
  exists fields,
    sorted (lt_form_key py) _form_key fti = Ok fields
    /\ Permutation fti fields
    /\ Sorted by_name fields.
Proof.
  intros U. rewrite Forall_forall in U.
  destruct (sorted_total (lt_form_key py) _form_key
              (fun a b => String.ltb (fst a) (fst b))
              (fun x y => ltb_asym (fst x) (fst y)) fti) as (l' & E & P & S0).
  { intros x y Hx Hy. apply lt_form_key_unannotated; auto. }
  exists l'. split; [exact E|]. split; [exact P|].
  clear E P. induction S0 as [|a l Sl IH Hd]; constructor; [exact IH|].
  destruct Hd as [|b l Hb]; constructor.
  unfold by_name. now rewrite leb_ltb, Hb.
Qed.

(** X9 at two texts declared as b, a. *)
Lemma unannotated_members_sort_by_name_witness :
  let py := Sample.python3 in
  Forall (fun kv => unannotated (snd kv)) [("b", Sample.text); ("a", Sample.text)]
  /\ exists fields,
       sorted (lt_form_key py) _form_key [("b", Sample.text); ("a", Sample.text)]
       = Ok fields
       /\ Permutation [("b", Sample.text); ("a", Sample.text)] fields
       /\ Sorted by_name fields.
Proof.
  intros py.
  assert (H : Forall (fun kv => unannotated (snd kv))
                [("b", Sample.text); ("a", Sample.text)]).
  { repeat constructor. }
  split; [exact H|].
  exact (unannotated_members_sort_by_name py _ H).
Defined.

(** ** The members of a class, one call each *)

Lemma own_calls_app (t1 t2 : list event) :
  own_calls (t1 ++ t2) = (own_calls t1 ++ own_calls t2)%list.
Proof.
  induction t1 as [|e t1 IH]; [reflexivity|].
  destruct e; cbn; now rewrite ?IH.
Qed.

Section Members.

Variable py : interpreter.
Variable self : HtmlForm.
Variable members : cls -> list (string * cls).
Variable tp : cls -> value -> string -> kwargs -> M (option gen).

Lemma tab_transition_calls fti subattr l s t s' r :
  tab_transition py fti subattr l s = (t, s', r) -> own_calls t = [].
Proof.
  destruct l as [pf fc f pt tc tb tvc tvid n].
  unfold tab_transition. cbn [CM.prev_tab CM.tab_ctx
    CM.tabview_ctx CM.fset_ctx CM.n_ctx CM.prev_fset CM.fset CM.tab CM.tabview_id].
  destruct (is_tab (Attributes.tab subattr) pt).
  - intros [= <- _ _]. reflexivity.
  - unfold next_counter.
    destruct pt, fc, tc, (Attributes.tab subattr), (_gen_tab_headers py fti);
      monad_red; cbn; intros [= <- _ _]; reflexivity.
Qed.

Lemma fset_transition_calls k subattr l s t s' r :
  fset_transition k subattr l s = (t, s', r) -> own_calls t = [].
Proof.
  destruct l as [pf fc f pt tc tb tvc tvid n].
  unfold fset_transition. cbn [CM.prev_tab CM.tab_ctx
    CM.tabview_ctx CM.fset_ctx CM.n_ctx CM.prev_fset CM.fset CM.tab CM.tabview_id].
  destruct (is_fset (Attributes.fieldset subattr) pf).
  - intros [= <- _ _]. reflexivity.
  - destruct fc, (Attributes.fieldset subattr); monad_red; cbn;
      intros [= <- _ _]; reflexivity.
Qed.

Lemma cm_finish_calls l s t s' r :
  cm_finish l s = (t, s', r) -> own_calls t = [].
Proof.
  destruct l as [pf fc f pt tc tb tvc tvid n].
  unfold cm_finish. cbn [CM.prev_tab CM.tab_ctx
    CM.tabview_ctx CM.fset_ctx CM.n_ctx CM.prev_fset CM.fset CM.tab CM.tabview_id].
  destruct fc, tc, tvc; monad_red; cbn; intros [= <- _ _]; reflexivity.
Qed.

Lemma nested_call_inv {A} (key : string) (m : M A) s t s' r :
  nested (Call key) m s = (t, s', r) ->
  t = [Call key (trace (m s))] /\ outcome (m s) = r.
Proof.
  unfold nested, trace, outcome. destruct (m s) as [[t0 s0] r0].
  intros [= <- _ <-]. auto.
Qed.

Lemma cm_loop_calls inst name kw fti (fields : list (string * cls)) :
  forall l s t s',
    cm_loop py self tp inst name kw fti l fields s = (t, s', Ok None) ->
    Forall2 (member_call self tp inst name kw)
      (rendered_members fields) (own_calls t).
Proof.
  induction fields as [|[k v] fields IH]; intros l s t s' E;
    cbn [cm_loop] in E; unfold rendered_members; cbn [filter snd].
  - apply bind_ok_inv in E as (t1 & s1 & [] & t2 & E1 & E2 & ->).
    injection E2 as <- _. rewrite app_nil_r, (cm_finish_calls _ _ _ _ _ E1).
    constructor.
  - destruct (Attributes.exc (get_cls_attrs v)); cbn [negb];
      [now apply (IH l s t s')|].
    apply bind_ok_inv in E as (t1 & s1 & l1 & t2 & E1 & E2 & ->).
    apply bind_ok_inv in E2 as (t2' & s2 & l2 & t3 & E2 & E3 & ->).
    apply bind_ok_inv in E3 as (t3' & s3 & r0 & t4 & E3 & E4 & ->).
    rewrite !own_calls_app, (tab_transition_calls _ _ _ _ _ _ _ E1),
      (fset_transition_calls _ _ _ _ _ _ _ E2).
    apply nested_call_inv in E3 as [-> _]. cbn [app own_calls].
    destruct r0 as [g|]; [discriminate|].
    constructor; [|now apply (IH l2 s3 t4 s')].
    split; [reflexivity|]. cbn [fst snd]. now exists s2.
Qed.

Lemma complex_model_calls c inst name kw s t s' :
  complex_model_to_parent py self members tp c inst name kw s = (t, s', Ok None) ->
  exists fields,
    sorted (lt_form_key py) _form_key (members c) = Ok fields
    /\ Forall2
         (member_call self tp inst
            (if String.eqb name (get_type_name c) then "" else name) kw)
         (rendered_members fields) (own_calls t).
Proof.
  unfold complex_model_to_parent. intros E.
  apply bind_ok_inv in E as (t1 & s1 & [] & t2 & E1 & E2 & ->).
  injection E1 as <- <-.
  apply with_suspendable_ok_inv in E2 as (t0 & E2 & ->).
  apply bind_ok_inv in E2 as (t1 & s2 & [] & t3 & E1 & E2 & ->).
  injection E1 as <- <-.
  apply bind_ok_inv in E2 as (t1 & s3 & fields & t4 & E1 & E2 & ->).
  unfold lift in E1. injection E1 as <- <- E1.
  exists fields. split; [exact E1|].
  cbn [app own_calls]. rewrite own_calls_app. cbn [own_calls].
  rewrite app_nil_r. exact (cm_loop_calls _ _ _ _ _ _ _ _ _ E2).
Qed.

End Members.

(** X10. When [complex_model_to_parent] runs to its end without
    suspending, it has rendered the members that are not excluded, each
    exactly once and in the order of the sort: the member [k] from the
    attribute [k] of the instance (or [None] when the instance has
    none), under the name of the parent and [k] joined by the
    delimiter, where the parent counts as unnamed when its name is its
    type name; an excluded member gets no call. *)
Theorem complex_model_renders_each_member_once (py : interpreter)
    (self : HtmlForm)
    (members : cls -> list (string * cls))
    (tp : cls -> value -> string -> kwargs -> M (option gen))
    (c : cls) (inst : value) (name : string) (kw : kwargs) (s : state) :
  let run := complex_model_to_parent py self members tp c inst name kw s in
  let prefix := if String.eqb name (get_type_name c) then "" else name in
  outcome run = Ok None ->
  exists fields,
    sorted (lt_form_key py) _form_key (members c) = Ok fields
    /\ Forall2 (member_call self tp inst prefix kw)
         (rendered_members fields) (own_calls (trace run)).
Proof.
  intros run prefix H. subst run prefix.
  destruct (complex_model_to_parent _ _ _ _ _ _ _ _ s) as [[t s'] r] eqn:E.
  cbn in H. subst r. cbn [trace fst].
  exact (complex_model_calls _ _ _ _ _ _ _ _ _ _ _ E).
Qed.

(** X10 at a class with two tabbed members. *)
Lemma complex_model_renders_each_member_once_witness :
  let tp := to_parent Sample.python3 Sample.self Sample.members 1 in
  let inst := VObj [("a", VStr "x"); ("b", VStr "y")] in
  let run :=
    complex_model_to_parent Sample.python3 Sample.self Sample.members tp
      (Sample.complex "Paged") inst "Paged" None state0 in
  outcome run = Ok None
  /\ exists fields,
       sorted (lt_form_key Sample.python3) _form_key
         (Sample.members (Sample.complex "Paged"))
       = Ok fields
       /\ Forall2 (member_call Sample.self tp inst "" None)
            (rendered_members fields) (own_calls (trace run)).
Proof.
  intros tp inst run.
  assert (H : outcome run = Ok None) by (vm_compute; reflexivity).
  split; [exact H|].
  exact (complex_model_renders_each_member_once Sample.python3 Sample.self Sample.members tp
           (Sample.complex "Paged") inst "Paged" None state0 H).
Defined.

(** ** Members that cannot be ordered *)

Section SortedUniform.
Context {A K : Type}.
Variables (lt : K -> K -> res bool) (key : A -> K) (kind : A -> bool).

Lemma insert_sorted_perm (x : A) (l l' : list A) :
  insert_sorted lt key x l = Ok l' -> Permutation (x :: l) l'.
Proof.
  revert l'. induction l as [|y l IH]; cbn [insert_sorted]; intros l' E.
  - injection E as <-. auto.
  - destruct (lt (key y) (key x)) as [[|]|e|]; cbn in E; try discriminate.
    + destruct (insert_sorted lt key x l) as [l0|e|]; cbn in E; try discriminate.
      injection E as <-. rewrite perm_swap. constructor. now apply IH.
    + injection E as <-. auto.
Qed.

Lemma sorted_perm (l l' : list A) :
  sorted lt key l = Ok l' -> Permutation l l'.
Proof.
  revert l'. induction l as [|x l IH]; cbn [sorted]; intros l' E.
  - injection E as <-. auto.
  - destruct (sorted lt key l) as [l0|e|]; cbn in E; try discriminate.
    apply insert_sorted_perm in E. rewrite <- E. constructor. now apply IH.
Qed.

Lemma sorted_uniform (l : list A) :
  (forall x y, In x l -> In y l -> kind x <> kind y ->
               forall b, lt (key y) (key x) <> Ok b) ->
  forall l', sorted lt key l = Ok l' ->
  forall x y, In x l -> In y l -> kind x = kind y.
Proof.
  induction l as [|x l IH]; intros C l' E; [intros ? ? []|].
  cbn [sorted] in E.
  destruct (sorted lt key l) as [l0|e|] eqn:E0; cbn in E; try discriminate.
  assert (U : forall a b, In a l -> In b l -> kind a = kind b).
  { apply (IH (fun a b Ha Hb => C a b (or_intror Ha) (or_intror Hb)) l0 eq_refl). }
  assert (X : forall y, In y l -> kind x = kind y).
  { intros y Hy. pose proof (sorted_perm _ _ E0) as P.
    destruct l0 as [|z l0].
    - apply Permutation_sym, Permutation_nil in P. subst l. destruct Hy.
    - assert (Hz : In z l).
      { apply (Permutation_in _ (Permutation_sym P)). now left. }
      rewrite (U y z Hy Hz).
      destruct (Bool.bool_dec (kind x) (kind z)) as [Q|Q]; [exact Q|].
      cbn [insert_sorted] in E.
      destruct (lt (key z) (key x)) as [b|e|] eqn:L; cbn in E; try discriminate.
      exfalso. exact (C x z (or_introl eq_refl) (or_intror Hz) Q b L). }
  intros a b [<-|Ha] [<-|Hb]; auto. symmetry. auto.
Qed.

Lemma insert_sorted_raises (x : A) (l : list A) (e : exn) :
  (forall a b e0, lt a b = Raise e0 -> e0 = TypeError) ->
  insert_sorted lt key x l = Raise e -> e = TypeError.
Proof.
  intros T. induction l as [|y l IH]; cbn [insert_sorted]; [discriminate|].
  destruct (lt (key y) (key x)) as [[|]|e0|] eqn:L; cbn; try discriminate.
  - destruct (insert_sorted lt key x l) as [l0|e1|]; cbn; try discriminate.
    intros [= <-]. now apply IH.
  - intros [= <-]. exact (T _ _ _ L).
Qed.

Lemma sorted_raises (l : list A) (e : exn) :
  (forall a b e0, lt a b = Raise e0 -> e0 = TypeError) ->
  sorted lt key l = Raise e -> e = TypeError.
Proof.
  intros T. induction l as [|x l IH]; cbn [sorted]; [discriminate|].
  destruct (sorted lt key l) as [l0|e1|]; cbn; try discriminate.
  - apply insert_sorted_raises, T.
  - intros [= <-]. now apply IH.
Qed.

End SortedUniform.

Lemma lt_None_raises (py : interpreter) (first : bool) (e : exn) :
  lt_None py first = Raise e -> e = TypeError.
Proof. unfold lt_None. destruct (none_first py); congruence. Qed.

Lemma lt_optZ_raises (py : interpreter) (a b : option Z) (e : exn) :
  lt_optZ py a b = Raise e -> e = TypeError.
Proof. destruct a, b; cbn; try congruence; apply lt_None_raises. Qed.

Lemma lt_idx_raises (py : interpreter) (a b : idx_key) (e : exn) :
  lt_idx py a b = Raise e -> e = TypeError.
Proof.
  unfold lt_idx, tuple_step, lt_str.
  destruct (eq_optZ _ _); [destruct (String.eqb _ _); discriminate|].
  apply lt_optZ_raises.
Qed.

Lemma lt_opt_idx_raises (py : interpreter) (a b : option idx_key) (e : exn) :
  lt_opt_idx py a b = Raise e -> e = TypeError.
Proof.
  destruct a, b; cbn; try congruence;
    try apply lt_idx_raises; apply lt_None_raises.
Qed.

Lemma lt_form_key_raises (py : interpreter) (a b : form_key) (e : exn) :
  lt_form_key py a b = Raise e -> e = TypeError.
Proof.
  destruct a as [[[t1 f1] o1] k1], b as [[[t2 f2] o2] k2].
  unfold lt_form_key, tuple_step, lt_str.
  destruct (eq_opt_idx t1 t2); [|apply lt_opt_idx_raises].
  destruct (eq_opt_idx f1 f2); [|apply lt_opt_idx_raises].
  destruct (eq_optZ o1 o2); [|apply lt_optZ_raises].
  destruct (String.eqb k1 k2); discriminate.
Qed.

Lemma sort_mixed_raises (py : interpreter) (fti : list (string * cls))
    (a b : string * cls) :
  none_first py = false ->
  In a fti -> In b fti -> mixed fti a b ->
  sorted (lt_form_key py) _form_key fti = Raise TypeError.
Proof.
  intros P3 Ha Hb Mx.
  destruct (sorted (lt_form_key py) _form_key fti) as [l'|e|] eqn:E.
  - exfalso. destruct Mx as [D|[NT [D|[NF D]]]].
    + apply D. apply (sorted_uniform (lt_form_key py) _form_key has_tab fti) with (l' := l');
        auto.
      intros [kx vx] [ky vy] _ _. unfold has_tab, _form_key, lt_form_key, tuple_step.
      cbn [snd].
      destruct (Attributes.tab (get_cls_attrs vx)), (Attributes.tab (get_cls_attrs vy));
        cbn; unfold lt_None; rewrite ?P3; congruence.
    + apply D.
      apply (sorted_uniform (lt_form_key py) _form_key has_fieldset fti) with (l' := l');
        auto.
      intros [kx vx] [ky vy] Hx Hy. pose proof (NT _ Hx) as Tx. pose proof (NT _ Hy) as Ty.
      revert Tx Ty.
      unfold has_tab, has_fieldset, _form_key, lt_form_key, tuple_step.
      cbn [snd].
      destruct (Attributes.tab (get_cls_attrs vx)), (Attributes.tab (get_cls_attrs vy));
        try discriminate.
      destruct (Attributes.fieldset (get_cls_attrs vx)),
        (Attributes.fieldset (get_cls_attrs vy)); cbn; unfold lt_None; rewrite ?P3; congruence.
    + apply D.
      apply (sorted_uniform (lt_form_key py) _form_key has_order fti) with (l' := l');
        auto.
      intros [kx vx] [ky vy] Hx Hy. pose proof (NT _ Hx) as Tx. pose proof (NT _ Hy) as Ty.
      pose proof (NF _ Hx) as Fx. pose proof (NF _ Hy) as Fy.
      revert Tx Ty Fx Fy.
      unfold has_tab, has_fieldset, has_order, _form_key, lt_form_key, tuple_step.
      cbn [snd].
      destruct (Attributes.tab (get_cls_attrs vx)), (Attributes.tab (get_cls_attrs vy));
        try discriminate.
      destruct (Attributes.fieldset (get_cls_attrs vx)),
        (Attributes.fieldset (get_cls_attrs vy)); try discriminate.
      destruct (Attributes.order (get_cls_attrs vx)),
        (Attributes.order (get_cls_attrs vy)); cbn; unfold lt_None; rewrite ?P3; congruence.
  - f_equal. apply (sorted_raises (lt_form_key py) _form_key fti e (lt_form_key_raises py) E).
  - exfalso. revert E. apply sorted_fuel. apply lt_form_key_fuel.
Qed.

(** X14. On Python 3 a class whose members are mixed can never be
    rendered: when one member has a tab and another has none, or, no
    member having a tab, one has a fieldset and another has none, or,
    no member having either, one has an order and another has none, the
    sort of the members compares [None] with a value and
    [complex_model_to_parent] ends in [TypeError] with nothing in its
    fieldset but the legend.  Excluded members count as well. *)
Theorem mixed_members_always_raise (py : interpreter) (self : HtmlForm)
    (members : cls -> list (string * cls))
    (tp : cls -> value -> string -> kwargs -> M (option gen))
    (c : cls) (inst : value) (name : string) (kw : kwargs) (s : state)
    (a b : string * cls) :
  none_first py = false ->
  In a (members c) -> In b (members c) -> mixed (members c) a b ->
  complex_model_to_parent py self members tp c inst name kw s
  = ([ Enter 0 "fieldset" [];
       Write (Elt "legend" [] [Txt (get_type_name c)]);
       Exit 0 ], s, Raise TypeError).
Proof.
  intros P3 Ha Hb Mx. unfold complex_model_to_parent. monad_red.
  now rewrite (sort_mixed_raises py _ a b P3 Ha Hb Mx).
Qed.

(** X14 at a class with a plain text and a text in a fieldset. *)
Lemma mixed_members_always_raise_witness :
  let py := Sample.python3 in
  let c := Sample.complex "Mixed" in
  let a := ("a", Sample.text) in
  let b := ("b", Sample.text_in_details) in
  none_first py = false
  /\ In a (Sample.members c) /\ In b (Sample.members c)
  /\ mixed (Sample.members c) a b
  /\ complex_model_to_parent py Sample.self Sample.members
       (to_parent py Sample.self Sample.members 1) c VNone "Mixed" None state0
     = ([ Enter 0 "fieldset" [];
          Write (Elt "legend" [] [Txt (get_type_name c)]);
          Exit 0 ], state0, Raise TypeError).
Proof.
  intros py c a b.
  assert (P3 : none_first py = false) by reflexivity.
  assert (Ha : In a (Sample.members c)) by (cbn; auto).
  assert (Hb : In b (Sample.members c)) by (cbn; auto).
  assert (Mx : mixed (Sample.members c) a b).
  { right. split.
    - intros m [<-|[<-|[]]]; reflexivity.
    - left. cbn. discriminate. }
  split; [exact P3|]. split; [exact Ha|]. split; [exact Hb|]. split; [exact Mx|].
  exact (mixed_members_always_raise py Sample.self Sample.members
           (to_parent py Sample.self Sample.members 1) c VNone "Mixed" None state0
           a b P3 Ha Hb Mx).
Defined.

(** ** Suspended renderers *)

Section Suspended.

Variable py : interpreter.
Variable self : HtmlForm.
Variable tp : cls -> value -> string -> kwargs -> M (option gen).

Lemma resume_send (g : gen) (v : value) (s : state) :
  outcome (resume py self tp g (Send v) s) <> Ok None.
Proof.
  destruct g as [child fr|child fr|fr|child fr]; cbn [resume]; unfold forward;
    monad_red.
  - destruct (resume py self tp child (Send v) s) as [[t s1] [[g'|]|e|]];
      cbn; discriminate.
  - destruct (resume py self tp child (Send v) s) as [[t s1] [[g'|]|e|]];
      cbn; discriminate.
  - cbn [Push.kw Push.key Push.c Push.n Push.i Push.attr].
    destruct (Push.kw fr); [cbn; discriminate|].
    destruct (tp _ _ _ _ s) as [[t s1] [[g'|]|e|]]; cbn; discriminate.
  - destruct (resume py self tp child (Send v) s) as [[t s1] [[g'|]|e|]];
      cbn; discriminate.
Qed.

Lemma push_wait_writes (fr : Push.frame) (m : msg) (s : state) :
  own_writes (trace (resume py self tp (GPushWait fr) m s)) = [].
Proof.
  destruct m as [v|]; cbn [resume]; monad_red; [|reflexivity].
  cbn [Push.kw Push.key Push.c Push.n Push.i Push.attr].
  destruct (Push.kw fr); [reflexivity|].
  destruct (tp _ _ _ _ s) as [[t s1] [[g'|]|e|]]; reflexivity.
Qed.

Lemma push_fwd_writes (child : gen) (fr : Push.frame) (m : msg) (s : state) :
  own_writes (trace (resume py self tp (GPushFwd child fr) m s)) = [].
Proof.
  destruct m as [v|]; cbn [resume]; unfold forward; monad_red.
  - destruct (resume py self tp child (Send v) s) as [[t s1] [[g'|]|e|]];
      reflexivity.
  - pose proof (break_comes_back py self tp child s) as B.
    destruct (resume py self tp child ThrowBreak s) as [[t s1] r].
    cbn in B. subst r. reflexivity.
Qed.

End Suspended.

(** X11. A renderer of this module that has suspended never runs to
    its end: a value sent to it leaves it suspended or raises, and
    [Break] thrown into it always comes back out as [Break], since the
    push generator at the bottom waits outside every handler. *)
Theorem suspended_renderer_never_completes (py : interpreter)
    (self : HtmlForm)
    (tp : cls -> value -> string -> kwargs -> M (option gen))
    (g : gen) (s : state) :
  outcome (resume py self tp g ThrowBreak s) = Raise Break
  /\ forall v, outcome (resume py self tp g (Send v) s) <> Ok None.
Proof.
  split; [apply break_comes_back|]. intros v. apply resume_send.
Qed.

(** X12. The push renderer writes no node of its own, neither when it
    is started nor when it is resumed: the add and delete buttons sit
    behind a [throw] that never returns, and the array script behind a
    loop that never ends.  What it emits itself are the item divs. *)
Theorem push_renderer_writes_nothing (py : interpreter)
    (self : HtmlForm)
    (tp : cls -> value -> string -> kwargs -> M (option gen))
    (c : cls) (inst : value) (name : string) (kw : kwargs)
    (child : gen) (fr : Push.frame) (m : msg) (s : state) :
  own_writes (trace (_push_to_parent c inst name kw s)) = []
  /\ own_writes (trace (resume py self tp (GPushWait fr) m s)) = []
  /\ own_writes (trace (resume py self tp (GPushFwd child fr) m s)) = [].
Proof.
  split; [reflexivity|]. split; [apply push_wait_writes|apply push_fwd_writes].
Qed.

(** ** The container of an array *)

(** X13. For a list whose member renderer completes on every item,
    [array_to_parent] puts all of the output of the pull renderer, item
    divs and script, inside the container div, whose id is the safe
    name followed by [_container] and whose class is array. *)
Theorem array_container_encloses_pulled_items
    (tp : cls -> value -> string -> kwargs -> M (option gen)) (c : cls)
    (items : list value) (name : string) (kw : kwargs) (s : state)
    (item_done : forall v k s0, exists t s1, tp c v k (Some true) s0 = (t, s1, Ok None)) :
  let key := selsafe name in
  let no_write := Attributes.no_write (get_cls_attrs c) in
  exists subs s' tail,
    List.length subs = List.length items
    /\ rendered_under tp c key 0 items subs
    /\ array_tail key no_write tail
    /\ array_to_parent tp c (VList items) name kw s
       = ([ Enter 0 "div" [("id", key ++ "_container"); ("class", "array")];
            Call name (item_divs key no_write 0 subs ++ tail);
            Exit 0 ], s', Ok None).
Proof.
  intros key no_write.
  destruct (pull_loop_items tp c item_done key (get_cls_attrs c) kw items 0 s)
    as (subs & s' & tail & Hl & Hr & Ht & R).
  exists subs, s', tail. repeat split; auto.
  unfold array_to_parent, _pull_to_parent. cbn [is_PushBase is_none iterate].
  monad_red. fold key. rewrite R. reflexivity.
Qed.

(** X13 at a list of two texts. *)
Lemma array_container_encloses_pulled_items_witness :
  let tp := to_parent Sample.python3 Sample.self Sample.members 1 in
  (forall v k s0, exists t s1, tp Sample.text v k (Some true) s0 = (t, s1, Ok None))
  /\ exists subs s' tail,
       List.length subs = 2
       /\ rendered_under tp Sample.text "tags" 0 [VStr "a"; VStr "b"] subs
       /\ array_tail "tags" false tail
       /\ array_to_parent tp Sample.text (VList [VStr "a"; VStr "b"]) "tags" None state0
          = ([ Enter 0 "div" [("id", "tags_container"); ("class", "array")];
               Call "tags" (item_divs "tags" false 0 subs ++ tail);
               Exit 0 ], s', Ok None).
Proof.
  intros tp.
  assert (H : forall v k s0, exists t s1,
             tp Sample.text v k (Some true) s0 = (t, s1, Ok None)).
  { intros v k s0. subst tp. cbn [to_parent kw_from_arr negb andb Sample.text cls_kind].
    destruct (unicode_labelled Sample.python3 Sample.self Sample.text v k s0) as (n & s1 & E & _).
    unfold done, bind, ret. fold Sample.text. rewrite E. eauto. }
  split; [exact H|].
  exact (array_container_encloses_pulled_items tp Sample.text
           [VStr "a"; VStr "b"] "tags" None state0 H).
Defined.

(** ** The push protocol *)

Section PushItems.

Variable py : interpreter.
Variable self : HtmlForm.
Variable tp : cls -> value -> string -> kwargs -> M (option gen).
Variable c : cls.
Hypothesis item_done :
  forall v k s, exists t s', tp c v k (Some true) s = (t, s', Ok None).

Lemma push_items_run (key : string) (attr : Attributes.t) (i : Z)
    (vs : list value) :
  forall n s,
  exists subs s',
    List.length subs = List.length vs
    /\ pushed_under tp c key i vs subs
    /\ drive (resume py self tp) (Some (GPushWait (Push.mk c key attr None i n)))
         (map Send vs ++ [ThrowBreak]) s
       = ((pushed_divs key i n subs ++ [Exit (n + List.length vs)])%list,
          s', Raise Break).
Proof.
  induction vs as [|v vs IH]; intros n s.
  - exists [], s. split; [reflexivity|]. split; [exact I|].
    cbn. rewrite Nat.add_0_r. reflexivity.
  - destruct (item_done v (item_key key i) s) as (t & s1 & Etp).
    destruct (IH (S n) s1) as (subs & s' & Hl & Hu & R).
    exists (t :: subs), s'. split; [cbn; now rewrite Hl|].
    split; [cbn; split; [exists s; now rewrite Etp|exact Hu]|].
    cbn [map app drive resume]. monad_red.
    cbn [Push.kw Push.key Push.c Push.n Push.i Push.attr].
    rewrite Z.add_0_r, Etp. unfold push_next. monad_red.
    cbn [Push.kw Push.key Push.c Push.n Push.i Push.attr].
    rewrite R. cbn [pushed_divs app List.length].
    now rewrite Nat.add_succ_r.
Qed.

End PushItems.

(** X18. A push generator renders every element sent to it in the item
    div that was opened before the element arrived, under the one key
    of its fixed index, and opens the next item div right away.  When
    [Break] is thrown after n elements it closes that last div, which
    is empty, and lets [Break] out: n elements leave n + 1 item divs,
    no buttons and no script. *)
Theorem push_renders_then_leaves_empty_div (py : interpreter)
    (self : HtmlForm)
    (tp : cls -> value -> string -> kwargs -> M (option gen)) (c : cls)
    (key : string) (attr : Attributes.t) (i : Z) (n : nat)
    (vs : list value) (s : state)
    (item_done : forall v k s0, exists t s1, tp c v k (Some true) s0 = (t, s1, Ok None)) :
  exists subs s',
    List.length subs = List.length vs
    /\ pushed_under tp c key i vs subs
    /\ drive (resume py self tp) (Some (GPushWait (Push.mk c key attr None i n)))
         (map Send vs ++ [ThrowBreak]) s
       = ((pushed_divs key i n subs ++ [Exit (n + List.length vs)])%list,
          s', Raise Break).
Proof.
  exact (push_items_run py self tp c item_done key attr i vs n s).
Qed.

(** X18 at two pushed texts. *)
Lemma push_renders_then_leaves_empty_div_witness :
  let tp := to_parent Sample.python3 Sample.self Sample.members 1 in
  (forall v k s0, exists t s1, tp Sample.text v k (Some true) s0 = (t, s1, Ok None))
  /\ exists subs s',
       List.length subs = 2
       /\ pushed_under tp Sample.text "tags" (-1) [VStr "a"; VStr "b"] subs
       /\ drive (resume Sample.python3 Sample.self tp)
            (Some (GPushWait (Push.mk Sample.text "tags"
                                (get_cls_attrs Sample.text) None (-1) 0)))
            [Send (VStr "a"); Send (VStr "b"); ThrowBreak] state0
          = ((pushed_divs "tags" (-1) 0 subs ++ [Exit 2])%list, s', Raise Break).
Proof.
  intros tp.
  assert (H : forall v k s0, exists t s1,
             tp Sample.text v k (Some true) s0 = (t, s1, Ok None)).
  { intros v k s0. subst tp. cbn [to_parent kw_from_arr negb andb Sample.text cls_kind].
    destruct (unicode_labelled Sample.python3 Sample.self Sample.text v k s0) as (n & s1 & E & _).
    unfold done, bind, ret. fold Sample.text. rewrite E. eauto. }
  split; [exact H|].
  exact (push_renders_then_leaves_empty_div Sample.python3 Sample.self tp Sample.text "tags"
           (get_cls_attrs Sample.text) (-1) 0 [VStr "a"; VStr "b"] state0 H).
Defined.

(** ** An array of texts, from the dispatcher down *)

Lemma rendered_under_Forall
    (tp : cls -> value -> string -> kwargs -> M (option gen)) (c : cls)
    (P : list event -> Prop) (key : string) (items : list value) :
  (forall v k s, P (trace (tp c v k (Some true) s))) ->
  forall i subs, rendered_under tp c key i items subs -> Forall P subs.
Proof.
  intros H. induction items as [|v items IH]; intros i [|t subs]; cbn;
    try contradiction; [constructor|].
  intros [[s <-] R]. constructor; [apply H|]. exact (IH _ _ R).
Qed.

Lemma text_item_done (py : interpreter) (self : HtmlForm) (members : cls -> list (string * cls))
    (fuel : nat) (c : cls) :
  cls_kind c = Unicode ->
  forall v k s, exists n s',
    to_parent py self members (S fuel) c v k (Some true) s = ([Write n], s', Ok None)
    /\ labelled_input n.
Proof.
  intros K v k s. cbn [to_parent kw_from_arr negb andb]. rewrite K.
  destruct (unicode_labelled py self c v k s) as (n & s1 & E & L).
  exists n, s1. split; [|exact L].
  unfold done, bind, ret. now rewrite E.
Qed.

(** X19. Handed a list for a Unicode class that may occur more than
    once, the dispatcher goes through [array_to_parent] once and then
    straight to the Unicode serializer for every item: inside the
    container div there is one item div per item, each holding one
    labelled input followed by the buttons, and then the script. *)
Theorem array_of_texts_through_dispatcher (py : interpreter)
    (self : HtmlForm)
    (members : cls -> list (string * cls)) (fuel : nat) (c : cls)
    (items : list value) (name : string) (s : state) :
  cls_kind c = Unicode ->
  exceeds_one (Attributes.max_occurs (get_cls_attrs c)) = true ->
  let key := selsafe name in
  let no_write := Attributes.no_write (get_cls_attrs c) in
  exists subs s' tail,
    List.length subs = List.length items
    /\ rendered_under (to_parent py self members (S fuel)) c key 0 items subs
    /\ Forall (fun t => exists n, t = [Write n] /\ labelled_input n) subs
    /\ array_tail key no_write tail
    /\ to_parent py self members (S (S fuel)) c (VList items) name None s
       = ([ Enter 0 "div" [("id", key ++ "_container"); ("class", "array")];
            Call name (item_divs key no_write 0 subs ++ tail);
            Exit 0 ], s', Ok None).
Proof.
  intros K X key no_write.
  assert (D : forall v k s0, exists t s1,
             to_parent py self members (S fuel) c v k (Some true) s0 = (t, s1, Ok None)).
  { intros v k s0. destruct (text_item_done py self members fuel c K v k s0)
      as (n & s1 & E & _). eauto. }
  destruct (pull_loop_items (to_parent py self members (S fuel)) c D key
              (get_cls_attrs c) None items 0 s)
    as (subs & s' & tail & Hl & Hr & Ht & R).
  exists subs, s', tail. split; [exact Hl|]. split; [exact Hr|].
  split.
  { apply (rendered_under_Forall (to_parent py self members (S fuel)) c _ key items)
      with (i := 0); [|exact Hr].
    intros v k s0. destruct (text_item_done py self members fuel c K v k s0)
      as (n & s1 & E & L). rewrite E. exists n. auto. }
  split; [exact Ht|].
  remember (S fuel) as f eqn:F.
  cbn [to_parent kw_from_arr negb andb]. rewrite X.
  unfold array_to_parent, _pull_to_parent. cbn [is_PushBase is_none iterate].
  monad_red. fold key. rewrite R. reflexivity.
Qed.

(** X19 at the texts of the sample class. *)
Lemma array_of_texts_through_dispatcher_witness :
  let c := Sample.texts_in_details in
  cls_kind c = Unicode
  /\ exceeds_one (Attributes.max_occurs (get_cls_attrs c)) = true
  /\ exists subs s' tail,
       List.length subs = 2
       /\ rendered_under (to_parent Sample.python3 Sample.self Sample.members 1) c "tags" 0
            [VStr "a"; VStr "b"] subs
       /\ Forall (fun t => exists n, t = [Write n] /\ labelled_input n) subs
       /\ array_tail "tags" false tail
       /\ to_parent Sample.python3 Sample.self Sample.members 2 c (VList [VStr "a"; VStr "b"])
            "tags" None state0
          = ([ Enter 0 "div" [("id", "tags_container"); ("class", "array")];
               Call "tags" (item_divs "tags" false 0 subs ++ tail);
               Exit 0 ], s', Ok None).
Proof.
  intros c.
  assert (K : cls_kind c = Unicode) by reflexivity.
  assert (X : exceeds_one (Attributes.max_occurs (get_cls_attrs c)) = true)
    by reflexivity.
  split; [exact K|]. split; [exact X|].
  exact (array_of_texts_through_dispatcher Sample.python3 Sample.self Sample.members 0 c
           [VStr "a"; VStr "b"] "tags" state0 K X).
Defined.

(** X25. [_gen_array_js] cannot fail on its key: whatever the key
    holds, percent signs and quotes included, the template is filled in
    (the key is put in as it is and not read for directives), exactly
    one script node is written and the state is left alone. *)
Theorem array_script_never_fails (key : string) (s : state) :
  exists text,
    format_map array_js_template [("field_name", key)] = Ok text
    /\ _gen_array_js key s = ([Write (E_script text)], s, Ok tt)
    /\ node_tag (E_script text) = Some "script".
Proof.
  destruct (array_js_ok key) as [text E]. exists text.
  split; [exact E|]. split; [|reflexivity].
  unfold _gen_array_js, bind, lift, write, emit. now rewrite E.
Qed.

(** ** Generated ids *)

Lemma str_nat_inj (a b : nat) : Py.str_nat a = Py.str_nat b -> a = b.
Proof.
  unfold Py.str_nat. intros E.
  assert (D : decode_index (Py.str_N (N.of_nat a))
              = decode_index (Py.str_N (N.of_nat b))) by now rewrite E.
  rewrite !decode_str_N in D. injection D as D. lia.
Qed.

(** X15. A tab or fieldset made without an htmlid takes the module
    counter for its id and moves the counter on by one, so its id
    differs from the id of any tab or fieldset made that way later. *)
Theorem default_htmlids_fresh (a b : bool) (s1 s2 : state) :
  SOME_COUNTER (snd (default_htmlid a s1)) <= SOME_COUNTER s2 ->
  exists h1 h2,
    fst (default_htmlid a s1) = Ok h1
    /\ fst (default_htmlid b s2) = Ok h2
    /\ h1 <> h2
    /\ SOME_COUNTER (snd (default_htmlid a s1)) = S (SOME_COUNTER s1).
Proof.
  unfold default_htmlid, Tab_new, Fieldset_new, next_counter. monad_red.
  destruct a, b; cbn; intros L; do 2 eexists;
    (split; [reflexivity|]); (split; [reflexivity|]);
    (split; [|reflexivity]); intros E;
    try discriminate;
    repeat (injection E as E); apply str_nat_inj in E; lia.
Qed.

(** X15 at a fieldset and the tab made right after it. *)
Lemma default_htmlids_fresh_witness :
  SOME_COUNTER (snd (default_htmlid false state0))
  <= SOME_COUNTER (snd (default_htmlid false state0))
  /\ exists h1 h2,
       fst (default_htmlid false state0) = Ok h1
       /\ fst (default_htmlid true (snd (default_htmlid false state0))) = Ok h2
       /\ h1 <> h2
       /\ SOME_COUNTER (snd (default_htmlid false state0)) = S (SOME_COUNTER state0).
Proof.
  assert (H : SOME_COUNTER (snd (default_htmlid false state0))
              <= SOME_COUNTER (snd (default_htmlid false state0))) by (cbn; lia).
  split; [exact H|].
  exact (default_htmlids_fresh false true state0
           (snd (default_htmlid false state0)) H).
Defined.

(** ** Tab headers *)

Lemma set_tab_In (t u : Tab.t) (tabs : list Tab.t) :
  In u (set_tab t tabs) -> u = t \/ In u tabs.
Proof.
  induction tabs as [|w tabs IH]; cbn [set_tab].
  - intros [<-|[]]. now left.
  - destruct (Nat.eqb (Tab.oid t) (Tab.oid w)).
    + intros [<-|H]; [now left|right; now right].
    + intros [<-|H]; [right; now left|].
      destruct (IH H); [now left|right; now right].
Qed.

Lemma set_tab_oids (t : Tab.t) (tabs : list Tab.t) (o : nat) :
  In o (map Tab.oid (set_tab t tabs))
  <-> o = Tab.oid t \/ In o (map Tab.oid tabs).
Proof.
  induction tabs as [|w tabs IH]; cbn [set_tab map In].
  - intuition.
  - destruct (Nat.eqb_spec (Tab.oid t) (Tab.oid w)) as [E|N]; cbn [map In].
    + rewrite <- E. intuition.
    + rewrite IH. intuition.
Qed.

Lemma set_tab_NoDup (t : Tab.t) (tabs : list Tab.t) :
  NoDup (map Tab.oid tabs) -> NoDup (map Tab.oid (set_tab t tabs)).
Proof.
  induction tabs as [|w tabs IH]; cbn [set_tab map]; intros H.
  - constructor; [intros []|constructor].
  - inversion H as [|? ? Hw Ht]; subst.
    destruct (Nat.eqb_spec (Tab.oid t) (Tab.oid w)) as [E|N]; cbn [map].
    + rewrite E. now constructor.
    + constructor; [|auto]. rewrite set_tab_oids. intros [E|I]; auto.
Qed.

Lemma collect_tabs_NoDup (fti : list (string * cls)) :
  forall acc, NoDup (map Tab.oid acc) ->
              NoDup (map Tab.oid (collect_tabs fti acc)).
Proof.
  induction fti as [|[k v] fti IH]; intros acc H; cbn [collect_tabs]; [exact H|].
  destruct (Attributes.tab (get_cls_attrs v)) as [t|]; [|auto].
  destruct (Attributes.exc (get_cls_attrs v)); [auto|].
  apply IH, set_tab_NoDup, H.
Qed.

Lemma collect_tabs_In (fti : list (string * cls)) :
  forall acc u, In u (collect_tabs fti acc) -> In u acc \/ shown_tab fti u.
Proof.
  induction fti as [|[k v] fti IH]; intros acc u; cbn [collect_tabs]; [auto|].
  assert (W : shown_tab fti u -> shown_tab ((k, v) :: fti) u).
  { intros (k' & v' & I & X & T). exists k', v'. split; [now right|auto]. }
  destruct (Attributes.tab (get_cls_attrs v)) as [t|] eqn:T.
  - destruct (Attributes.exc (get_cls_attrs v)) eqn:X.
    + intros H. destruct (IH _ _ H); auto.
    + intros H. destruct (IH _ _ H) as [H'|H']; [|auto].
      destruct (set_tab_In _ _ _ H') as [->|H'']; [|auto].
      right. exists k, v. split; [now left|auto].
  - intros H. destruct (IH _ _ H); auto.
Qed.

Lemma collect_tabs_oids (fti : list (string * cls)) :
  forall acc o,
    In o (map Tab.oid (collect_tabs fti acc))
    <-> In o (map Tab.oid acc) \/ exists t, shown_tab fti t /\ Tab.oid t = o.
Proof.
  induction fti as [|[k v] fti IH]; intros acc o; cbn [collect_tabs].
  - split; [auto|]. intros [H|(t & (k & v & [] & _) & _)]. exact H.
  - assert (W : forall t, shown_tab fti t -> shown_tab ((k, v) :: fti) t).
    { intros t (k' & v' & I & X & T). exists k', v'. split; [now right|auto]. }
    assert (V : forall t, shown_tab ((k, v) :: fti) t ->
                (Attributes.exc (get_cls_attrs v) = false
                 /\ Attributes.tab (get_cls_attrs v) = Some t)
                \/ shown_tab fti t).
    { intros t (k' & v' & [[= <- <-]|I] & X & T); [now left|].
      right. now exists k', v'. }
    destruct (Attributes.tab (get_cls_attrs v)) as [t|] eqn:T.
    + destruct (Attributes.exc (get_cls_attrs v)) eqn:X.
      * rewrite IH. split; intros [H|(u & S & <-)]; auto.
        -- right. exists u. auto.
        -- destruct (V _ S) as [[? _]|S']; [discriminate|]. right. now exists u.
      * rewrite IH, set_tab_oids. split.
        -- intros [[->|H]|(u & S & <-)]; auto.
           ++ right. exists t. split; [|reflexivity].
              exists k, v. split; [now left|auto].
           ++ right. exists u. auto.
        -- intros [H|(u & S & <-)]; auto.
           destruct (V _ S) as [[_ [= ->]]|S']; auto.
           right. now exists u.
    + rewrite IH. split; intros [H|(u & S & <-)]; auto.
      * right. exists u. auto.
      * destruct (V _ S) as [[_ ?]|S']; [discriminate|]. right. now exists u.
Qed.

Lemma insert_sorted_succeeds {A K} (lt : K -> K -> res bool) (key : A -> K)
    (x : A) (l : list A) :
  (forall y, In y l -> exists b, lt (key y) (key x) = Ok b) ->
  exists l', insert_sorted lt key x l = Ok l'.
Proof.
  induction l as [|y l IH]; intros H; cbn [insert_sorted]; [eauto|].
  destruct (H y (or_introl eq_refl)) as [b ->]. cbn [res_bind].
  destruct b; [|eauto].
  destruct IH as [l0 ->]; [intros z Hz; apply H; now right|]. cbn. eauto.
Qed.

Lemma sorted_succeeds {A K} (lt : K -> K -> res bool) (key : A -> K) (l : list A) :
  (forall x y, In x l -> In y l -> exists b, lt (key y) (key x) = Ok b) ->
  exists l', sorted lt key l = Ok l'.
Proof.
  induction l as [|x l IH]; intros H; cbn [sorted]; [eauto|].
  destruct IH as [l0 E0]; [intros a b Ha Hb; apply H; now right|].
  rewrite E0. cbn [res_bind].
  apply insert_sorted_succeeds. intros y Hy. apply H; [now left|right].
  apply (Permutation_in _ (Permutation_sym (sorted_perm _ _ _ _ E0)) Hy).
Qed.

Lemma members_uniform_index (py : interpreter)
    (fti fields : list (string * cls)) :
  none_first py = false ->
  sorted (lt_form_key py) _form_key fti = Ok fields ->
  forall a b, In a fti -> In b fti -> tab_has_index a = tab_has_index b.
Proof.
  intros P3 E. apply (sorted_uniform (lt_form_key py) _form_key tab_has_index fti)
    with (l' := fields); [|exact E].
  intros [kx vx] [ky vy] _ _.
  unfold tab_has_index, has_index, _form_key, lt_form_key, tuple_step, lt_idx.
  cbn [snd].
  destruct (Attributes.tab (get_cls_attrs vx)) as [tx|],
    (Attributes.tab (get_cls_attrs vy)) as [ty|]; cbn;
    unfold lt_None; rewrite ?P3; try congruence.
  destruct (Tab.index tx), (Tab.index ty); cbn;
    unfold lt_None; rewrite ?P3; congruence.
Qed.

Lemma lt_idx_uniform (py : interpreter) (u w : Tab.t) :
  has_index u = has_index w ->
  exists b, lt_idx py (Tab.index w, Tab.htmlid w) (Tab.index u, Tab.htmlid u) = Ok b.
Proof.
  unfold has_index, lt_idx, tuple_step, lt_str. cbn [fst snd].
  destruct (Tab.index u), (Tab.index w); try discriminate; intros _; cbn.
  - destruct (Z.eqb _ _); [destruct (String.eqb _ _)|]; eauto.
  - destruct (String.eqb _ _); eauto.
Qed.

(** On Python 2, where [None] orders before everything, every two keys
    compare, and the sort of the members never raises. *)
Lemma lt_optZ_none_first (py : interpreter) (a b : option Z) :
  none_first py = true -> exists r, lt_optZ py a b = Ok r.
Proof.
  intros P2. unfold lt_optZ, lt_None. rewrite P2. destruct a, b; eauto.
Qed.

Lemma lt_idx_none_first (py : interpreter) (a b : idx_key) :
  none_first py = true -> exists r, lt_idx py a b = Ok r.
Proof.
  intros P2. unfold lt_idx, tuple_step, lt_str.
  destruct (eq_optZ _ _); [destruct (String.eqb _ _); eauto|].
  now apply lt_optZ_none_first.
Qed.

Lemma lt_opt_idx_none_first (py : interpreter) (a b : option idx_key) :
  none_first py = true -> exists r, lt_opt_idx py a b = Ok r.
Proof.
  intros P2. unfold lt_opt_idx, lt_None. rewrite P2.
  destruct a, b; eauto. now apply lt_idx_none_first.
Qed.

Lemma lt_form_key_none_first (py : interpreter) (a b : form_key) :
  none_first py = true -> exists r, lt_form_key py a b = Ok r.
Proof.
  intros P2. destruct a as [[[t1 f1] o1] k1], b as [[[t2 f2] o2] k2].
  unfold lt_form_key, tuple_step, lt_str.
  destruct (eq_opt_idx t1 t2); [|now apply lt_opt_idx_none_first].
  destruct (eq_opt_idx f1 f2); [|now apply lt_opt_idx_none_first].
  destruct (eq_optZ o1 o2); [|now apply lt_optZ_none_first].
  destruct (String.eqb k1 k2); eauto.
Qed.

Lemma members_sort_when_none_first (py : interpreter) (fti : list (string * cls)) :
  none_first py = true ->
  exists fields,
    sorted (lt_form_key py) _form_key fti = Ok fields /\ Permutation fti fields.
Proof.
  intros P2.
  destruct (sorted_succeeds (lt_form_key py) _form_key fti) as [fields E].
  { intros x y _ _. now apply lt_form_key_none_first. }
  exists fields. split; [exact E|]. exact (sorted_perm _ _ _ _ E).
Qed.

(** The class of C1 with a plain text and a text in a fieldset, as
    Python 2 sorts it: the member without a fieldset first. *)
Lemma mixed_members_sort_on_python2 :
  sorted (lt_form_key Sample.python2) _form_key
    (Sample.members (Sample.complex "Mixed"))
  = Ok [("a", Sample.text); ("b", Sample.text_in_details)].
Proof. vm_compute. reflexivity. Qed.

(** X16. Once the members of a class have sorted, the tab headers sort
    as well: [_gen_tab_headers] returns a list with exactly one entry
    for each tab object that a member that is not excluded has, however
    many members share the tab, and none for the tabs that only
    excluded members have. *)
Theorem tab_headers_after_sort (py : interpreter)
    (fti fields : list (string * cls)) :
  sorted (lt_form_key py) _form_key fti = Ok fields ->
  exists tabs,
    _gen_tab_headers py fti = Ok (Elt "ul" [] (tab_items 0 tabs))
    /\ NoDup (map Tab.oid tabs)
    /\ Forall (shown_tab fti) tabs
    /\ forall o, In o (map Tab.oid tabs)
                 <-> exists t, shown_tab fti t /\ Tab.oid t = o.
Proof.
  intros E. unfold _gen_tab_headers.
  assert (In_shown : forall u, In u (collect_tabs fti []) -> shown_tab fti u).
  { intros u H. destruct (collect_tabs_In _ _ _ H) as [[]|S]. exact S. }
  destruct (sorted_succeeds (lt_idx py) (fun t => (Tab.index t, Tab.htmlid t))
              (collect_tabs fti [])) as [tabs S].
  { intros u w Hu Hw.
    destruct (none_first py) eqn:P; [now apply lt_idx_none_first|].
    apply lt_idx_uniform.
    destruct (In_shown _ Hu) as (ku & vu & Iu & _ & Tu).
    destruct (In_shown _ Hw) as (kw & vw & Iw & _ & Tw).
    pose proof (members_uniform_index py _ _ P E _ _ Iu Iw) as U.
    unfold tab_has_index in U. cbn [snd] in U. now rewrite Tu, Tw in U. }
  exists tabs. rewrite S. cbn [res_map]. split; [reflexivity|].
  pose proof (sorted_perm _ _ _ _ S) as P.
  split.
  { apply (Permutation_NoDup (Permutation_map Tab.oid P)).
    apply collect_tabs_NoDup. constructor. }
  split.
  { apply Forall_forall. intros u Hu. apply In_shown.
    apply (Permutation_in _ (Permutation_sym P) Hu). }
  intros o. split.
  - intros H.
    apply (Permutation_in _ (Permutation_sym (Permutation_map Tab.oid P))) in H.
    apply collect_tabs_oids in H as [[]|H]. exact H.
  - intros H. apply (Permutation_in _ (Permutation_map Tab.oid P)).
    apply collect_tabs_oids. now right.
Qed.

(** X16 at a class with two tabbed members. *)
Lemma tab_headers_after_sort_witness :
  let py := Sample.python3 in
  let fti := Sample.members (Sample.complex "Paged") in
  sorted (lt_form_key py) _form_key fti = Ok fti
  /\ exists tabs,
       _gen_tab_headers py fti = Ok (Elt "ul" [] (tab_items 0 tabs))
       /\ NoDup (map Tab.oid tabs)
       /\ Forall (shown_tab fti) tabs
       /\ forall o, In o (map Tab.oid tabs)
                    <-> exists t, shown_tab fti t /\ Tab.oid t = o.
Proof.
  intros py fti.
  assert (H : sorted (lt_form_key py) _form_key fti = Ok fti)
    by (vm_compute; reflexivity).
  split; [exact H|].
  exact (tab_headers_after_sort py fti fti H).
Defined.

(** ** The tab view *)

Lemma own_writes_app (t1 t2 : list event) :
  own_writes (t1 ++ t2) = (own_writes t1 ++ own_writes t2)%list.
Proof.
  induction t1 as [|e t1 IH]; [reflexivity|].
  destruct e; cbn; now rewrite ?IH.
Qed.

Lemma count_tag_app (tag : string) (a b : list node) :
  count_tag tag (a ++ b) = count_tag tag a + count_tag tag b.
Proof.
  induction a as [|n a IH]; [reflexivity|]. cbn. rewrite IH. lia.
Qed.

Lemma gen_tab_headers_tag (py : interpreter) (fti : list (string * cls))
    (hdr : node) :
  _gen_tab_headers py fti = Ok hdr -> node_tag hdr = Some "ul".
Proof.
  unfold _gen_tab_headers. destruct (sorted _ _ _); cbn; try discriminate.
  now intros [= <-].
Qed.

Section TabView.

Variable py : interpreter.
Variable self : HtmlForm.
Variable members : cls -> list (string * cls).
Variable tp : cls -> value -> string -> kwargs -> M (option gen).

Let tabbed (a : Attributes.t) : bool :=
  match Attributes.tab a with Some _ => true | None => false end.

Lemma tab_transition_writes fti subattr l s t s' l' :
  tab_transition py fti subattr l s = (t, s', Ok l') ->
  tab_seen l ->
  tab_seen l'
  /\ opened l' = opened l || tabbed subattr
  /\ count_tag "ul" (own_writes t)
     = (if negb (opened l) && tabbed subattr then 1 else 0)
  /\ count_tag "script" (own_writes t) = 0.
Proof.
  destruct l as [pf fc f pt tc tb tvc tvid n].
  unfold tab_transition, tab_seen, opened, tabbed. cbn [CM.prev_tab CM.tab_ctx
    CM.tabview_ctx CM.fset_ctx CM.n_ctx CM.prev_fset CM.fset CM.tab CM.tabview_id].
  destruct (is_tab (Attributes.tab subattr) pt) eqn:Same.
  - intros [= <- <- <-] J. cbn. split; [exact J|].
    destruct (Attributes.tab subattr), pt, tvc; cbn in *; try discriminate;
      repeat split; auto;
      destruct J as [_ J]; now specialize (J eq_refl).
  - intros E J. revert E. destruct pt as [p|].
    + destruct tvc as [v|]; [|destruct J as [_ J]; now specialize (J eq_refl)].
      destruct fc, tc, (Attributes.tab subattr); monad_red; cbn;
        intros [= <- <- <-]; cbn; repeat split; intros; discriminate.
    + destruct tvc as [v|]; [destruct J as [J _]; now specialize (J eq_refl)|].
      unfold next_counter.
      destruct fc, tc, (Attributes.tab subattr), (_gen_tab_headers py fti) eqn:H;
        monad_red; cbn; try discriminate;
        intros [= <- <- <-]; cbn; rewrite (gen_tab_headers_tag _ _ _ H); cbn;
        repeat split; intros; discriminate.
Qed.

Lemma fset_transition_writes k subattr l s t s' l' :
  fset_transition k subattr l s = (t, s', Ok l') ->
  tab_seen l ->
  tab_seen l'
  /\ opened l' = opened l
  /\ count_tag "ul" (own_writes t) = 0
  /\ count_tag "script" (own_writes t) = 0.
Proof.
  destruct l as [pf fc f pt tc tb tvc tvid n].
  unfold fset_transition, tab_seen, opened. cbn [CM.prev_tab CM.tab_ctx
    CM.tabview_ctx CM.fset_ctx CM.n_ctx CM.prev_fset CM.fset CM.tab CM.tabview_id].
  destruct (is_fset (Attributes.fieldset subattr) pf).
  - intros [= <- <- <-] J. cbn. auto.
  - destruct fc, (Attributes.fieldset subattr); monad_red; cbn;
      try discriminate; intros [= <- <- <-] J; cbn; auto.
Qed.

Lemma cm_finish_writes l s t s' :
  cm_finish l s = (t, s', Ok tt) ->
  count_tag "ul" (own_writes t) = 0
  /\ count_tag "script" (own_writes t) = (if opened l then 1 else 0).
Proof.
  destruct l as [pf fc f pt tc tb tvc tvid n].
  unfold cm_finish, opened. cbn [CM.prev_tab CM.tab_ctx
    CM.tabview_ctx CM.fset_ctx CM.n_ctx CM.prev_fset CM.fset CM.tab CM.tabview_id].
  destruct fc, tc, tvc; monad_red; cbn; intros [= <- <-]; cbn; auto.
Qed.

Lemma cm_loop_tab_view inst name kw fti (fields : list (string * cls)) :
  forall l s t s',
    cm_loop py self tp inst name kw fti l fields s = (t, s', Ok None) ->
    tab_seen l ->
    count_tag "ul" (own_writes t)
    = (if negb (opened l) && existsb has_tab (rendered_members fields)
       then 1 else 0)
    /\ count_tag "script" (own_writes t)
       = (if opened l || existsb has_tab (rendered_members fields)
          then 1 else 0).
Proof.
  induction fields as [|[k v] fields IH]; intros l s t s' E J;
    cbn [cm_loop] in E.
  - apply bind_ok_inv in E as (t1 & s1 & [] & t2 & E1 & E2 & ->).
    injection E2 as <- _. rewrite app_nil_r.
    destruct (cm_finish_writes _ _ _ _ E1) as [-> ->]. cbn [rendered_members filter existsb].
    rewrite andb_false_r, orb_false_r. auto.
  - change (rendered_members ((k, v) :: fields))
      with (if negb (Attributes.exc (get_cls_attrs v))
            then (k, v) :: rendered_members fields
            else rendered_members fields).
    destruct (Attributes.exc (get_cls_attrs v)); cbn [negb];
      [now apply (IH l s t s')|].
    apply bind_ok_inv in E as (t1 & s1 & l1 & t2 & E1 & E2 & ->).
    apply bind_ok_inv in E2 as (t2' & s2 & l2 & t3 & E2 & E3 & ->).
    apply bind_ok_inv in E3 as (t3' & s3 & r0 & t4 & E3 & E4 & ->).
    destruct (tab_transition_writes _ _ _ _ _ _ _ E1 J) as (J1 & O1 & U1 & S1).
    destruct (fset_transition_writes _ _ _ _ _ _ _ E2 J1) as (J2 & O2 & U2 & S2).
    apply nested_inv in E3 as [t0 ->].
    destruct r0 as [g|]; [discriminate|].
    destruct (IH _ _ _ _ E4 J2) as [U4 S4].
    rewrite !own_writes_app, !count_tag_app, U1, U2, S1, S2, U4, S4, O2, O1.
    cbn [own_writes count_tag existsb].
    change (has_tab (k, v)) with (tabbed (get_cls_attrs v)).
    generalize (existsb has_tab (rendered_members fields)) as e.
    generalize (tabbed (get_cls_attrs v)) as b.
    destruct (opened l); intros [] []; cbn; auto.
Qed.

Lemma complex_model_tab_view c inst name kw s t s' :
  complex_model_to_parent py self members tp c inst name kw s = (t, s', Ok None) ->
  exists fields,
    sorted (lt_form_key py) _form_key (members c) = Ok fields
    /\ count_tag "ul" (own_writes t)
       = (if existsb has_tab (rendered_members fields) then 1 else 0)
    /\ count_tag "script" (own_writes t)
       = (if existsb has_tab (rendered_members fields) then 1 else 0).
Proof.
  unfold complex_model_to_parent. intros E.
  apply bind_ok_inv in E as (t1 & s1 & [] & t2 & E1 & E2 & ->).
  injection E1 as <- <-.
  apply with_suspendable_ok_inv in E2 as (t0 & E2 & ->).
  apply bind_ok_inv in E2 as (t1 & s2 & [] & t3 & E1 & E2 & ->).
  injection E1 as <- <-.
  apply bind_ok_inv in E2 as (t1 & s3 & fields & t4 & E1 & E2 & ->).
  unfold lift in E1. injection E1 as <- <- E1.
  exists fields. split; [exact E1|].
  destruct (cm_loop_tab_view _ _ _ _ _ _ _ _ _ E2) as [U S]; [split; reflexivity|].
  cbn [app own_writes]. rewrite own_writes_app. cbn [count_tag node_tag].
  rewrite !count_tag_app, U, S.
  cbn. destruct (existsb has_tab (rendered_members fields)); auto.
Qed.

End TabView.

(** X24. When [complex_model_to_parent] runs to its end without
    suspending, it has written the list of tab headers and the script
    that turns the tab view into tabs exactly once each if a member
    that is not excluded has a tab, and not at all otherwise, however
    many tabs and members there are. *)
Theorem tab_view_set_up_once (py : interpreter) (self : HtmlForm)
    (members : cls -> list (string * cls))
    (tp : cls -> value -> string -> kwargs -> M (option gen))
    (c : cls) (inst : value) (name : string) (kw : kwargs) (s : state) :
  let run := complex_model_to_parent py self members tp c inst name kw s in
  outcome run = Ok None ->
  exists fields,
    sorted (lt_form_key py) _form_key (members c) = Ok fields
    /\ count_tag "ul" (own_writes (trace run))
       = (if existsb has_tab (rendered_members fields) then 1 else 0)
    /\ count_tag "script" (own_writes (trace run))
       = (if existsb has_tab (rendered_members fields) then 1 else 0).
Proof.
  intros run H. subst run.
  destruct (complex_model_to_parent _ _ _ _ _ _ _ _ s) as [[t s'] r] eqn:E.
  cbn in H. subst r. cbn [trace fst].
  exact (complex_model_tab_view _ _ _ _ _ _ _ _ _ _ _ E).
Qed.

(** X24 at a class with two tabs. *)
Lemma tab_view_set_up_once_witness :
  let tp := to_parent Sample.python3 Sample.self Sample.members 1 in
  let run :=
    complex_model_to_parent Sample.python3 Sample.self Sample.members tp
      (Sample.complex "Paged") (VObj [("a", VStr "x"); ("b", VStr "y")])
      "Paged" None state0 in
  outcome run = Ok None
  /\ exists fields,
       sorted (lt_form_key Sample.python3) _form_key
         (Sample.members (Sample.complex "Paged"))
       = Ok fields
       /\ count_tag "ul" (own_writes (trace run))
          = (if existsb has_tab (rendered_members fields) then 1 else 0)
       /\ count_tag "script" (own_writes (trace run))
          = (if existsb has_tab (rendered_members fields) then 1 else 0).
Proof.
  intros tp run.
  assert (H : outcome run = Ok None) by (vm_compute; reflexivity).
  split; [exact H|].
  exact (tab_view_set_up_once Sample.python3 Sample.self Sample.members tp
           (Sample.complex "Paged") (VObj [("a", VStr "x"); ("b", VStr "y")])
           "Paged" None state0 H).
Defined.

(** ** Render widgets *)

Lemma prep_inst_missing_text self w gfti c inst :
  assoc (text_field w) (gfti c) = None ->
  _prep_inst self w gfti c inst = Raise KeyError.
Proof.
  intros H. unfold _prep_inst, fti_item. rewrite H.
  destruct (id_field w) as [f|]; [|reflexivity].
  destruct (assoc f (gfti c)); reflexivity.
Qed.

(** X20. A render widget whose text field is not a member of the class
    it renders raises [KeyError] before anything is written, for every
    instance, [None] included; for the combo box the class is the one
    given as [type] when there is one. *)
Theorem render_widgets_need_text_field (py : interpreter)
    (self : HtmlForm)
    (w : ComplexRenderWidget) (urlencode : string -> string -> string)
    (gfti : cls -> list (string * cls)) (c : cls) (inst : value)
    (name : string) (s : state) :
  let c' := match type_ w with Some t => t | None => c end in
  assoc (text_field w) (gfti c) = None ->
  assoc (text_field w) (gfti c') = None ->
  HrefWidget_to_parent py self w urlencode gfti c inst name s
  = ([], s, Raise KeyError)
  /\ ComboBoxWidget_to_parent py self w gfti c inst name s
     = ([], s, Raise KeyError).
Proof.
  intros c' H H'. unfold HrefWidget_to_parent, ComboBoxWidget_to_parent.
  fold c'. monad_red.
  now rewrite (prep_inst_missing_text self w gfti c inst H),
    (prep_inst_missing_text self w gfti c' inst H').
Qed.

(** X20 at a widget that reads a title from a class with members a, b. *)
Lemma render_widgets_need_text_field_witness :
  let w := SampleWidget.by_title in
  let c := Sample.complex "Paged" in
  assoc (text_field w) (Sample.members c) = None
  /\ assoc (text_field w)
       (Sample.members (match type_ w with Some t => t | None => c end)) = None
  /\ HrefWidget_to_parent Sample.python3 Sample.self w SampleWidget.urlencode Sample.members
       c VNone "p" state0
     = ([], state0, Raise KeyError)
  /\ ComboBoxWidget_to_parent Sample.python3 Sample.self w Sample.members c VNone "p" state0
     = ([], state0, Raise KeyError).
Proof.
  intros w c.
  assert (H : assoc (text_field w) (Sample.members c) = None) by reflexivity.
  assert (H' : assoc (text_field w)
                 (Sample.members (match type_ w with Some t => t | None => c end))
               = None) by reflexivity.
  split; [exact H|]. split; [exact H'|].
  exact (render_widgets_need_text_field Sample.python3 Sample.self w SampleWidget.urlencode
           Sample.members c VNone "p" state0 H H').
Defined.

Lemma write_hidden_run self fti inst name keys s :
  Forall (fun key => assoc key fti <> None) keys ->
  write_hidden self fti inst name keys s
  = (map (hidden_input self fti inst name) keys, s, Ok tt).
Proof.
  induction 1 as [|key keys Hk _ IH]; cbn [write_hidden map]; [reflexivity|].
  unfold hidden_input at 1, fti_item, _gen_input_hidden. monad_red.
  destruct (assoc key fti) as [t|]; [|contradiction].
  now rewrite IH.
Qed.

Lemma write_hidden_fields_run self w fti inst name s :
  (forall keys, hidden_fields w = Some keys ->
                Forall (fun key => assoc key fti <> None) keys) ->
  write_hidden_fields self w fti inst name s
  = (map (hidden_input self fti inst name) (hidden_keys w), s, Ok tt).
Proof.
  unfold write_hidden_fields, hidden_keys. intros H.
  destruct (hidden_fields w) as [keys|]; [|reflexivity].
  apply write_hidden_run, H. reflexivity.
Qed.

Lemma prep_inst_none self w gfti c :
  fields_known w (gfti c) ->
  _prep_inst self w gfti c VNone = Ok (gfti c, None, Some "[Unknown]").
Proof.
  intros (T & I & _). unfold _prep_inst, fti_item.
  destruct (assoc (text_field w) (gfti c)); [|contradiction].
  destruct (id_field w) as [f|]; [|reflexivity].
  specialize (I f eq_refl). destruct (assoc f (gfti c)); [reflexivity|contradiction].
Qed.

(** X21. With [None] for the instance and every named field a member
    of the class, the href widget writes a link without href whose text
    is [Unknown] in brackets, and the combo box a select, with the
    attributes of an input of type text, whose one option is selected,
    has the empty value and the same text.  Both then write one hidden
    input per hidden field, named by the name, the delimiter and the
    field, also when the name is empty. *)
Theorem render_widgets_unknown_instance (py : interpreter)
    (self : HtmlForm)
    (w : ComplexRenderWidget) (urlencode : string -> string -> string)
    (gfti : cls -> list (string * cls)) (c : cls) (name : string) (s : state) :
  let c' := match type_ w with Some t => t | None => c end in
  fields_known w (gfti c) ->
  fields_known w (gfti c') ->
  HrefWidget_to_parent py self w urlencode gfti c VNone name s
  = (Write (Elt "a" [] [Txt "[Unknown]"])
     :: map (hidden_input self (gfti c) VNone name) (hidden_keys w), s, Ok tt)
  /\ ComboBoxWidget_to_parent py self w gfti c VNone name s
     = (Write (Elt "select" (_gen_input_attrs_novalue py c' name (get_cls_attrs c'))
                 [Elt "option" [("value", ""); ("selected", "")]
                    [Txt "[Unknown]"]])
        :: map (hidden_input self (gfti c') VNone name) (hidden_keys w), s, Ok tt)
  /\ Dict.get "type" (_gen_input_attrs_novalue py c' name (get_cls_attrs c'))
     = Some "text".
Proof.
  intros c' F F'. unfold HrefWidget_to_parent, ComboBoxWidget_to_parent.
  fold c'. monad_red.
  rewrite (prep_inst_none self w gfti c F), (prep_inst_none self w gfti c' F').
  cbn [E_with_text].
  rewrite (write_hidden_fields_run self w (gfti c) VNone name s (proj2 (proj2 F))),
    (write_hidden_fields_run self w (gfti c') VNone name s (proj2 (proj2 F'))).
  split; [reflexivity|]. split; [reflexivity|].
  unfold _gen_input_attrs_novalue.
  destruct (Attributes.pattern (get_cls_attrs c')), (is_required (get_cls_attrs c'));
    reflexivity.
Qed.

(** X21 at a widget with one hidden field. *)
Lemma render_widgets_unknown_instance_witness :
  let w := SampleWidget.by_a in
  let c := Sample.complex "Paged" in
  fields_known w (Sample.members c)
  /\ HrefWidget_to_parent Sample.python3 Sample.self w SampleWidget.urlencode Sample.members
       c VNone "" state0
     = (Write (Elt "a" [] [Txt "[Unknown]"])
        :: map (hidden_input Sample.self (Sample.members c) VNone "") (hidden_keys w),
        state0, Ok tt)
  /\ ComboBoxWidget_to_parent Sample.python3 Sample.self w Sample.members c VNone "" state0
     = (Write (Elt "select" (_gen_input_attrs_novalue Sample.python3 c "" (get_cls_attrs c))
                 [Elt "option" [("value", ""); ("selected", "")]
                    [Txt "[Unknown]"]])
        :: map (hidden_input Sample.self (Sample.members c) VNone "") (hidden_keys w),
        state0, Ok tt)
  /\ Dict.get "type" (_gen_input_attrs_novalue Sample.python3 c "" (get_cls_attrs c))
     = Some "text".
Proof.
  intros w c.
  assert (F : fields_known w (Sample.members c)).
  { split; [discriminate|]. split; [discriminate|].
    intros keys [= <-]. repeat constructor; discriminate. }
  split; [exact F|].
  exact (render_widgets_unknown_instance Sample.python3 Sample.self w
           SampleWidget.urlencode Sample.members c "" state0 F F).
Defined.
